(** * BackupPurge: retention purge, provider connectors and dispatcher

    A shallow embedding of [purgeScript.js] and of the three modules of
    [file-management-utils.js] (the dispatcher [files], the Google Cloud
    Storage connector and the Amazon S3 connector), with the properties the
    specification states about them.

    Conventions of the embedding:
    - a JavaScript string is a [string] whose characters are code units
      below 256;
    - a promise is modelled by the list of [resolve]/[reject] calls its
      executor makes, in order; the first one settles it;
    - the storage provider is a state machine over an abstract world, so
      that a listing made after deletions may differ from the one before. *)

From Stdlib Require Import ZArith List Bool Arith Lia String Ascii.
From Stdlib Require Import Permutation Sorted DecimalString.
Import ListNotations.

Local Open Scope string_scope.
Local Open Scope list_scope.

(** String concatenation, kept apart from the concatenation of lists. *)
Infix "+++" := String.append (right associativity, at level 60).

(* ================================================================== *)
(** ** JavaScript values and built-ins used by the sources *)

Module JS.

(** Numbers: the sources only produce integers, [NaN] and the infinities. *)
Inductive jsnum : Type :=
| NaN
| NegInf
| Num (z : Z)
| PosInf.

Inductive jsval : Type :=
| JUndefined
| JNull
| JBool (b : bool)
| JNumber (n : jsnum)
| JString (s : string).

(** [typeof v === 'string'] *)
Definition is_string (v : jsval) : bool :=
  match v with JString _ => true | _ => false end.

(** ToBoolean *)
Definition truthy (v : jsval) : bool :=
  match v with
  | JUndefined | JNull => false
  | JBool b => b
  | JNumber NaN => false
  | JNumber (Num z) => negb (z =? 0)%Z
  | JNumber _ => true
  | JString s => negb (String.eqb s "")
  end.

(** [a || b] *)
Definition or_else (a b : jsval) : jsval := if truthy a then a else b.

(** [v === false] *)
Definition is_false (v : jsval) : bool :=
  match v with JBool false => true | _ => false end.

(** [String.prototype.toLowerCase] on one code unit below 256: the ASCII
    capitals and the Latin-1 capitals U+00C0..U+00DE (U+00D7 is the
    multiplication sign) move up by 32. *)
Definition lower_char (c : ascii) : ascii :=
  let n := nat_of_ascii c in
  if ((65 <=? n) && (n <=? 90))%nat then ascii_of_nat (n + 32)
  else if ((192 <=? n) && (n <=? 222) && negb (n =? 215))%nat
       then ascii_of_nat (n + 32)
  else c.

Fixpoint toLowerCase (s : string) : string :=
  match s with
  | EmptyString => EmptyString
  | String c r => String (lower_char c) (toLowerCase r)
  end.

(** [s.slice(i, j)] for [0 <= i <= j]. *)
Definition slice (i j : nat) (s : string) : string := substring i (j - i) s.

(** Decimal rendering of a number in string concatenation. *)
Definition show_nat (n : nat) : string := NilZero.string_of_uint (Nat.to_uint n).

(** [Array.prototype.slice(start, end)] with possibly negative indices. *)
Definition rel_index (len : nat) (k : Z) : nat :=
  if (k <? 0)%Z then Z.to_nat (Z.max (Z.of_nat len + k) 0)
  else Nat.min (Z.to_nat k) len.

Definition array_slice {A} (start : Z) (stop : option Z) (l : list A) : list A :=
  let len := List.length l in
  let a := rel_index len start in
  let b := match stop with Some e => rel_index len e | None => len end in
  firstn (b - a) (skipn a l).

(** Errors that travel through [reject] and [throw]. *)
Inductive jserror : Type :=
| ErrMessage (s : string)            (* reject('some text') *)
| ErrError (msg : string)            (* new Error(msg) *)
| ErrAggregate (msg : string)
    (failedItems : list (string * string * string * string))
                                      (* Error with a failedItems property:
                                         bucket, path, version, error *)
| ErrType (msg : string)             (* TypeError raised by the runtime *)
| ErrProvider (code : string).       (* failure reported by the SDK *)

(** What a promise executor does to its promise. *)
Inductive settle (A : Type) : Type :=
| Resolve (v : A)
| Reject (e : jserror).
Arguments Resolve {A} v.
Arguments Reject {A} e.

Inductive outcome (A : Type) : Type :=
| Pending
| Resolved (v : A)
| Rejected (e : jserror).
Arguments Pending {A}.
Arguments Resolved {A} v.
Arguments Rejected {A} e.

(** The first call to [resolve] or [reject] settles the promise; later
    calls are ignored; no call leaves it pending. *)
Definition settled {A} (calls : list (settle A)) : outcome A :=
  match calls with
  | [] => Pending
  | Resolve v :: _ => Resolved v
  | Reject e :: _ => Rejected e
  end.

(** *** Numeric conversions

    The date fields of a backup name are made of decimal digits.
    [StringToNumber] and [parseInt] are written for that alphabet:
    [StringToNumber] gives the value of a string of digits and [NaN] for a
    string with another character, [parseInt] the value of the leading
    digits and [NaN] when there is none.  The other numeric literals of the
    language (leading white space, signs, fractions, exponents, radix
    prefixes) are not modelled; the statements about parsed dates are made
    for fields of digits. *)

Definition digit (c : ascii) : option Z :=
  let n := nat_of_ascii c in
  if ((48 <=? n) && (n <=? 57))%nat then Some (Z.of_nat (n - 48)) else None.

Fixpoint all_digits (s : string) : bool :=
  match s with
  | EmptyString => true
  | String c r => match digit c with Some _ => all_digits r | None => false end
  end.

(** Value of the longest prefix of digits, [None] when it is empty. *)
Fixpoint digits_prefix (acc : option Z) (s : string) : option Z :=
  match s with
  | EmptyString => acc
  | String c r =>
      match digit c with
      | Some d =>
          digits_prefix
            (Some (10 * match acc with Some a => a | None => 0 end + d)%Z) r
      | None => acc
      end
  end.

(** The number a string of digits writes. *)
Definition decimal (s : string) : Z :=
  match digits_prefix None s with Some z => z | None => 0%Z end.

Definition parseInt (s : string) : jsnum :=
  match digits_prefix None s with Some z => Num z | None => NaN end.

Definition StringToNumber (s : string) : jsnum :=
  if all_digits s then
    match digits_prefix None s with Some z => Num z | None => Num 0 end
  else NaN.

Definition ToNumber (v : jsval) : jsnum :=
  match v with
  | JUndefined => NaN
  | JNull => Num 0
  | JBool b => Num (if b then 1 else 0)
  | JNumber n => n
  | JString s => StringToNumber s
  end.

(** [n - 1] *)
Definition pred_num (n : jsnum) : jsnum :=
  match n with Num z => Num (z - 1)%Z | other => other end.

(** *** Date objects

    A [Date] is known by its time value: [NaN] or a number of
    milliseconds.  The constructor works in local time; the offset of the
    local zone to UTC is left out, so time values are local milliseconds. *)
Record Date : Type := mkDate { getTime : jsnum }.

Definition msPerDay : Z := 86400000.

Definition DayFromYear (y : Z) : Z :=
  (365 * (y - 1970) + (y - 1969) / 4 - (y - 1901) / 100 + (y - 1601) / 400)%Z.

Definition InLeapYear (y : Z) : bool :=
  (((y mod 4 =? 0) && negb (y mod 100 =? 0)) || (y mod 400 =? 0))%Z.

(** Days of the year before month [m] (0-based). *)
Definition DaysBeforeMonth (leap : bool) (m : Z) : Z :=
  (nth (Z.to_nat m) [0; 31; 59; 90; 120; 151; 181; 212; 243; 273; 304; 334] 0
   + (if leap && (2 <=? m) then 1 else 0))%Z.

(** MakeDay(year, month, date) of the language definition: months beyond
    0..11 carry into the year, and the day of the month is an offset from
    the first of that month, whatever its size. *)
Definition MakeDay (year month dt : Z) : Z :=
  let ym := (year + month / 12)%Z in
  let mn := (month mod 12)%Z in
  (DayFromYear ym + DaysBeforeMonth (InLeapYear ym) mn + dt - 1)%Z.

Definition TimeClip (t : Z) : jsnum :=
  if (8640000000000000 <? Z.abs t)%Z then NaN else Num t.

(** A year in 0..99 means 1900..1999 to the constructor. *)
Definition full_year (y : Z) : Z :=
  if ((0 <=? y) && (y <=? 99))%Z then (1900 + y)%Z else y.

(** [new Date(year, month, date)] on converted arguments: a [NaN]
    argument gives an invalid date. *)
Definition new_Date (year month dt : jsnum) : Date :=
  match year, month, dt with
  | Num y, Num m, Num d => mkDate (TimeClip (MakeDay (full_year y) m d * msPerDay))
  | _, _, _ => mkDate NaN
  end.

(** [isNaN(date)] *)
Definition invalid_date (d : Date) : bool :=
  match getTime d with NaN => true | _ => false end.

(** Year, month (1-based) and day of the month of a day number, read back
    from the proleptic Gregorian calendar. *)
Definition civil_of_day (day : Z) : Z * Z * Z :=
  let z := (day + 719468)%Z in
  let era := (z / 146097)%Z in
  let doe := (z - era * 146097)%Z in
  let yoe := ((doe - doe / 1460 + doe / 36524 - doe / 146096) / 365)%Z in
  let doy := (doe - (365 * yoe + yoe / 4 - yoe / 100))%Z in
  let mp := ((5 * doy + 2) / 153)%Z in
  let d := (doy - (153 * mp + 2) / 5 + 1)%Z in
  let m := (if mp <? 10 then mp + 3 else mp - 9)%Z in
  ((yoe + era * 400 + (if m <=? 2 then 1 else 0))%Z, m, d).

Definition DaysInMonth (y m : Z) : Z :=
  (if m =? 2 then (if InLeapYear y then 29 else 28)
   else if (m =? 4) || (m =? 6) || (m =? 9) || (m =? 11) then 30 else 31)%Z.

(** Whether every day of the years [from .. from + years - 1] is read
    back as it was given to [MakeDay]. *)
Definition reads_back (from : Z) (years : nat) : bool :=
  forallb
    (fun y =>
       forallb
         (fun m =>
            forallb
              (fun d =>
                 let '(y', m', d') := civil_of_day (MakeDay y (m - 1) d) in
                 ((y' =? y) && (m' =? m) && (d' =? d))%Z)
              (map Z.of_nat (seq 1 (Z.to_nat (DaysInMonth y m)))))
         (map Z.of_nat (seq 1 12)))
    (map (fun k => (from + Z.of_nat k)%Z) (seq 0 years)).

(** [(getFullYear(), getMonth() + 1, getDate())] of a valid date. *)
Definition calendar (d : Date) : option (Z * Z * Z) :=
  match getTime d with
  | Num t => Some (civil_of_day (t / msPerDay))
  | _ => None
  end.

(** String form of a value in a concatenation. *)
Definition show_val (v : jsval) : string :=
  match v with
  | JUndefined => "undefined"
  | JNull => "null"
  | JBool true => "true"
  | JBool false => "false"
  | JNumber NaN => "NaN"
  | JNumber PosInf => "Infinity"
  | JNumber NegInf => "-Infinity"
  | JNumber (Num z) => NilZero.string_of_int (Z.to_int z)
  | JString s => s
  end.

(** String form of an error in a concatenation. *)
Definition show_error (e : jserror) : string :=
  match e with
  | ErrMessage s => s
  | ErrError m => "Error: " +++ m
  | ErrAggregate m _ => "Error: " +++ m
  | ErrType m => "TypeError: " +++ m
  | ErrProvider c => c
  end.

End JS.
Import JS.

(* ================================================================== *)
(** ** purgeScript.js *)

Module Purge.

(** [const quantity = 30] *)
Definition quantity : nat := 30.

(** Lines 10-19: [env] is [process.env.DRYRUN]. *)
Definition parse_dryrun (env : jsval) : jsval :=
  let dryrun := or_else env (JBool true) in
  match dryrun with
  | JString s =>
      if String.eqb (toLowerCase s) "false" then JBool false else JBool true
  | _ => dryrun
  end.

(** The engine deletes for real exactly when [dryrun === false]. *)
Definition live (dryrun : jsval) : bool := is_false dryrun.

(** [{name, date, filesource}]; [date = None] is [date: undefined]. *)
Record backup : Type := mkBackup {
  name : string;
  date : option Date;
  filesource : string
}.

Definition undated (b : backup) : bool :=
  match date b with None => true | Some _ => false end.

Fixpoint remove_at {A} (i : nat) (l : list A) : list A :=
  match i, l with
  | _, [] => []
  | O, _ :: r => r
  | S k, x :: r => x :: remove_at k r
  end.

(** Lines 61-68: [backupObjects.forEach(function (cur, i) {...})].
    [forEach] fixes the number of indices to visit before the first call
    ([steps]) and skips an index that is no longer in the array; the
    callback removes the entry at the visited index with [splice(i, 1)],
    which moves every later entry one place down. *)
Fixpoint exclude_from (dryrun : jsval) (steps i : nat)
    (backupObjects backupsToKeep : list backup) : list backup * list backup :=
  match steps with
  | O => (backupObjects, backupsToKeep)
  | S n =>
      match nth_error backupObjects i with
      | None => exclude_from dryrun n (S i) backupObjects backupsToKeep
      | Some cur =>
          if undated cur then
            exclude_from dryrun n (S i) (remove_at i backupObjects)
              (if is_false dryrun then backupsToKeep else backupsToKeep ++ [cur])
          else exclude_from dryrun n (S i) backupObjects backupsToKeep
      end
  end.

Definition exclude (dryrun : jsval) (backupObjects : list backup)
  : list backup * list backup :=
  exclude_from dryrun (List.length backupObjects) 0 backupObjects [].

(** Lines 78-96: the comparator.  [a.date.getTime()] throws on an undefined
    date and the handler puts [Infinity]; a [NaN] time value does the same. *)
Definition sort_key (b : backup) : jsnum :=
  match date b with
  | None => PosInf
  | Some d => match getTime d with NaN => PosInf | t => t end
  end.

Definition sub (a b : jsnum) : jsnum :=
  match a, b with
  | NaN, _ | _, NaN => NaN
  | Num x, Num y => Num (x - y)%Z
  | PosInf, PosInf | NegInf, NegInf => NaN
  | PosInf, _ | _, NegInf => PosInf
  | NegInf, _ | _, PosInf => NegInf
  end.

Definition compareFn (a b : backup) : jsnum := sub (sort_key a) (sort_key b).

Definition is_positive (n : jsnum) : bool :=
  match n with
  | PosInf => true
  | Num z => (0 <? z)%Z
  | _ => false
  end.

(** [Array.prototype.sort] is stable, and a comparator result of [NaN]
    counts as [+0]; the stable order is written as an insertion sort:
    an entry goes behind exactly those it compares greater than. *)
Fixpoint insert (x : backup) (l : list backup) : list backup :=
  match l with
  | [] => [x]
  | y :: r => if is_positive (compareFn x y) then y :: insert x r else x :: l
  end.

Definition sort (l : list backup) : list backup := fold_right insert [] l.

(** [{currentInstallation, path, filesource}] *)
Record Task : Type := mkTask {
  currentInstallation : string;
  path : string;
  task_filesource : string
}.

Record plan : Type := mkPlan {
  backupsToDelete : list backup;     (* slice(0, -quantity) *)
  retained : list backup;            (* slice(-quantity): what is left *)
  backupsToKeep : list backup        (* the list the script reports *)
}.

(** Lines 57-103; [None] is the early return "Not enough backups". *)
Definition purge_plan (dryrun : jsval) (backupObjects : list backup) : option plan :=
  let '(valid, keep) := exclude dryrun backupObjects in
  if (List.length valid <=? quantity)%nat then None
  else
    let sorted := sort valid in
    let last := array_slice (- Z.of_nat quantity)%Z None sorted in
    Some {| backupsToDelete := array_slice 0 (Some (- Z.of_nat quantity)%Z) sorted;
            retained := last;
            backupsToKeep := if is_false dryrun then keep else keep ++ last |}.

Definition delete_task (installation : string) (b : backup) : Task :=
  {| currentInstallation := installation;
     path := ("backups/" +++ name b);
     task_filesource := filesource b |}.

(** Lines 125-145: the array handed to [itemQueue.push]. *)
Definition deleteBackups (dryrun : jsval) (installation : string) (p : plan)
  : list Task :=
  if is_false dryrun then map (delete_task installation) (backupsToDelete p)
  else [].

(** Lines 133-141: what the callback prints itself. *)
Definition report (dryrun : jsval) (installation : string) (p : plan)
  : list string :=
  if is_false dryrun then []
  else
    (installation +++ ": Dryrun wants to delete "
       +++ show_nat (List.length (backupsToDelete p)) +++ " backups:")
    :: map (fun b => ("Delete: " +++ name b +++ ", filesource: " +++ filesource b))
           (backupsToDelete p)
    ++ (installation +++ ": Dryrun wants to keep "
          +++ show_nat (List.length (backupsToKeep p)) +++ " backups")
    :: map (fun b => ("Keep: " +++ name b +++ ", filesource: " +++ filesource b))
           (backupsToKeep p).

(** One run of the [Promise.all(promises).then] callback for an
    installation: the lines it prints and the tasks it pushes. *)
Record run : Type := mkRun {
  console : list string;
  pushed : list Task
}.

Definition purge (dryrun : jsval) (installation : string)
    (backupObjects : list backup) : run :=
  match purge_plan dryrun backupObjects with
  | None =>
      {| console := [(installation +++ ": Not enough backups to purge")];
         pushed := [] |}
  | Some p =>
      {| console := report dryrun installation p;
         pushed := deleteBackups dryrun installation p |}
  end.

(** The queue worker calls [FileUtils.deleteAll(task.currentInstallation,
    task.path, task.filesource)] once for every pushed task. *)
Definition deleteAll_calls (r : run) : list (string * string * string) :=
  map (fun t => (currentInstallation t, path t, task_filesource t)) (pushed r).

(** *** Vocabulary of the statements about the plan *)

Definition dated (b : backup) : bool := negb (undated b).

Definition dated_count (l : list backup) : nat := List.length (filter dated l).

(** No two entries without a date follow each other in the listing. *)
Fixpoint spaced (l : list backup) : bool :=
  match l with
  | a :: r =>
      match r with
      | b :: _ => negb (undated a && undated b) && spaced r
      | [] => true
      end
  | [] => true
  end.

(** [a] is not more recent than [b] for the comparator. *)
Definition not_after (a b : backup) : Prop := is_positive (compareFn a b) = false.

(** Dated backups with time values [lo+1 .. lo+n], in listing order. *)
Definition dated_run (lo n : nat) : list backup :=
  map (fun k => mkBackup ("b" +++ show_nat k) (Some (mkDate (Num (Z.of_nat k)))) "fs")
      (seq (S lo) n).

Definition no_date (nm : string) : backup := mkBackup nm None "fs".

End Purge.


(* ================================================================== *)
(** ** file-management-utils.js: the dispatcher [files] *)

Module Files.

(** What [getFileConnectorInfo] hands over with the provider and the
    product: the access material, and for a shared bucket its name and the
    layout version. *)
Record Credentials : Type := mkCredentials {
  access : string;
  bucket : option jsval;         (* present iff ['bucket' in credentials] *)
  version : option Z
}.

Inductive connector : Type := gcsUtils | s3Utils.

Inductive route : Type :=
| Forward (c : connector)          (* return <connector>.<method>(...) *)
| Refuse (e : jserror).            (* return reject(new Error(...)) *)

Definition unsupported (method provider product : string) : jserror :=
  ErrError (method +++ " error: method does not currently support "
              +++ provider +++ "'s " +++ product).

(** The nested [switch] every method of [files] repeats.  [google_label]
    is the method name printed by the default of the google branch,
    [label] the one printed by the two other defaults. *)
Definition switch (google_label label provider product : string) : route :=
  if String.eqb provider "google" then
    if String.eqb product "storage" then Forward gcsUtils
    else Refuse (unsupported google_label provider product)
  else if String.eqb provider "amazon" then
    if String.eqb product "s3" then Forward s3Utils
    else Refuse (unsupported label provider product)
  else Refuse (unsupported label provider product).

Definition listFileVersions := switch "listFiles" "listFileVersions".
Definition listBackups := switch "listFiles" "listBackups".
Definition calculateDate := switch "calculateDate" "calculateDate".
Definition deleteObjectVersion := switch "deleteObjectVersion" "deleteObjectVersion".
Definition deleteAll := switch "deleteAll" "deleteAll".
Definition transferBackupFiles := switch "transferBackupFiles" "transferBackupFiles".

Inductive operation : Type :=
| OpListFileVersions | OpListBackups | OpCalculateDate
| OpDeleteObjectVersion | OpDeleteAll | OpTransferBackupFiles.

Definition dispatch (op : operation) : string -> string -> route :=
  match op with
  | OpListFileVersions => listFileVersions
  | OpListBackups => listBackups
  | OpCalculateDate => calculateDate
  | OpDeleteObjectVersion => deleteObjectVersion
  | OpDeleteAll => deleteAll
  | OpTransferBackupFiles => transferBackupFiles
  end.

(** The pairs that have a connector. *)
Definition supported (provider product : string) : Prop :=
  (provider = "google" /\ product = "storage")
  \/ (provider = "amazon" /\ product = "s3").

(** Credentials of a bucket of its own, and of a shared bucket. *)
Definition dedicated : Credentials :=
  {| access := "key"; bucket := None; version := None |}.

Definition shared : Credentials :=
  {| access := "key"; bucket := Some (JString "shared-bucket");
     version := Some 2%Z |}.

End Files.

(* ================================================================== *)
(** ** file-management-utils.js: the Amazon S3 connector *)

Module S3.
Import Files.

(** An entry of [Versions] or of [DeleteMarkers], as a listing returns
    it and as a backup manifest records it. *)
Record ObjectVersion : Type := mkVersion {
  Key : string;
  VersionId : string;
  IsLatest : bool
}.

(** [returnObject]: [{Versions: [...], DeleteMarkers: [...]}] *)
Record Listing : Type := mkListing {
  Versions : list ObjectVersion;
  DeleteMarkers : list ObjectVersion
}.

(** One page; [None] is a property the response does not have. *)
Record Response : Type := mkResponse {
  pageVersions : option (list ObjectVersion);
  pageDeleteMarkers : option (list ObjectVersion);
  IsTruncated : bool
}.

Record ListParams : Type := mkListParams {
  Bucket : string;
  Prefix : string;
  KeyMarker : option string
}.

Record DeleteParams : Type := mkDeleteParams {
  delBucket : string;
  delKey : string;
  delVersionId : string
}.

(** The commands the connector sends, for the record of a run. *)
Inductive command : Type :=
| ListObjectVersionsCommand (p : ListParams)
| DeleteObjectCommand (p : DeleteParams)
| DeleteBucketCommand (b : string).

(** [s3.send], as a state machine over the provider's world. *)
Record Client (World : Type) : Type := mkClient {
  sendList : World -> ListParams -> (jserror + Response) * World;
  sendDelete : World -> DeleteParams -> option jserror * World;
  sendDeleteBucket : World -> string -> option jserror * World
}.
Arguments sendList {World}.
Arguments sendDelete {World}.
Arguments sendDeleteBucket {World}.

(** [{bucketName, path, versionId, credentials}] *)
Record Task : Type := mkTask {
  bucketName : string;
  path : string;
  versionId : string;
  credentials : Credentials
}.

(** The object whose JSON text is pushed on [failedItems]. *)
Record FailedItem : Type := mkFailed {
  failedBucket : string;
  failedPath : string;
  failedVersion : string;
  failedError : jserror
}.

(** The two accumulators of [deleteAll] when the queue drains. *)
Record Counters : Type := mkCounters {
  itemsDeletedCount : nat;
  failedItems : list FailedItem
}.

(** A run of [deleteAll]: the commands sent, the accumulators at the drain
    ([None] when the queue was never built), the exception that escaped
    the drain callback, and the calls made to [resolve] and [reject]. *)
Record Run (World : Type) : Type := mkRun {
  sent : list command;
  counters : option Counters;
  thrown : option jserror;
  calls : list (settle string);
  world : World
}.
Arguments sent {World}.
Arguments counters {World}.
Arguments thrown {World}.
Arguments calls {World}.
Arguments world {World}.

Definition result {World} (r : Run World) : outcome string := settled (calls r).

Definition count_commands (f : command -> bool) (l : list command) : nat :=
  List.length (filter f l).

Definition is_bucket_deletion (c : command) : bool :=
  match c with DeleteBucketCommand _ => true | _ => false end.

Definition is_listing (c : command) : bool :=
  match c with ListObjectVersionsCommand _ => true | _ => false end.

(** [array.slice(-1)[0]] *)
Definition last_entry {A} (l : list A) : option A :=
  match rev l with [] => None | x :: _ => Some x end.

(** [failedItems.substring(0, 10)]: [failedItems] is an Array, and an
    Array has no [substring] method, so the call raises a TypeError. *)
Definition array_substring (a : list FailedItem) (i j : nat) : jserror + string :=
  inl (ErrType "failedItems.substring is not a function").

Definition deleted_message (n : nat) (b folder : string) : string :=
  "Deleted " +++ show_nat n +++ " objects from " +++ b +++ "/" +++ folder.

Section Connector.

Context {World : Type}.
Variable s3 : Client World.

(** Lines 728-758: the [while (truncated)] loop, [fuel] rounds of it. *)
Fixpoint list_pages (fuel : nat) (w : World) (bucketParams : ListParams)
    (returnObject : Listing) (log : list command)
  : outcome Listing * list command * World :=
  match fuel with
  | O => (Pending, log, w)
  | S n =>
      let '(answer, w') := sendList s3 w bucketParams in
      let log' := log ++ [ListObjectVersionsCommand bucketParams] in
      match answer with
      | inl err => (Rejected err, log', w')
      | inr response =>
          let returnObject' :=
            {| Versions :=
                 match pageVersions response with
                 | Some vs => Versions returnObject ++ vs
                 | None => Versions returnObject
                 end;
               DeleteMarkers :=
                 match pageDeleteMarkers response with
                 | Some ms => DeleteMarkers returnObject ++ ms
                 | None => DeleteMarkers returnObject
                 end |} in
          if IsTruncated response then
            match pageVersions response with
            | None =>
                (Rejected (ErrType
                   "Cannot read properties of undefined (reading 'slice')"),
                 log', w')
            | Some vs =>
                match last_entry vs with
                | None =>
                    (Rejected (ErrType
                       "Cannot read properties of undefined (reading 'Key')"),
                     log', w')
                | Some v =>
                    list_pages n w'
                      {| Bucket := Bucket bucketParams;
                         Prefix := Prefix bucketParams;
                         KeyMarker := Some (Key v) |}
                      returnObject' log'
                end
            end
          else (Resolved returnObject', log', w')
      end
  end.

(** Lines 721-725 *)
Definition list_params (bucketName folder : string) (credentials : Credentials)
  : ListParams :=
  match bucket credentials with
  | Some b =>
      {| Bucket := show_val b; Prefix := bucketName +++ "/" +++ folder;
         KeyMarker := None |}
  | None => {| Bucket := bucketName; Prefix := folder; KeyMarker := None |}
  end.

Definition listFileVersions (fuel : nat) (w : World)
    (bucketName folder : string) (credentials : Credentials)
  : outcome Listing * list command * World :=
  list_pages fuel w (list_params bucketName folder credentials)
    {| Versions := []; DeleteMarkers := [] |} [].

(** Lines 875-904 *)
Definition deleteObjectVersion (w : World) (bucketName filePath versionId : string)
    (credentials : Credentials) : outcome string * list command * World :=
  let send deleteParams :=
    let '(failure, w') := sendDelete s3 w deleteParams in
    (match failure with
     | None => Resolved ("Deleted " +++ delBucket deleteParams +++ "/"
                           +++ delKey deleteParams)
     | Some error => Rejected error
     end, [DeleteObjectCommand deleteParams], w') in
  match bucket credentials with
  | Some (JString b) =>
      if (0 <? String.length b)%nat then
        send {| delBucket := b; delKey := filePath; delVersionId := versionId |}
      else
        (Rejected (ErrMessage
           ("Invalid bucket credentials recieved while deleting object "
              +++ bucketName +++ "/" +++ filePath)), [], w)
  | Some _ =>
      (Rejected (ErrMessage
         ("Invalid bucket credentials recieved while deleting object "
            +++ bucketName +++ "/" +++ filePath)), [], w)
  | None =>
      send {| delBucket := bucketName; delKey := filePath;
              delVersionId := versionId |}
  end.

(** Lines 924-934: the queue worker on one task, and the queue on the
    tasks in the order [order] in which they are worked off. *)
Definition work (acc : Counters * list command * World) (task : Task)
  : Counters * list command * World :=
  let '(c, log, w) := acc in
  let '(r, log', w') :=
    deleteObjectVersion w (bucketName task) (path task) (versionId task)
      (credentials task) in
  match r with
  | Resolved _ =>
      ({| itemsDeletedCount := S (itemsDeletedCount c);
          failedItems := failedItems c |}, log ++ log', w')
  | Rejected error =>
      ({| itemsDeletedCount := itemsDeletedCount c;
          failedItems := failedItems c
            ++ [mkFailed (bucketName task) (path task) (versionId task) error] |},
       log ++ log', w')
  | Pending => (c, log ++ log', w')
  end.

Definition run_queue (order : list Task) (log : list command) (w : World)
  : Counters * list command * World :=
  fold_left work order ({| itemsDeletedCount := 0; failedItems := [] |}, log, w).

(** Lines 966-979: one task per version, then one per delete marker. *)
Definition tasks_of (bucketName : string) (credentials : Credentials)
    (files : Listing) : list Task :=
  map (fun curFile => mkTask bucketName (Key curFile) (VersionId curFile) credentials)
      (Versions files)
  ++ map (fun curDeleteMarker =>
            mkTask bucketName (Key curDeleteMarker) (VersionId curDeleteMarker)
              credentials)
         (DeleteMarkers files).

(** Lines 939-953: the part of the drain callback that runs later, when
    the second listing answers. *)
Definition relist (fuel : nat) (w : World) (bucketName folder : string)
    (credentials : Credentials) (c : Counters)
  : list (settle string) * list command * World :=
  let '(r, log, w1) := listFileVersions fuel w bucketName "" credentials in
  match r with
  | Resolved remainingFiles =>
      let remainingFileCount :=
        (List.length (Versions remainingFiles)
         + List.length (DeleteMarkers remainingFiles))%nat in
      if (remainingFileCount =? 0)%nat
         && match bucket credentials with None => true | Some _ => false end
      then
        let '(failure, w2) := sendDeleteBucket s3 w1 bucketName in
        (match failure with
         | None =>
             [Resolve (deleted_message (itemsDeletedCount c) bucketName folder
                         +++ " and deleted bucket successfully")]
         | Some error =>
             [Reject (ErrMessage
                (deleted_message (itemsDeletedCount c) bucketName folder
                   +++ ", but experienced error deleting bucket: "
                   +++ show_error error))]
         end, log ++ [DeleteBucketCommand bucketName], w2)
      else ([], log, w1)
  | Rejected error => ([Reject error], log, w1)
  | Pending => ([], log, w1)
  end.

(** Lines 955-962: the part of the drain callback that runs at once. *)
Definition report (bucketName folder : string) (c : Counters)
  : option jserror * list (settle string) :=
  if (List.length (failedItems c) =? 0)%nat then
    (None, [Resolve (deleted_message (itemsDeletedCount c) bucketName folder)])
  else
    match array_substring (failedItems c) 0 10 with
    | inl exception => (Some exception, [])
    | inr text =>
        (None,
         [Reject (ErrAggregate
            (deleted_message (itemsDeletedCount c) bucketName folder
               +++ ", and failed to delete: " +++ text)
            (map (fun f => (failedBucket f, failedPath f, failedVersion f,
                            show_error (failedError f)))
                 (failedItems c)))])
    end.

(** Lines 913-994.  [order] is the order in which the queue works the
    submitted tasks off. *)
Definition deleteAll (order : list Task -> list Task) (fuel : nat) (w : World)
    (bucketName folder : string) (credentials : Credentials) : Run World :=
  let '(listed, log0, w0) := listFileVersions fuel w bucketName folder credentials in
  match listed with
  | Resolved files =>
      let items := tasks_of bucketName credentials files in
      let '(c, log1, w1) := run_queue (order items) log0 w0 in
      let '(later, log2, w2) :=
        if String.eqb folder "" then relist fuel w1 bucketName folder credentials c
        else ([], [], w1) in
      let '(exception, now) := report bucketName folder c in
      {| sent := log1 ++ log2; counters := Some c; thrown := exception;
         calls := now ++ later; world := w2 |}
  | Rejected error =>
      {| sent := log0; counters := None; thrown := None;
         calls := [Reject error]; world := w0 |}
  | Pending =>
      {| sent := log0; counters := None; thrown := None; calls := [];
         world := w0 |}
  end.

End Connector.

(** Lines 830-865.  The list holds the calls to [resolve] and [reject] in
    the order they are made: after the [reject] of the length test the
    function goes on, builds an invalid date from three undefined fields
    and rejects once more from the handler. *)
Definition calculateDate (backupName : string) : list (settle Date) :=
  let len := String.length backupName in
  let '(year, month, day, early) :=
    if (len =? 14)%nat then
      (JString (slice 4 8 backupName),
       JNumber (pred_num (parseInt (slice 0 2 backupName))),
       JString (slice 2 4 backupName), [])
    else if (len =? 35)%nat then
      (JString (slice 0 4 backupName),
       JNumber (pred_num (parseInt (slice 4 6 backupName))),
       JString (slice 6 8 backupName), [])
    else
      (JUndefined, JUndefined, JUndefined,
       [Reject (ErrMessage
          ("calculateDate Error: Invalid backup name length for backup "
             +++ backupName))]) in
  let date := new_Date (ToNumber year) (ToNumber month) (ToNumber day) in
  early ++ (if invalid_date date then [Reject (ErrError "Invalid date")]
            else [Resolve date]).

(** [filesObject]: the [Versions] of its [public] and [private] parts. *)
Record Manifest : Type := mkManifest {
  public : list ObjectVersion;
  private : list ObjectVersion
}.

(** [{CopySource, Bucket, Key}] *)
Record CopyCommand : Type := mkCopy {
  CopySource : string;
  copyBucket : string;
  copyKey : string
}.

(** [credentials.version && credentials.version >= 2] *)
Definition shared_layout (c : Credentials) : bool :=
  match version c with
  | Some v => (negb (v =? 0) && (2 <=? v))%Z
  | None => false
  end.

(** [credentials.bucket] in a concatenation *)
Definition bucket_text (c : Credentials) : string :=
  match bucket c with Some b => show_val b | None => "undefined" end.

(** Lines 1050-1070 *)
Definition copy_parameters (sourceInstallationId : string)
    (sourceCredentials : Credentials) (destinationInstallationId : string)
    (destinationCredentials : Credentials) (currentObject : ObjectVersion)
  : CopyCommand :=
  {| CopySource :=
       if shared_layout sourceCredentials then
         bucket_text sourceCredentials +++ "/" +++ sourceInstallationId +++ "/"
           +++ Key currentObject +++ "?versionId=" +++ VersionId currentObject
       else
         sourceInstallationId +++ "/" +++ Key currentObject +++ "?versionId="
           +++ VersionId currentObject;
     copyBucket :=
       if shared_layout destinationCredentials
       then bucket_text destinationCredentials
       else destinationInstallationId;
     copyKey :=
       if shared_layout destinationCredentials
       then destinationInstallationId +++ "/" +++ Key currentObject
       else Key currentObject |}.

(** Lines 1043-1076: the loop that fills [copyCommands]. *)
Fixpoint copy_loop (sourceInstallationId : string)
    (sourceCredentials : Credentials) (destinationInstallationId : string)
    (destinationCredentials : Credentials) (allObjects : list ObjectVersion)
  : list CopyCommand :=
  match allObjects with
  | [] => []
  | currentObject :: rest =>
      if negb (IsLatest currentObject) then
        copy_loop sourceInstallationId sourceCredentials
          destinationInstallationId destinationCredentials rest
      else
        copy_parameters sourceInstallationId sourceCredentials
          destinationInstallationId destinationCredentials currentObject
        :: copy_loop sourceInstallationId sourceCredentials
             destinationInstallationId destinationCredentials rest
  end.

(** Lines 1005-1085: the commands pushed on the queue; the queue sends
    each of them once, logs a failed copy, and resolves at the drain. *)
Definition transferBackupFiles (sourceInstallationId : string)
    (sourceCredentials : Credentials) (destinationInstallationId : string)
    (destinationCredentials : Credentials) (filesObject : Manifest)
  : list CopyCommand :=
  copy_loop sourceInstallationId sourceCredentials destinationInstallationId
    destinationCredentials (public filesObject ++ private filesObject).

(** *** Providers to run the connector on *)

Definition names (p : DeleteParams) (o : ObjectVersion) : bool :=
  String.eqb (delKey p) (Key o) && String.eqb (delVersionId p) (VersionId o).

(** A bucket known by the versions it holds: a listing returns them in
    one page, a deletion removes the version it names. *)
Definition store : Client (list ObjectVersion) :=
  {| sendList := fun w _ =>
       (inr {| pageVersions := Some w; pageDeleteMarkers := None;
               IsTruncated := false |}, w);
     sendDelete := fun w p => (None, filter (fun o => negb (names p o)) w);
     sendDeleteBucket := fun w _ => (None, w) |}.

(** The same bucket when the provider denies every deletion. *)
Definition denying : Client (list ObjectVersion) :=
  {| sendList := sendList store;
     sendDelete := fun w _ => (Some (ErrProvider "AccessDenied"), w);
     sendDeleteBucket := fun w _ => (Some (ErrProvider "BucketNotEmpty"), w) |}.

(** Two versions of one object of a backup. *)
(** The same bucket when version [v1] is under a legal hold: its
    deletion is denied, every other one is carried out. *)
Definition held : Client (list ObjectVersion) :=
  {| sendList := sendList store;
     sendDelete := fun w p =>
       if String.eqb (delVersionId p) "v1"
       then (Some (ErrProvider "AccessDenied"), w)
       else sendDelete store w p;
     sendDeleteBucket := sendDeleteBucket store |}.

(** The same bucket when the answers to the deletions are lost: each
    deletion is carried out, and the client gets a timeout error. *)
Definition unanswered : Client (list ObjectVersion) :=
  {| sendList := sendList store;
     sendDelete := fun w p =>
       (Some (ErrProvider "RequestTimeout"), snd (sendDelete store w p));
     sendDeleteBucket := sendDeleteBucket store |}.

Definition sample : list ObjectVersion :=
  [mkVersion "backups/b1/data" "v2" true; mkVersion "backups/b1/data" "v1" false].

(** A provider that answers the successive listings with given pages. *)
Definition paged : Client (list Response) :=
  {| sendList := fun w _ =>
       match w with
       | page :: rest => (inr page, rest)
       | [] => (inl (ErrProvider "NoSuchPage"), [])
       end;
     sendDelete := fun w _ => (None, w);
     sendDeleteBucket := fun w _ => (None, w) |}.

(** The vocabulary of the statements about paginated listings. *)
Definition versions_of (page : Response) : list ObjectVersion :=
  match pageVersions page with Some vs => vs | None => [] end.

Definition markers_of (page : Response) : list ObjectVersion :=
  match pageDeleteMarkers page with Some ms => ms | None => [] end.

(** A page that announces a next one and holds a version to name it by. *)
Definition continues (page : Response) : bool :=
  IsTruncated page
  && match last_entry (versions_of page) with Some _ => true | None => false end.

(** The cursor the loop takes from a page. *)
Definition cursor (page : Response) : option string :=
  option_map Key (last_entry (versions_of page)).

(** Pages that can be drained: each but the last continues, and the last
    announces no further page. *)
Fixpoint drainable (pages : list Response) : bool :=
  match pages with
  | [] => false
  | page :: rest =>
      match rest with
      | [] => negb (IsTruncated page)
      | _ :: _ => continues page && drainable rest
      end
  end.

(** The requests that fetch such pages: the first with the parameters
    [p], each next one with the cursor of the page before. *)
Fixpoint requests (p : ListParams) (pages : list Response) : list command :=
  match pages with
  | [] => []
  | page :: rest =>
      ListObjectVersionsCommand p
      :: requests {| Bucket := Bucket p; Prefix := Prefix p;
                     KeyMarker := cursor page |} rest
  end.

(** A first page of delete markers only that announces a second page. *)
Definition markers_first : list Response :=
  [ {| pageVersions := None;
       pageDeleteMarkers := Some [mkVersion "backups/b1/data" "v3" true];
       IsTruncated := true |};
    {| pageVersions := Some [mkVersion "backups/b2/data" "v1" true];
       pageDeleteMarkers := None;
       IsTruncated := false |} ].

End S3.

(* ================================================================== *)
(** ** file-management-utils.js: the Google Cloud Storage connector *)

Module GCS.
Import Files.

(** A file of a listing or of a backup manifest. *)
Record File : Type := mkFile {
  name : string;
  generation : Z
}.

Inductive command : Type :=
| BucketExists (b : string)
| GetFiles (b prefix : string)
| FileDelete (b filePath : string) (generation : Z)
| BucketDelete (b : string).

(** The client library, as a state machine over the provider's world.
    [bucketExists] answers the callback [(error, exists)]. *)
Record Client (World : Type) : Type := mkClient {
  bucketExists : World -> string -> (jserror + bool) * World;
  getFiles : World -> string -> string -> (jserror + list File) * World;
  fileDelete : World -> string -> string -> Z -> option jserror * World;
  bucketDelete : World -> string -> option jserror * World
}.
Arguments bucketExists {World}.
Arguments getFiles {World}.
Arguments fileDelete {World}.
Arguments bucketDelete {World}.

Record Task : Type := mkTask {
  bucketName : string;
  path : string;
  versionId : Z;
  credentials : Credentials
}.

Record FailedItem : Type := mkFailed {
  failedBucket : string;
  failedPath : string;
  failedVersion : Z;
  failedError : jserror
}.

Record Counters : Type := mkCounters {
  itemsDeletedCount : nat;
  failedItems : list FailedItem
}.

Record Run (World : Type) : Type := mkRun {
  sent : list command;
  counters : option Counters;
  thrown : option jserror;
  calls : list (settle string);
  world : World
}.
Arguments sent {World}.
Arguments counters {World}.
Arguments thrown {World}.
Arguments calls {World}.
Arguments world {World}.

Definition result {World} (r : Run World) : outcome string := settled (calls r).

Definition is_bucket_deletion (c : command) : bool :=
  match c with BucketDelete _ => true | _ => false end.

Definition count_commands (f : command -> bool) (l : list command) : nat :=
  List.length (filter f l).

(** [failedItems.substring(0, 10)] on an Array: a TypeError. *)
Definition array_substring (a : list FailedItem) (i j : nat) : jserror + string :=
  inl (ErrType "failedItems.substring is not a function").

Definition deleted_message (n : nat) (b folder : string) : string :=
  "Deleted " +++ show_nat n +++ " objects from " +++ b +++ "/" +++ folder.

Section Connector.

Context {World : Type}.
Variable gcs : Client World.

(** Lines 371-402 *)
Definition listFileVersions (w : World) (installationId folder : string)
    (credentials : Credentials) : outcome (list File) * list command * World :=
  let '(answer, w1) := bucketExists gcs w installationId in
  match answer with
  | inr true =>
      let '(files, w2) := getFiles gcs w1 installationId folder in
      (match files with
       | inr results => Resolved results
       | inl error =>
           Rejected (ErrError ("listFileVersions Error: " +++ show_error error))
       end, [BucketExists installationId; GetFiles installationId folder], w2)
  | inr false =>
      (Rejected (ErrError "listFileVersions Error: Bucket not found!"),
       [BucketExists installationId], w1)
  | inl error => (Rejected error, [BucketExists installationId], w1)
  end.

(** Lines 495-520 *)
Definition deleteObjectVersion (w : World) (bucketName filePath : string)
    (versionId : Z) (credentials : Credentials)
  : outcome string * list command * World :=
  let '(answer, w1) := bucketExists gcs w bucketName in
  match answer with
  | inr true =>
      let '(failure, w2) := fileDelete gcs w1 bucketName filePath versionId in
      (match failure with
       | None => Resolved ("Deleted " +++ bucketName +++ "/" +++ filePath)
       | Some error => Rejected error
       end, [BucketExists bucketName; FileDelete bucketName filePath versionId],
       w2)
  | inr false =>
      (Rejected (ErrError "deleteObjectVersion Error: Bucket not found!"),
       [BucketExists bucketName], w1)
  | inl error => (Rejected error, [BucketExists bucketName], w1)
  end.

(** Lines 544-554: the queue worker on one task.  The queue starts up to
    100 tasks at once, and a task here is two calls (the test of the
    bucket, then the deletion), so the calls of different tasks can
    interleave; [run_queue] below works the tasks off one after the other,
    which keeps the calls of a task together.  It gives which calls are
    made and what the counters end with, not the order of the calls of
    different tasks in [sent]. *)
Definition work (acc : Counters * list command * World) (task : Task)
  : Counters * list command * World :=
  let '(c, log, w) := acc in
  let '(r, log', w') :=
    deleteObjectVersion w (bucketName task) (path task) (versionId task)
      (credentials task) in
  match r with
  | Resolved _ =>
      ({| itemsDeletedCount := S (itemsDeletedCount c);
          failedItems := failedItems c |}, log ++ log', w')
  | Rejected error =>
      ({| itemsDeletedCount := itemsDeletedCount c;
          failedItems := failedItems c
            ++ [mkFailed (bucketName task) (path task) (versionId task) error] |},
       log ++ log', w')
  | Pending => (c, log ++ log', w')
  end.

Definition run_queue (order : list Task) (log : list command) (w : World)
  : Counters * list command * World :=
  fold_left work order ({| itemsDeletedCount := 0; failedItems := [] |}, log, w).

(** Lines 583-588 *)
Definition tasks_of (bucketName : string) (credentials : Credentials)
    (files : list File) : list Task :=
  map (fun curFile => mkTask bucketName (name curFile) (generation curFile)
                        credentials) files.

(** Lines 559-570: the later part of the drain callback.  The second
    listing has no rejection handler. *)
Definition relist (w : World) (bucketName folder : string)
    (credentials : Credentials) (c : Counters)
  : list (settle string) * list command * World :=
  let '(r, log, w1) := listFileVersions w bucketName "" credentials in
  match r with
  | Resolved remainingFiles =>
      if (List.length remainingFiles =? 0)%nat then
        let '(failure, w2) := bucketDelete gcs w1 bucketName in
        (match failure with
         | None =>
             [Resolve (deleted_message (itemsDeletedCount c) bucketName folder
                         +++ " and deleted bucket successfully")]
         | Some error =>
             [Reject (ErrMessage
                (deleted_message (itemsDeletedCount c) bucketName folder
                   +++ ", but experienced error deleting bucket: "
                   +++ show_error error))]
         end, log ++ [BucketDelete bucketName], w2)
      else ([], log, w1)
  | _ => ([], log, w1)
  end.

(** Lines 572-579 *)
Definition report (bucketName folder : string) (c : Counters)
  : option jserror * list (settle string) :=
  if (List.length (failedItems c) =? 0)%nat then
    (None, [Resolve (deleted_message (itemsDeletedCount c) bucketName folder)])
  else
    match array_substring (failedItems c) 0 10 with
    | inl exception => (Some exception, [])
    | inr text =>
        (None,
         [Reject (ErrAggregate
            (deleted_message (itemsDeletedCount c) bucketName folder
               +++ ", and failed to delete: " +++ text)
            (map (fun f => (failedBucket f, failedPath f,
                            show_val (JNumber (Num (failedVersion f))),
                            show_error (failedError f)))
                 (failedItems c)))])
    end.

(** Lines 529-600 *)
Definition deleteAll (order : list Task -> list Task) (w : World)
    (bucketName folder : string) (credentials : Credentials) : Run World :=
  let '(listed, log0, w0) := listFileVersions w bucketName folder credentials in
  match listed with
  | Resolved files =>
      let items := tasks_of bucketName credentials files in
      let '(c, log1, w1) := run_queue (order items) log0 w0 in
      let '(later, log2, w2) :=
        if String.eqb folder "" then relist w1 bucketName folder credentials c
        else ([], [], w1) in
      let '(exception, now) := report bucketName folder c in
      {| sent := log1 ++ log2; counters := Some c; thrown := exception;
         calls := now ++ later; world := w2 |}
  | Rejected error =>
      {| sent := log0; counters := None; thrown := None;
         calls := [Reject error]; world := w0 |}
  | Pending =>
      {| sent := log0; counters := None; thrown := None; calls := [];
         world := w0 |}
  end.

End Connector.

(** *** The transfer of a backup *)

(** The names every object inherits from [Object.prototype]: the [in]
    operator finds them in the empty object literal. *)
Definition object_prototype : list string :=
  ["constructor"; "__defineGetter__"; "__defineSetter__"; "hasOwnProperty";
   "__lookupGetter__"; "__lookupSetter__"; "isPrototypeOf";
   "propertyIsEnumerable"; "toString"; "valueOf"; "__proto__";
   "toLocaleString"].

Definition inherited (key : string) : bool :=
  existsb (String.eqb key) object_prototype.

(** [compareObject]: its own properties, in the order they were added. *)
Definition object : Type := list (string * Z).

Fixpoint own (o : object) (key : string) : option Z :=
  match o with
  | [] => None
  | (k, v) :: r => if String.eqb k key then Some v else own r key
  end.

Fixpoint assign (o : object) (key : string) (v : Z) : object :=
  match o with
  | [] => [(key, v)]
  | (k, x) :: r => if String.eqb k key then (k, v) :: r else (k, x) :: assign r key v
  end.

(** Lines 664-676, one round of the loop.  For an inherited name
    [filePath in compareObject] holds and [compareObject[filePath]] is a
    function or an object; its comparison with a number is false, and
    nothing is stored. *)
Definition compare_step (compareObject : object) (currentObject : File) : object :=
  let filePath := name currentObject in
  let versionId := generation currentObject in
  match own compareObject filePath with
  | Some current =>
      if (current <? versionId)%Z then assign compareObject filePath versionId
      else compareObject
  | None =>
      if inherited filePath then compareObject
      else assign compareObject filePath versionId
  end.

Record Manifest : Type := mkManifest {
  public : list File;
  private : list File
}.

(** [{filePath, versionId}] *)
Record CopyCommand : Type := mkCopy {
  filePath : string;
  copyVersionId : Z
}.

(** Lines 659-688: the commands pushed on the queue, one for each own key
    of [compareObject].  ([Object.keys] puts the keys that are array
    indices first; the order of the commands plays no part below.) *)
Definition copy_commands (filesObject : Manifest) : list CopyCommand :=
  map (fun kv => mkCopy (fst kv) (snd kv))
      (fold_left compare_step (public filesObject ++ private filesObject) []).

Record Transfer (World : Type) : Type := mkTransfer {
  copyCommands : list CopyCommand;
  transferCalls : list (settle unit);
  transferWorld : World
}.
Arguments copyCommands {World}.
Arguments transferCalls {World}.
Arguments transferWorld {World}.

(** Lines 611-698.  The queue copies every pushed command once, logs a
    failed copy, and resolves at the drain. *)
Definition transferBackupFiles {World} (gcs : Client World) (w : World)
    (sourceInstallationId : string) (sourceCredentials : Credentials)
    (destinationInstallationId : string) (filesObject : Manifest)
  : Transfer World :=
  let '(source, w1) := bucketExists gcs w sourceInstallationId in
  match source with
  | inl error =>
      mkTransfer World []
        [Reject (ErrMessage ("Error finding source bucket: " +++ show_error error))]
        w1
  | inr false =>
      mkTransfer World []
        [Reject (ErrMessage ("Bucket " +++ sourceInstallationId
                               +++ " does not exist"))] w1
  | inr true =>
      let '(destination, w2) := bucketExists gcs w1 destinationInstallationId in
      match destination with
      | inl error =>
          mkTransfer World []
            [Reject (ErrMessage ("Error finding destination bucket: "
                                   +++ show_error error))] w2
      | inr false =>
          mkTransfer World []
            [Reject (ErrMessage ("Bucket " +++ destinationInstallationId
                                   +++ " does not exist"))] w2
      | inr true => mkTransfer World (copy_commands filesObject) [Resolve tt] w2
      end
  end.

(** *** Providers to run the connector on *)

(** A bucket known by the files it holds. *)
Definition store : Client (list File) :=
  {| bucketExists := fun w _ => (inr true, w);
     getFiles := fun w _ _ => (inr w, w);
     fileDelete := fun w _ p g =>
       (None,
        filter (fun f => negb (String.eqb p (name f) && (g =? generation f)%Z)) w);
     bucketDelete := fun w _ => (None, w) |}.

(** The same bucket when the provider denies every deletion. *)
Definition denying : Client (list File) :=
  {| bucketExists := bucketExists store;
     getFiles := getFiles store;
     fileDelete := fun w _ _ _ => (Some (ErrProvider "forbidden"), w);
     bucketDelete := fun w _ => (Some (ErrProvider "conflict"), w) |}.

(** The same bucket when the answers to the deletions are lost: each
    deletion is carried out, and the client gets a timeout error. *)
Definition unanswered : Client (list File) :=
  {| bucketExists := bucketExists store;
     getFiles := getFiles store;
     fileDelete := fun w b p g =>
       (Some (ErrProvider "ETIMEDOUT"), snd (fileDelete store w b p g));
     bucketDelete := bucketDelete store |}.

(** Two generations of one object of a backup. *)
Definition sample : list File :=
  [mkFile "backups/b1/data" 2; mkFile "backups/b1/data" 1].

(** The highest generation among the files of a list named [key]. *)
Fixpoint highest (files : list File) (key : string) : option Z :=
  match files with
  | [] => None
  | f :: r =>
      if String.eqb (name f) key then
        match highest r key with
        | Some v => Some (Z.max (generation f) v)
        | None => Some (generation f)
        end
      else highest r key
  end.

End GCS.

(* ================================================================== *)
(** ** String methods used by the listings of backups *)

Module Text.

(** [s.split(sep)] for a separator of one character: never empty. *)
Fixpoint split (sep : ascii) (s : string) : list string :=
  match s with
  | EmptyString => [EmptyString]
  | String c r =>
      if Ascii.eqb c sep then EmptyString :: split sep r
      else
        match split sep r with
        | h :: t => String c h :: t
        | [] => [String c EmptyString]
        end
  end.

(** [s.slice(n)] *)
Fixpoint skip (n : nat) (s : string) : string :=
  match n, s with
  | O, _ => s
  | S k, String _ r => skip k r
  | S _, EmptyString => EmptyString
  end.

(** [s.replace(pattern, replacement)] for a pattern that is a string: the
    first occurrence only. *)
Fixpoint replace (pattern replacement s : string) : string :=
  if String.prefix pattern s then
    replacement +++ skip (String.length pattern) s
  else
    match s with
    | EmptyString => EmptyString
    | String c r => String c (replace pattern replacement r)
    end.

(** The character [c] does not occur in [s]. *)
Fixpoint free_of (c : ascii) (s : string) : bool :=
  match s with
  | EmptyString => true
  | String x r => negb (Ascii.eqb x c) && free_of c r
  end.

(** [array.includes(s)] *)
Definition includes (l : list string) (s : string) : bool :=
  existsb (String.eqb s) l.

End Text.

(* ================================================================== *)
(** ** The Google Cloud Storage connector: backups and their dates *)

Module GcsBackups.
Import Files GCS Text.

(** Lines 430-432: the name of the backup a file belongs to. *)
Definition backup_name (file : File) : string :=
  hd EmptyString (split "/" (replace "backups/" "" (name file))).

(** Lines 429-438, one round of [files.forEach]. *)
Definition record (buckets : list string) (file : File) : list string :=
  let filteredName := backup_name file in
  if negb (String.eqb filteredName "") && negb (includes buckets filteredName)
  then buckets ++ [filteredName]
  else buckets.

(** Lines 410-454.  The files are asked for with the prefix [backups/]
    and without the option [versions]. *)
Definition listBackups {World} (gcs : Client World) (w : World)
    (installationId : string) (credentials : Credentials)
  : outcome (list string) * list command * World :=
  let '(answer, w1) := bucketExists gcs w installationId in
  match answer with
  | inr true =>
      let '(files, w2) := getFiles gcs w1 installationId "backups/" in
      (match files with
       | inr found => Resolved (fold_left record found [])
       | inl error =>
           Rejected (ErrError ("listBackups Error: " +++ show_error error))
       end, [BucketExists installationId; GetFiles installationId "backups/"], w2)
  | inr false =>
      (Rejected (ErrError "listBackups Error: Bucket not found!"),
       [BucketExists installationId], w1)
  | inl error => (Rejected error, [BucketExists installationId], w1)
  end.

(** An element of an array that may be missing, as a value. *)
Definition element (l : list string) (i : nat) : jsval :=
  match nth_error l i with Some s => JString s | None => JUndefined end.

(** Lines 462-485.  [dividedName[4].split('_')] raises a TypeError when
    the name has fewer than five parts; the handler rejects with it. *)
Definition calculateDate (backupName : string) : list (settle Date) :=
  let dividedName := split "-" backupName in
  let year := element dividedName 2 in
  let month := pred_num (ToNumber (element dividedName 3)) in
  match nth_error dividedName 4 with
  | None =>
      [Reject (ErrType "Cannot read properties of undefined (reading 'split')")]
  | Some part =>
      let day := hd EmptyString (split "_" part) in
      let date := new_Date (ToNumber year) month (ToNumber (JString day)) in
      if invalid_date date then [Reject (ErrError "Invalid date")]
      else [Resolve date]
  end.

(** A provider on which no bucket exists. *)
Definition nowhere : Client unit :=
  {| bucketExists := fun w _ => (inr false, w);
     getFiles := fun w _ _ => (inr [], w);
     fileDelete := fun w _ _ _ => (None, w);
     bucketDelete := fun w _ => (None, w) |}.

End GcsBackups.

(* ================================================================== *)
(** ** The Amazon S3 connector: backups *)

Module S3Backups.
Import Files Text.

(** An entry of [CommonPrefixes]; [Key] is read from it for the cursor
    and is [None] when the entry has no such property. *)
Record CommonPrefix : Type := mkCommonPrefix {
  Prefix : string;
  Key : option string
}.

Record Response : Type := mkResponse {
  CommonPrefixes : option (list CommonPrefix);
  IsTruncated : bool
}.

Record Params : Type := mkParams {
  Bucket : string;
  listPrefix : string;
  Delimiter : string;
  KeyMarker : option string
}.

(** Lines 794-797 *)
Definition splitIndex (credentials : Credentials) : nat :=
  match bucket credentials with Some _ => 2 | None => 1 end.

(** Lines 798-801: the names pushed for a page; [None] is [undefined],
    for a prefix with too few parts. *)
Definition names_of (credentials : Credentials) (prefixes : list CommonPrefix)
  : list (option string) :=
  map (fun curItem => nth_error (split "/" (Prefix curItem)) (splitIndex credentials))
      prefixes.

(** Lines 779-783 *)
Definition list_params (bucketName : string) (credentials : Credentials) : Params :=
  match bucket credentials with
  | Some b =>
      {| Bucket := show_val b; listPrefix := bucketName +++ "/backups/";
         Delimiter := "/"; KeyMarker := None |}
  | None =>
      {| Bucket := bucketName; listPrefix := "backups/"; Delimiter := "/";
         KeyMarker := None |}
  end.

Section Connector.

Context {World : Type}.
Variable send : World -> Params -> (jserror + Response) * World.

(** Lines 786-817: the [while (truncated)] loop, [fuel] rounds of it,
    with the requests it sends. *)
Fixpoint list_pages (fuel : nat) (w : World) (credentials : Credentials)
    (bucketParams : Params) (backupsArray : list (option string))
    (log : list Params)
  : outcome (list (option string)) * list Params * World :=
  match fuel with
  | O => (Pending, log, w)
  | S n =>
      let '(answer, w') := send w bucketParams in
      let log' := log ++ [bucketParams] in
      match answer with
      | inl err => (Rejected err, log', w')
      | inr response =>
          let backupsArray' :=
            match CommonPrefixes response with
            | Some prefixes => backupsArray ++ names_of credentials prefixes
            | None => backupsArray
            end in
          if IsTruncated response then
            match CommonPrefixes response with
            | None =>
                (Rejected (ErrType
                   "Cannot read properties of undefined (reading 'slice')"),
                 log', w')
            | Some prefixes =>
                match S3.last_entry prefixes with
                | None =>
                    (Rejected (ErrType
                       "Cannot read properties of undefined (reading 'Key')"),
                     log', w')
                | Some last =>
                    list_pages n w' credentials
                      {| Bucket := Bucket bucketParams;
                         listPrefix := listPrefix bucketParams;
                         Delimiter := Delimiter bucketParams;
                         KeyMarker := Key last |}
                      backupsArray' log'
                end
            end
          else (Resolved backupsArray', log', w')
      end
  end.

(** Lines 769-822 *)
Definition listBackups (fuel : nat) (w : World) (bucketName : string)
    (credentials : Credentials)
  : outcome (list (option string)) * list Params * World :=
  list_pages fuel w credentials (list_params bucketName credentials) [] [].

End Connector.

(** A provider that answers the successive requests with given pages. *)
Definition paged (w : list Response) (_ : Params)
  : (jserror + Response) * list Response :=
  match w with
  | page :: rest => (inr page, rest)
  | [] => (inl (ErrProvider "NoSuchPage"), [])
  end.

(** A provider without memory: the answer depends on the request only. *)
Definition stateless (answer : Params -> jserror + Response) (w : unit)
    (p : Params) : (jserror + Response) * unit :=
  (answer p, w).

Definition prefixes_of (page : Response) : list CommonPrefix :=
  match CommonPrefixes page with Some l => l | None => [] end.

(** A page that announces a next one and has an entry to take a cursor
    from. *)
Definition continues (page : Response) : bool :=
  IsTruncated page
  && match S3.last_entry (prefixes_of page) with Some _ => true | None => false end.

Definition cursor (page : Response) : option string :=
  match S3.last_entry (prefixes_of page) with
  | Some last => Key last
  | None => None
  end.

Fixpoint drainable (pages : list Response) : bool :=
  match pages with
  | [] => false
  | page :: rest =>
      match rest with
      | [] => negb (IsTruncated page)
      | _ :: _ => continues page && drainable rest
      end
  end.

Fixpoint requests (p : Params) (pages : list Response) : list Params :=
  match pages with
  | [] => []
  | page :: rest =>
      p :: requests {| Bucket := Bucket p; listPrefix := listPrefix p;
                       Delimiter := Delimiter p; KeyMarker := cursor page |} rest
  end.

End S3Backups.

(* ================================================================== *)
(** ** The Amazon S3 connector: configuration of a bucket, with retries *)

Module S3Buckets.

(** The three commands the helpers send. *)
Inductive command : Type :=
| PutBucketTaggingCommand (bucket : string) (tags : list (string * string))
| PutBucketEncryptionCommand (bucket : string) (SSEAlgorithm : string)
| PutBucketVersioningCommand (bucket : string) (Status : string).

(** A wait before a new attempt: [Math.pow(2, retries)] milliseconds, to
    which a random amount between -3 and 3 is added when [jitter] holds. *)
Record wait : Type := mkWait {
  base : nat;
  jitter : bool
}.

Record Run (World : Type) : Type := mkRun {
  sends : list command;
  waits : list wait;
  result : outcome unit;
  world : World
}.
Arguments sends {World}.
Arguments waits {World}.
Arguments result {World}.
Arguments world {World}.

Section Client.

Context {World : Type}.
Variable send : World -> command -> option jserror * World.

(** The body the three helpers share, from [retries] on: at most [fuel]
    attempts of it. *)
Fixpoint attempt (fuel : nat) (cmd : command) (retries : nat) (w : World)
    (sent : list command) (waited : list wait) : Run World :=
  match fuel with
  | O => {| sends := sent; waits := waited; result := Pending; world := w |}
  | S n =>
      let '(failure, w') := send w cmd in
      match failure with
      | None =>
          {| sends := sent ++ [cmd]; waits := waited; result := Resolved tt;
             world := w' |}
      | Some error =>
          if (retries <? 5)%nat then
            attempt n cmd (S retries) w' (sent ++ [cmd])
              (waited ++ [{| base := 2 ^ retries; jitter := (1 <? retries)%nat |}])
          else
            {| sends := sent ++ [cmd]; waits := waited; result := Rejected error;
               world := w' |}
      end
  end.

(** [retries = retries || 0] *)
Definition or_zero (retries : option nat) : nat :=
  match retries with Some n => n | None => 0 end.

(** Lines 1121-1148 *)
Definition putBucketTags (fuel : nat) (w : World) (bucket : string)
    (tags : list (string * string)) (retries : option nat) : Run World :=
  attempt fuel (PutBucketTaggingCommand bucket tags) (or_zero retries) w [] [].

(** Lines 1157-1185 *)
Definition putBucketEncryption (fuel : nat) (w : World) (bucket : string)
    (retries : option nat) : Run World :=
  attempt fuel (PutBucketEncryptionCommand bucket "AES256") (or_zero retries) w [] [].

(** Lines 1194-1219 *)
Definition putBucketVersioning (fuel : nat) (w : World) (bucket : string)
    (retries : option nat) : Run World :=
  attempt fuel (PutBucketVersioningCommand bucket "Enabled") (or_zero retries) w [] [].

End Client.

(** The shape of a finished run that started with [retries] retries
    behind it: [k] failed attempts, each followed by its wait, then a last
    attempt; a run is only rejected when no retry is left. *)
Definition retried {World} (cmd : command) (retries : nat) (run : Run World)
  : Prop :=
  exists k,
    (k <= 5 - retries)%nat
    /\ sends run = repeat cmd (S k)
    /\ waits run
       = map (fun i => {| base := 2 ^ i; jitter := (1 <? i)%nat |}) (seq retries k)
    /\ result run <> Pending
    /\ forall e, result run = Rejected e -> k = (5 - retries)%nat.

(** The world after [k] sends of [cmd] from [w], and the answer of the
    provider to the send number [k], counted from 0. *)
Fixpoint after {World} (send : World -> command -> option jserror * World)
    (cmd : command) (k : nat) (w : World) : World :=
  match k with
  | O => w
  | S k' => after send cmd k' (snd (send w cmd))
  end.

Definition reply {World} (send : World -> command -> option jserror * World)
    (cmd : command) (k : nat) (w : World) : option jserror :=
  fst (send (after send cmd k w) cmd).

(** The run that the answers of the provider fix, for a helper that
    started with [retries] retries behind it: when the sends before the
    number [k] have failed and retries were left for each of them, a
    success of the send number [k] ends the run resolved, and its failure
    with no retry left ends the run rejected with the error of that
    answer. *)
Definition answered {World} (send : World -> command -> option jserror * World)
    (cmd : command) (retries : nat) (w : World) (run : Run World) : Prop :=
  forall k,
    (k <= 5 - retries)%nat ->
    (forall i, (i < k)%nat -> reply send cmd i w <> None) ->
    (reply send cmd k w = None ->
     run = {| sends := repeat cmd (S k);
              waits := map (fun i => {| base := 2 ^ i; jitter := (1 <? i)%nat |})
                           (seq retries k);
              result := Resolved tt;
              world := after send cmd (S k) w |})
    /\ (forall e,
          reply send cmd k w = Some e -> k = (5 - retries)%nat ->
          run = {| sends := repeat cmd (S k);
                   waits := map (fun i => {| base := 2 ^ i;
                                             jitter := (1 <? i)%nat |})
                                (seq retries k);
                   result := Rejected e;
                   world := after send cmd (S k) w |}).

(** A provider that fails the first [n] commands it receives. *)
Definition failing_first (w : nat) (_ : command) : option jserror * nat :=
  match w with
  | O => (None, O)
  | S k => (Some (ErrProvider "SlowDown"), k)
  end.

End S3Buckets.

(* ================================================================== *)
(** ** [files.transferFiles] *)

Module FileTransfer.
Import Files.

(** [providerInfo] of [getFileConnectorInfo] *)
Record ProviderInfo : Type := mkProviderInfo {
  provider : string;
  product : string;
  credentials : Credentials
}.

(** What [transferFiles] ends with: a rejection; an exception raised in
    the callback of [fs.readFile], outside every promise, which leaves the
    promise unsettled; or the call of a connector's [transferBackupFiles],
    whose outcome it passes on. *)
Inductive result (FileData : Type) : Type :=
| Rejects (e : jserror)
| Raises (e : jserror)
| Transfers (c : connector) (sourceInstallationId : string)
    (sourceCredentials : Credentials) (destinationInstallationId : string)
    (destinationCredentials : Credentials) (fileData : FileData).
Arguments Rejects {FileData} e.
Arguments Raises {FileData} e.
Arguments Transfers {FileData}.

Definition unsupported_transfer : jserror :=
  ErrMessage
    "File transfer between different filesource providers / products is not currenly supported".

(** [this.backupDownloadFile(...)] on an object without that method *)
Definition no_download : jserror :=
  ErrType "this.backupDownloadFile is not a function".

Section Lookups.

(** The collaborators of the function.  [backupDownloadFile] is the
    method of that name of the object the function is called on: the
    object [files] of lines 10-357 has none ([None]); [Some] is an object
    that was given one.  The others are the reading of the downloaded
    [files.json], [JSON.parse] on what was read, the configuration of an
    installation (its [filesource]), and the connector of a filesource. *)
Context {Data FileData : Type}.
Variable cwd : string.
Variable backupDownloadFile :
  option (string -> string -> string -> string -> string -> option jserror).
Variable readFile : string -> jserror + Data.
Variable parse : Data -> jserror + FileData.
Variable getInstallationConfig : string -> jserror + string.
Variable getFileConnectorInfo : string -> string -> jserror + ProviderInfo.

(** Lines 250-311.  The call of a method the object does not have raises
    a TypeError in the executor of the promise, which rejects it. *)
Definition transferFiles (sourceInstallationId sourceFilesource
    destinationInstallationId backupFolder : string) : result FileData :=
  let file := cwd +++ "/" +++ backupFolder +++ "/files.json" in
  match backupDownloadFile with
  | None => Rejects no_download
  | Some download =>
      match download sourceInstallationId backupFolder "files.json" file
              sourceFilesource with
      | Some error => Rejects error
      | None =>
          match readFile file with
          | inl err => Rejects err
          | inr data =>
              match parse data with
              | inl exception => Raises exception
              | inr fileData =>
                  let fqdn := destinationInstallationId +++ ".company.com" in
                  match getInstallationConfig fqdn with
                  | inl error => Rejects error
                  | inr destinationFilesource =>
                      match getFileConnectorInfo destinationFilesource
                              (destinationInstallationId +++ ".company.com") with
                      | inl error => Rejects error
                      | inr destination =>
                          match getFileConnectorInfo sourceFilesource
                                  (sourceInstallationId +++ ".company.com") with
                          | inl error => Rejects error
                          | inr source =>
                              if String.eqb (provider destination) (provider source)
                                 && String.eqb (product destination)
                                      (product source)
                              then
                                match Files.transferBackupFiles (provider source)
                                        (product source) with
                                | Forward c =>
                                    Transfers c sourceInstallationId
                                      (credentials source)
                                      destinationInstallationId
                                      (credentials destination) fileData
                                | Refuse e => Rejects e
                                end
                              else Rejects unsupported_transfer
                          end
                      end
                  end
              end
          end
      end
  end.

End Lookups.

End FileTransfer.

(* ================================================================== *)
(** ** purgeScript.js: the listing of the backups of an installation *)

Module PurgeRun.
Import Purge.

Section Collaborators.

(** [FileUtils.listBackups] and [FileUtils.calculateDate], by their
    outcomes. *)
Variable listBackups : string -> string -> jserror + list string.
Variable calculateDate : string -> string -> string -> jserror + Date.

(** Lines 42-49: the object a date promise resolves with. *)
Definition backup_object (currentInstallation filesource currentBackup : string)
  : backup :=
  {| name := currentBackup;
     date := match calculateDate currentInstallation currentBackup filesource with
             | inr curDate => Some curDate
             | inl _ => None
             end;
     filesource := filesource |}.

(** Lines 45-46: the warning for a backup without a date. *)
Definition warning (currentInstallation filesource currentBackup : string)
  : list string :=
  match calculateDate currentInstallation currentBackup filesource with
  | inr _ => []
  | inl error =>
      ["Omitting " +++ currentBackup
         +++ " from purge, date could not be sorted. Error: " +++ show_error error]
  end.

(** What the loop over the filesources leaves: the lines it prints, the
    warnings of the date promises, and the objects [Promise.all] resolves
    with, in the order of the promises. *)
Record listing : Type := mkListing {
  printed : list string;
  warnings : list string;
  backupObjects : list backup
}.

(** Lines 34-54, one filesource after the other. *)
Fixpoint collect (currentInstallation : string) (filesources : list string)
  : listing :=
  match filesources with
  | [] => {| printed := []; warnings := []; backupObjects := [] |}
  | filesource :: rest =>
      let others := collect currentInstallation rest in
      match listBackups currentInstallation filesource with
      | inr backups =>
          {| printed :=
               (currentInstallation +++ ": Found "
                  +++ show_nat (List.length backups) +++ " backups from "
                  +++ filesource) :: printed others;
             warnings :=
               flat_map (warning currentInstallation filesource) backups
               ++ warnings others;
             backupObjects :=
               map (backup_object currentInstallation filesource) backups
               ++ backupObjects others |}
      | inl error =>
          {| printed :=
               (currentInstallation +++ ": Errored while finding backups for "
                  +++ filesource +++ ": " +++ show_error error) :: printed others;
             warnings := warnings others;
             backupObjects := backupObjects others |}
      end
  end.

(** Lines 28-150 for one installation: the listing, then the callback of
    [Promise.all]. *)
Definition purge_installation (dryrun : jsval) (filesources : list string)
    (currentInstallation : string) : listing * run :=
  let listed := collect currentInstallation filesources in
  (listed, purge dryrun currentInstallation (backupObjects listed)).

(** Lines 22-156: [installations] and [filesources] are the outcomes of
    [getInstallationIdList] and of the keys of the cluster's filesources. *)
Definition script (dryrun : jsval) (installations : jserror + list string)
    (filesources : jserror + list string)
  : list string * list (listing * run) :=
  match installations with
  | inl error => (["Error retrieving installation ID list: " +++ show_error error], [])
  | inr ids =>
      match filesources with
      | inl error => (["Error retrieving filesource list: " +++ show_error error], [])
      | inr keys => ([], map (purge_installation dryrun keys) ids)
      end
  end.

End Collaborators.

End PurgeRun.

(* ================================================================== *)
(** ** Vocabulary of the statements about the commands of a run *)

Module Sent.
Import Files.

(** The bucket [deleteObjectVersion] of the S3 connector addresses: the
    bucket of the installation, or the shared bucket the credentials name
    with a string that is not empty; none when they name it otherwise. *)
Definition delete_target (bucketName : string) (credentials : Credentials)
  : option string :=
  match bucket credentials with
  | None => Some bucketName
  | Some (JString b) => if (0 <? String.length b)%nat then Some b else None
  | Some _ => None
  end.

Definition delete_command (target : string) (task : S3.Task) : S3.command :=
  S3.DeleteObjectCommand
    {| S3.delBucket := target; S3.delKey := S3.path task;
       S3.delVersionId := S3.versionId task |}.

Definition is_object_deletion (c : S3.command) : bool :=
  match c with S3.DeleteObjectCommand _ => true | _ => false end.

Definition is_file_deletion (c : GCS.command) : bool :=
  match c with GCS.FileDelete _ _ _ => true | _ => false end.

(** The filesources of a list whose backups can be listed. *)
Definition listable (listBackups : string -> string -> jserror + list string)
    (currentInstallation : string) (filesources : list string) : list string :=
  filter (fun fs => match listBackups currentInstallation fs with
                    | inr _ => true
                    | inl _ => false
                    end) filesources.

(** The name a method of [files] goes by, and the one its refusal prints:
    the two listings print [listFiles] under the provider [google]. *)
Definition method_name (op : operation) : string :=
  match op with
  | OpListFileVersions => "listFileVersions"
  | OpListBackups => "listBackups"
  | OpCalculateDate => "calculateDate"
  | OpDeleteObjectVersion => "deleteObjectVersion"
  | OpDeleteAll => "deleteAll"
  | OpTransferBackupFiles => "transferBackupFiles"
  end.

Definition printed_name (op : operation) (provider : string) : string :=
  match op with
  | OpListFileVersions | OpListBackups =>
      if String.eqb provider "google" then "listFiles" else method_name op
  | _ => method_name op
  end.

End Sent.
(* ================================================================== *)
(** * Properties *)

(** ** The dry-run control *)

Module DryRun.
Import Purge.

Lemma parse_dryrun_string (s : string) :
  parse_dryrun (JString s)
  = if String.eqb (toLowerCase s) "false" then JBool false else JBool true.
Proof.
  unfold parse_dryrun, or_else.
  destruct s as [|c r].
  - reflexivity.
  - cbn [truthy String.eqb negb]. reflexivity.
Qed.

Lemma parse_dryrun_other (v : jsval) :
  is_string v = false -> live (parse_dryrun v) = false.
Proof.
  destruct v as [| |[|]|n|s]; cbn [is_string]; intros H;
    try reflexivity; try discriminate.
  unfold parse_dryrun, or_else.
  destruct n as [| |z|]; cbn [truthy]; try reflexivity.
  destruct (z =? 0)%Z; reflexivity.
Qed.

(** C10.  Whatever value the environment gives for DRYRUN, the engine is
    live exactly when that value is a string whose lower-case form is
    "false"; an unset variable, a value that is no string and any other
    string, such as "0", "no" or the empty one, give a dry run. *)
Theorem live_iff_lowercase_false :
  (forall env : jsval,
      live (parse_dryrun env) = true
      <-> exists s, env = JString s /\ toLowerCase s = "false")
  /\ live (parse_dryrun JUndefined) = false
  /\ live (parse_dryrun (JString "")) = false
  /\ live (parse_dryrun (JString "0")) = false
  /\ live (parse_dryrun (JString "no")) = false
  /\ live (parse_dryrun (JString "FALSE")) = true.
Proof.
  split; [|repeat split; vm_compute; reflexivity].
  intros env; split.
  - destruct (is_string env) eqn:E.
    + destruct env; try discriminate.
      rewrite parse_dryrun_string.
      destruct (String.eqb_spec (toLowerCase s) "false") as [Heq|Hne].
      * intros _. now exists s.
      * discriminate.
    + rewrite (parse_dryrun_other env E). discriminate.
  - intros [s [-> Hs]].
    rewrite parse_dryrun_string, Hs. reflexivity.
Qed.

Lemma purge_plan_report_lists (dryrun : jsval) (installation : string) (p : plan) :
  live dryrun = false ->
  (forall b, In b (backupsToDelete p) ->
     In ("Delete: " +++ name b +++ ", filesource: " +++ filesource b)
        (report dryrun installation p))
  /\ (forall b, In b (backupsToKeep p) ->
     In ("Keep: " +++ name b +++ ", filesource: " +++ filesource b)
        (report dryrun installation p)).
Proof.
  unfold live, report. intros ->. split; intros b Hb.
  - right. apply in_or_app. left.
    apply (in_map (fun b => "Delete: " +++ name b +++ ", filesource: " +++ filesource b)).
    exact Hb.
  - right. apply in_or_app. right. right.
    apply (in_map (fun b => "Keep: " +++ name b +++ ", filesource: " +++ filesource b)).
    exact Hb.
Qed.

(** C2.  In a dry run ([dryrun] is not [false]) the callback pushes no task
    on the queue, so the worker makes no call to [deleteAll], for every
    installation and every list of backups; the deletions and retentions
    of the plan are only printed.  An unset DRYRUN gives a dry run. *)
Theorem dry_run_never_deletes (dryrun : jsval) (installation : string)
    (backupObjects : list backup) :
  live dryrun = false ->
  pushed (purge dryrun installation backupObjects) = []
  /\ deleteAll_calls (purge dryrun installation backupObjects) = []
  /\ (forall p, purge_plan dryrun backupObjects = Some p ->
        (forall b, In b (backupsToDelete p) ->
           In ("Delete: " +++ name b +++ ", filesource: " +++ filesource b)
              (console (purge dryrun installation backupObjects)))
        /\ (forall b, In b (backupsToKeep p) ->
           In ("Keep: " +++ name b +++ ", filesource: " +++ filesource b)
              (console (purge dryrun installation backupObjects))))
  /\ live (parse_dryrun JUndefined) = false.
Proof.
  intros Hdry.
  assert (Hpushed : pushed (purge dryrun installation backupObjects) = []).
  { unfold purge. destruct (purge_plan dryrun backupObjects) as [p|]; simpl.
    - unfold deleteBackups. unfold live in Hdry. rewrite Hdry. reflexivity.
    - reflexivity. }
  repeat split.
  - exact Hpushed.
  - unfold deleteAll_calls. now rewrite Hpushed.
  - unfold purge. rewrite H. cbn [console].
    now apply (purge_plan_report_lists dryrun installation p Hdry).
  - unfold purge. rewrite H. cbn [console].
    now apply (purge_plan_report_lists dryrun installation p Hdry).
Qed.

Lemma dry_run_never_deletes_witness :
  live (JBool true) = false
  /\ pushed (purge (JBool true) "inst" (no_date "u1" :: dated_run 0 31)) = [].
Proof.
  split; [reflexivity|].
  exact (proj1 (dry_run_never_deletes (JBool true) "inst"
                  (no_date "u1" :: dated_run 0 31) eq_refl)).
Defined.

End DryRun.

(** ** The retention plan *)

Module Retention.
Import Purge.

(** The two slices of the script cut the sorted array in two. *)
Lemma slices_split {A} (l : list A) :
  (quantity < List.length l)%nat ->
  array_slice 0 (Some (- Z.of_nat quantity)%Z) l
  = firstn (List.length l - quantity) l
  /\ array_slice (- Z.of_nat quantity)%Z None l
     = skipn (List.length l - quantity) l.
Proof.
  intros Hlen. unfold array_slice, rel_index, quantity in *.
  change (0 <? 0)%Z with false. cbn iota.
  change (- Z.of_nat 30 <? 0)%Z with true. cbn iota.
  replace (Z.to_nat (Z.max (Z.of_nat (List.length l) + - Z.of_nat 30) 0))
    with (List.length l - 30)%nat by lia.
  change (Z.to_nat 0) with 0%nat.
  rewrite Nat.min_0_l, Nat.sub_0_r. cbn [skipn].
  split; [reflexivity|].
  apply firstn_all2. rewrite length_skipn. lia.
Qed.

Lemma nth_error_middle {A} (pre : list A) (x : A) (rest : list A) :
  nth_error (pre ++ x :: rest) (List.length pre) = Some x.
Proof. induction pre as [|a pre IH]; [reflexivity|exact IH]. Qed.

Lemma remove_at_middle {A} (pre : list A) (x : A) (rest : list A) :
  remove_at (List.length pre) (pre ++ x :: rest) = pre ++ rest.
Proof.
  induction pre as [|a pre IH]; [reflexivity|].
  cbn [List.length app remove_at]. now rewrite IH.
Qed.

Lemma spaced_tail (a : backup) (r : list backup) :
  spaced (a :: r) = true -> spaced r = true.
Proof.
  destruct r as [|b r']; [reflexivity|].
  change (spaced (a :: b :: r'))
    with (negb (undated a && undated b) && spaced (b :: r')).
  intros H. apply andb_true_iff in H. tauto.
Qed.

Lemma spaced_neighbour (a b : backup) (r : list backup) :
  spaced (a :: b :: r) = true -> undated a = true -> undated b = false.
Proof.
  change (spaced (a :: b :: r))
    with (negb (undated a && undated b) && spaced (b :: r)).
  intros H Ha. apply andb_true_iff in H. destruct H as [H _].
  rewrite Ha in H. now destruct (undated b).
Qed.

(** Past the end of the array [forEach] finds no index to visit. *)
Lemma exclude_from_beyond (dryrun : jsval) (steps i : nat)
    (arr keep : list backup) :
  (List.length arr <= i)%nat ->
  exclude_from dryrun steps i arr keep = (arr, keep).
Proof.
  revert i. induction steps as [|n IH]; intros i Hi; [reflexivity|].
  cbn [exclude_from].
  destruct (nth_error arr i) eqn:E.
  - apply nth_error_None in Hi. congruence.
  - apply IH. lia.
Qed.

(** The loop on a listing without two neighbours lacking a date: having
    visited the dated entries [pre], it leaves of [rest] the dated ones. *)
Lemma exclude_from_spaced (dryrun : jsval) (steps : nat) :
  forall (pre rest keep : list backup),
    (List.length rest <= steps)%nat ->
    spaced rest = true ->
    fst (exclude_from dryrun steps (List.length pre) (pre ++ rest) keep)
    = pre ++ filter dated rest.
Proof.
  induction steps as [|n IH]; intros pre rest keep Hlen Hsp.
  - destruct rest; [reflexivity|cbn in Hlen; lia].
  - cbn [exclude_from].
    destruct rest as [|h t].
    + rewrite app_nil_r.
      replace (nth_error pre (List.length pre)) with (@None backup)
        by (symmetry; apply nth_error_None; lia).
      rewrite exclude_from_beyond by lia. cbn. now rewrite app_nil_r.
    + rewrite nth_error_middle.
      destruct (undated h) eqn:Eh.
      * rewrite remove_at_middle.
        cbn [filter]. unfold dated at 1. rewrite Eh. cbn [negb].
        destruct t as [|h' t'].
        -- rewrite app_nil_r, exclude_from_beyond by lia.
           cbn. now rewrite app_nil_r.
        -- pose proof (spaced_neighbour h h' t' Hsp Eh) as Eh'.
           apply spaced_tail, spaced_tail in Hsp.
           cbn [filter]. unfold dated at 1. rewrite Eh'. cbn [negb].
           specialize (IH (pre ++ [h']) t'
                         (if is_false dryrun then keep else keep ++ [h])).
           rewrite length_app in IH. cbn [List.length] in IH.
           rewrite Nat.add_1_r in IH. rewrite <- app_assoc in IH.
           cbn [app] in IH. rewrite IH.
           ++ now rewrite <- app_assoc.
           ++ cbn [List.length] in Hlen. lia.
           ++ exact Hsp.
      * cbn [filter]. unfold dated at 1. rewrite Eh. cbn [negb].
        specialize (IH (pre ++ [h]) t keep).
        rewrite length_app in IH. cbn [List.length] in IH.
        rewrite Nat.add_1_r in IH. rewrite <- app_assoc in IH.
        cbn [app] in IH. rewrite IH.
        -- now rewrite <- app_assoc.
        -- cbn [List.length] in Hlen. lia.
        -- exact (spaced_tail h t Hsp).
Qed.

(** On such a listing the exclusion leaves exactly the dated entries, in
    their order. *)
Lemma exclude_spaced (dryrun : jsval) (backupObjects : list backup) :
  spaced backupObjects = true ->
  fst (exclude dryrun backupObjects) = filter dated backupObjects.
Proof.
  intros Hsp. unfold exclude.
  exact (exclude_from_spaced dryrun (List.length backupObjects) []
           backupObjects [] (le_n _) Hsp).
Qed.

(** *** The comparator orders the keys *)

Lemma sort_key_not_nan (b : backup) : sort_key b <> NaN.
Proof.
  unfold sort_key. destruct (date b) as [d|]; [|discriminate].
  destruct (getTime d); discriminate.
Qed.

Ltac by_keys :=
  unfold not_after, compareFn in *;
  repeat match goal with
         | |- context [sort_key ?b] =>
             let H := fresh "Hk" in
             pose proof (sort_key_not_nan b) as H; destruct (sort_key b)
         | H : context [sort_key ?b] |- _ =>
             let H := fresh "Hk" in
             pose proof (sort_key_not_nan b) as H; destruct (sort_key b)
         end;
  cbn [sub is_positive] in *;
  try congruence;
  repeat match goal with
         | H : (_ <? _)%Z = true |- _ => apply Z.ltb_lt in H
         | H : (_ <? _)%Z = false |- _ => apply Z.ltb_ge in H
         | |- (_ <? _)%Z = true => apply Z.ltb_lt
         | |- (_ <? _)%Z = false => apply Z.ltb_ge
         end;
  try lia.

Lemma not_after_trans (a b c : backup) :
  not_after a b -> not_after b c -> not_after a c.
Proof. intros Hab Hbc. by_keys. Qed.

Lemma after_not_after (a b : backup) :
  is_positive (compareFn a b) = true -> not_after b a.
Proof. intros Hab. by_keys. Qed.

(** *** The sort *)

Lemma insert_perm (x : backup) (l : list backup) :
  Permutation (insert x l) (x :: l).
Proof.
  induction l as [|y r IH]; [reflexivity|].
  cbn [insert]. destruct (is_positive (compareFn x y)); [|reflexivity].
  rewrite IH. apply perm_swap.
Qed.

Lemma sort_perm (l : list backup) : Permutation (sort l) l.
Proof.
  induction l as [|x r IH]; [reflexivity|].
  cbn [sort fold_right]. fold (sort r).
  rewrite insert_perm. now apply perm_skip.
Qed.

Lemma insert_sorted (x : backup) (l : list backup) :
  StronglySorted not_after l -> StronglySorted not_after (insert x l).
Proof.
  induction 1 as [|y r Hr IH Hy]; cbn [insert].
  - repeat constructor.
  - destruct (is_positive (compareFn x y)) eqn:E.
    + constructor; [exact IH|].
      apply (Permutation_Forall (Permutation_sym (insert_perm x r))).
      constructor; [now apply after_not_after|exact Hy].
    + constructor; [now constructor|].
      constructor; [exact E|].
      eapply Forall_impl; [|exact Hy].
      intros z Hz. now apply (not_after_trans x y z).
Qed.

Lemma sort_sorted (l : list backup) : StronglySorted not_after (sort l).
Proof.
  induction l as [|x r IH]; [constructor|].
  cbn [sort fold_right]. fold (sort r). now apply insert_sorted.
Qed.

Lemma sorted_app_order {A} (R : A -> A -> Prop) (l1 l2 : list A) :
  StronglySorted R (l1 ++ l2) ->
  forall x y, In x l1 -> In y l2 -> R x y.
Proof.
  induction l1 as [|a l1 IH]; intros Hs x y Hx Hy; [contradiction|].
  cbn [app] in Hs. apply StronglySorted_inv in Hs. destruct Hs as [Hs Ha].
  destruct Hx as [->|Hx].
  - rewrite Forall_forall in Ha. apply Ha, in_or_app. now right.
  - now apply IH.
Qed.

(** *** The plan on a listing whose undated entries are apart

    This is the part of the retention rule the script does implement: when
    no two entries without a date are neighbours (in particular when every
    entry has a date), the plan ranks the dated entries only, keeps
    [quantity] of them, and no deleted entry is more recent than a kept
    one. *)
Lemma plan_keeps_most_recent (dryrun : jsval) (backupObjects : list backup)
    (p : plan) :
  spaced backupObjects = true ->
  purge_plan dryrun backupObjects = Some p ->
  backupsToDelete p ++ retained p = sort (filter dated backupObjects)
  /\ List.length (retained p) = quantity
  /\ (forall b, In b (retained p) -> dated b = true)
  /\ (forall x y, In x (backupsToDelete p) -> In y (retained p) -> not_after x y).
Proof.
  intros Hsp. unfold purge_plan.
  pose proof (exclude_spaced dryrun backupObjects Hsp) as Hex.
  destruct (exclude dryrun backupObjects) as [valid keep].
  cbn [fst] in Hex. subst valid.
  set (ds := filter dated backupObjects).
  destruct (List.length ds <=? quantity)%nat eqn:Hq; [discriminate|].
  apply Nat.leb_gt in Hq.
  assert (Hlen : List.length (sort ds) = List.length ds)
    by (apply Permutation_length, sort_perm).
  destruct (slices_split (sort ds)) as [Hdel Hret]; [lia|].
  intros [= <-]. cbn [backupsToDelete retained].
  change (- Z.of_nat quantity)%Z with (-30)%Z in Hdel, Hret.
  rewrite Hdel, Hret, firstn_skipn.
  assert (Hsorted := sort_sorted ds).
  rewrite <- (firstn_skipn (List.length (sort ds) - quantity) (sort ds)) in Hsorted.
  repeat split.
  - rewrite length_skipn. lia.
  - intros b Hb.
    assert (Hin : In b ds).
    { apply (Permutation_in b (sort_perm ds)).
      rewrite <- (firstn_skipn (List.length (sort ds) - quantity) (sort ds)).
      apply in_or_app. now right. }
    apply filter_In in Hin. tauto.
  - now apply sorted_app_order.
Qed.

Lemma plan_keeps_most_recent_witness :
  spaced (no_date "u1" :: dated_run 0 31) = true
  /\ exists p,
       purge_plan (JBool false) (no_date "u1" :: dated_run 0 31) = Some p
       /\ List.length (retained p) = quantity
       /\ forall x y, In x (backupsToDelete p) -> In y (retained p) -> not_after x y.
Proof.
  assert (Hsp : spaced (no_date "u1" :: dated_run 0 31) = true)
    by (vm_compute; reflexivity).
  split; [exact Hsp|].
  destruct (purge_plan (JBool false) (no_date "u1" :: dated_run 0 31))
    as [p|] eqn:Hp; [|vm_compute in Hp; discriminate Hp].
  exists p. split; [reflexivity|].
  destruct (plan_keeps_most_recent (JBool false)
              (no_date "u1" :: dated_run 0 31) p Hsp Hp)
    as [_ [Hlen [_ Hord]]].
  split; [exact Hlen|exact Hord].
Defined.

(** When the script skips the purge, the dated entries are no more than
    [quantity], and all of them stay. *)
Lemma plan_skipped (dryrun : jsval) (backupObjects : list backup) :
  spaced backupObjects = true ->
  purge_plan dryrun backupObjects = None ->
  (dated_count backupObjects <= quantity)%nat.
Proof.
  intros Hsp. unfold purge_plan, dated_count.
  pose proof (exclude_spaced dryrun backupObjects Hsp) as Hex.
  destruct (exclude dryrun backupObjects) as [valid keep].
  cbn [fst] in Hex. subst valid.
  destruct (List.length (filter dated backupObjects) <=? quantity)%nat eqn:Hq;
    [|discriminate].
  intros _. now apply Nat.leb_le.
Qed.

Lemma plan_skipped_witness :
  (spaced (no_date "u1" :: dated_run 0 30) = true
   /\ purge_plan (JBool false) (no_date "u1" :: dated_run 0 30) = None)
  /\ (dated_count (no_date "u1" :: dated_run 0 30) <= quantity)%nat.
Proof.
  assert (Hsp : spaced (no_date "u1" :: dated_run 0 30) = true)
    by (vm_compute; reflexivity).
  assert (Hp : purge_plan (JBool false) (no_date "u1" :: dated_run 0 30) = None)
    by (vm_compute; reflexivity).
  split; [split; [exact Hsp|exact Hp]|].
  exact (plan_skipped (JBool false) (no_date "u1" :: dated_run 0 30) Hsp Hp).
Defined.

(** C1.  The script at a listing with two neighbours that have no date,
    followed by thirty dated backups.  The second undated entry is not
    excluded: [forEach] goes on to the next index after [splice] has moved
    it into the visited one.  It is then ranked last, as the most recent
    entry, and takes one of the thirty places, so that the oldest of the
    thirty dated backups is planned for deletion and only twenty-nine dated
    backups are retained. *)
Theorem adjacent_undated_entry_is_ranked :
  let backupObjects := no_date "u1" :: no_date "u2" :: dated_run 0 30 in
  dated_count backupObjects = quantity
  /\ fst (exclude (JBool false) backupObjects) = no_date "u2" :: dated_run 0 30
  /\ exists p,
       purge_plan (JBool false) backupObjects = Some p
       /\ backupsToDelete p = dated_run 0 1
       /\ retained p = dated_run 1 29 ++ [no_date "u2"]
       /\ dated_count (retained p) = 29%nat
       /\ deleteBackups (JBool false) "inst" p
          = [mkTask "inst" "backups/b1" "fs"].
Proof.
  cbv zeta. split; [vm_compute; reflexivity|].
  split; [vm_compute; reflexivity|].
  eexists. split; [vm_compute; reflexivity|].
  repeat split; vm_compute; reflexivity.
Qed.

End Retention.

(** ** The dispatcher *)

Module Dispatch.
Import Files.

Lemma switch_refuses (google_label label provider product : string) :
  ~ supported provider product ->
  switch google_label label provider product
  = Refuse (unsupported
              (if String.eqb provider "google" then google_label else label)
              provider product).
Proof.
  intros Hno. unfold switch.
  destruct (String.eqb_spec provider "google") as [Hg|Hg].
  - destruct (String.eqb_spec product "storage") as [Hs|Hs]; [|reflexivity].
    exfalso. apply Hno. left. now split.
  - destruct (String.eqb_spec provider "amazon") as [Ha|Ha]; [|reflexivity].
    destruct (String.eqb_spec product "s3") as [Hs|Hs]; [|reflexivity].
    exfalso. apply Hno. right. now split.
Qed.

Lemma switch_forwards (google_label label provider product : string) (c : connector) :
  switch google_label label provider product = Forward c ->
  (provider = "google" /\ product = "storage" /\ c = gcsUtils)
  \/ (provider = "amazon" /\ product = "s3" /\ c = s3Utils).
Proof.
  unfold switch.
  destruct (String.eqb_spec provider "google") as [Hg|Hg].
  - destruct (String.eqb_spec product "storage"); [|discriminate].
    intros [= <-]. now left.
  - destruct (String.eqb_spec provider "amazon"); [|discriminate].
    destruct (String.eqb_spec product "s3"); [|discriminate].
    intros [= <-]. now right.
Qed.

(** C6.  For a pair of provider and product other than (google, storage)
    and (amazon, s3), each of the six operations of the dispatcher rejects
    with an error whose message names the provider and the product, and
    forwards the call to no connector. *)
Theorem unsupported_pair_is_refused (op : operation) (provider product : string) :
  ~ supported provider product ->
  (exists method,
      dispatch op provider product
      = Refuse (ErrError (method +++ " error: method does not currently support "
                            +++ provider +++ "'s " +++ product)))
  /\ (forall c, dispatch op provider product <> Forward c).
Proof.
  intros Hno.
  assert (H : exists method,
             dispatch op provider product
             = Refuse (unsupported method provider product)).
  { destruct op; cbn [dispatch];
      unfold listFileVersions, listBackups, calculateDate, deleteObjectVersion,
        deleteAll, transferBackupFiles;
      rewrite (switch_refuses _ _ provider product Hno); eexists; reflexivity. }
  destruct H as [method H]. split.
  - exists method. exact H.
  - intros c Hc. rewrite H in Hc. discriminate.
Qed.

Lemma unsupported_pair_is_refused_witness :
  ~ supported "azure" "blob"
  /\ forall c, dispatch OpDeleteAll "azure" "blob" <> Forward c.
Proof.
  assert (Hno : ~ supported "azure" "blob").
  { intros [[H _]|[H _]]; discriminate H. }
  split; [exact Hno|].
  exact (proj2 (unsupported_pair_is_refused OpDeleteAll "azure" "blob" Hno)).
Defined.

(** The two supported pairs select one connector each. *)
Lemma supported_pair_is_forwarded (op : operation) :
  dispatch op "google" "storage" = Forward gcsUtils
  /\ dispatch op "amazon" "s3" = Forward s3Utils.
Proof. destruct op; split; reflexivity. Qed.

End Dispatch.

(** ** The date of a backup name (S3) *)

Module BackupDate.
Import S3.

Local Open Scope Z_scope.

(** *** Digits and slices *)

Lemma digit_range (c : ascii) (d : Z) : digit c = Some d -> 0 <= d <= 9.
Proof.
  unfold digit.
  destruct ((48 <=? nat_of_ascii c)%nat && (nat_of_ascii c <=? 57)%nat) eqn:E;
    [|discriminate].
  intros [= <-].
  apply andb_true_iff in E. destruct E as [E1 E2].
  apply Nat.leb_le in E1. apply Nat.leb_le in E2. lia.
Qed.

(** Reading digits after an accumulator [a] appends them to it. *)
Lemma digits_prefix_bounds (s : string) :
  forall a : Z,
    all_digits s = true -> 0 <= a ->
    exists v, digits_prefix (Some a) s = Some v
              /\ a * 10 ^ Z.of_nat (String.length s) <= v
                 < (a + 1) * 10 ^ Z.of_nat (String.length s).
Proof.
  induction s as [|c r IH]; intros a Hd Ha.
  - exists a. cbn. split; [reflexivity|lia].
  - cbn [all_digits] in Hd. cbn [digits_prefix].
    destruct (digit c) as [d|] eqn:Ec; [|discriminate].
    pose proof (digit_range c d Ec) as Hr.
    destruct (IH (10 * a + d) Hd ltac:(lia)) as [v [Hv Hb]].
    exists v. split; [exact Hv|].
    cbn [String.length]. rewrite Nat2Z.inj_succ, Z.pow_succ_r by lia.
    assert (0 < 10 ^ Z.of_nat (String.length r)) by (apply Z.pow_pos_nonneg; lia).
    nia.
Qed.

Lemma decimal_bounds (s : string) :
  all_digits s = true ->
  0 <= decimal s < 10 ^ Z.of_nat (String.length s).
Proof.
  unfold decimal. destruct s as [|c r]; intros Hd.
  - cbn. lia.
  - cbn [all_digits] in Hd. cbn [digits_prefix].
    destruct (digit c) as [d|] eqn:Ec; [|discriminate].
    pose proof (digit_range c d Ec) as Hr.
    destruct (digits_prefix_bounds r (10 * 0 + d) Hd ltac:(lia)) as [v [Hv Hb]].
    rewrite Hv. cbn [String.length]. rewrite Nat2Z.inj_succ, Z.pow_succ_r by lia.
    assert (0 < 10 ^ Z.of_nat (String.length r)) by (apply Z.pow_pos_nonneg; lia).
    nia.
Qed.

Lemma StringToNumber_digits (s : string) :
  all_digits s = true -> StringToNumber s = Num (decimal s).
Proof.
  intros Hd. unfold StringToNumber, decimal. rewrite Hd.
  destruct (digits_prefix None s); reflexivity.
Qed.

Lemma parseInt_digits (s : string) :
  all_digits s = true -> s <> "" -> parseInt s = Num (decimal s).
Proof.
  intros Hd Hne. unfold parseInt, decimal.
  destruct s as [|c r]; [congruence|].
  cbn [all_digits] in Hd. cbn [digits_prefix].
  destruct (digit c) as [d|] eqn:Ec; [|discriminate].
  pose proof (digit_range c d Ec) as Hr.
  destruct (digits_prefix_bounds r (10 * 0 + d) Hd ltac:(lia)) as [v [Hv _]].
  now rewrite Hv.
Qed.

Lemma substring_length (s : string) :
  forall i k : nat,
    (i + k <= String.length s)%nat -> String.length (substring i k s) = k.
Proof.
  induction s as [|c r IH]; intros i k H; cbn [String.length] in H.
  - assert (i = 0%nat) by lia. assert (k = 0%nat) by lia. subst. reflexivity.
  - destruct i as [|i'].
    + destruct k as [|k']; [reflexivity|].
      cbn [substring String.length]. f_equal. apply IH. lia.
    + cbn [substring]. apply IH. lia.
Qed.

(** A slice inside a run of digits is a run of digits. *)
Lemma substring_digits (s : string) :
  forall n i k : nat,
    all_digits (substring 0 n s) = true -> (i + k <= n)%nat ->
    all_digits (substring i k s) = true.
Proof.
  induction s as [|c r IH]; intros n i k Hd H.
  - destruct i, k; reflexivity.
  - destruct i as [|i'].
    + destruct k as [|k']; [reflexivity|].
      destruct n as [|n']; [lia|].
      cbn [substring all_digits] in *.
      destruct (digit c); [|discriminate].
      apply (IH n' 0%nat k' Hd). lia.
    + destruct n as [|n']; [lia|].
      cbn [substring all_digits] in *.
      destruct (digit c); [|discriminate].
      apply (IH n' i' k Hd). lia.
Qed.

Lemma slice_field (backupName : string) (i j : nat) :
  all_digits (slice 0 8 backupName) = true ->
  (8 <= String.length backupName)%nat ->
  (i < j <= 8)%nat ->
  all_digits (slice i j backupName) = true
  /\ slice i j backupName <> ""
  /\ 0 <= decimal (slice i j backupName) < 10 ^ Z.of_nat (j - i).
Proof.
  unfold slice. intros Hd Hlen Hij.
  assert (Hs : all_digits (substring i (j - i) backupName) = true)
    by (apply (substring_digits backupName (8 - 0) i (j - i) Hd); lia).
  assert (Hl : String.length (substring i (j - i) backupName) = (j - i)%nat)
    by (apply substring_length; lia).
  pose proof (decimal_bounds _ Hs) as Hb. rewrite Hl in Hb.
  split; [exact Hs|]. split; [|exact Hb].
  intros E. rewrite E in Hl. cbn in Hl. lia.
Qed.

(** *** The constructor accepts every four-digit year *)

Lemma DaysBeforeMonth_range (leap : bool) (m : Z) :
  0 <= DaysBeforeMonth leap m <= 335.
Proof.
  unfold DaysBeforeMonth.
  assert (H : 0 <= nth (Z.to_nat m)
                     [0; 31; 59; 90; 120; 151; 181; 212; 243; 273; 304; 334] 0
              <= 334).
  { generalize (Z.to_nat m) as n. intros n.
    do 12 (destruct n as [|n]; [cbn; lia|]). destruct n; cbn; lia. }
  destruct (leap && (2 <=? m)); lia.
Qed.

Lemma MakeDay_range (y m d : Z) :
  0 <= y <= 9999 -> -1 <= m <= 98 -> 0 <= d <= 99 ->
  Z.abs (MakeDay (full_year y) m d * msPerDay) <= 8640000000000000.
Proof.
  intros Hy Hm Hd. unfold MakeDay, msPerDay.
  pose proof (DaysBeforeMonth_range
                (InLeapYear (full_year y + m / 12)) (m mod 12)) as Hb.
  set (b := DaysBeforeMonth _ _) in *. clearbody b.
  assert (Hf : 100 <= full_year y <= 9999).
  { unfold full_year.
    destruct (Z.leb_spec 0 y), (Z.leb_spec y 99); cbn [andb]; lia. }
  set (yr := full_year y) in *. clearbody yr.
  unfold DayFromYear.
  Z.div_mod_to_equations. lia.
Qed.

Lemma new_Date_digits (y m d : Z) :
  0 <= y <= 9999 -> 0 <= m <= 99 -> 0 <= d <= 99 ->
  new_Date (Num y) (pred_num (Num m)) (Num d)
  = mkDate (Num (MakeDay (full_year y) (m - 1) d * msPerDay)).
Proof.
  intros Hy Hm Hd. cbn [new_Date pred_num]. unfold TimeClip.
  pose proof (MakeDay_range y (m - 1) d Hy ltac:(lia) Hd) as Hr.
  destruct (Z.ltb_spec 8640000000000000
              (Z.abs (MakeDay (full_year y) (m - 1) d * msPerDay)));
    [lia|reflexivity].
Qed.

(** The calendar reading used in the examples agrees with [MakeDay] on
    every day of the years 2000 to 2039. *)
Lemma calendar_reads_back : reads_back 2000 40 = true.
Proof. vm_compute. reflexivity. Qed.

(** *** The parser *)

(** The date the constructor builds from a year, a 1-based month and a
    day, each taken as written. *)
Lemma fields_resolve (ys ms ds : string) :
  all_digits ys = true -> all_digits ms = true -> all_digits ds = true ->
  ms <> "" ->
  0 <= decimal ys <= 9999 -> 0 <= decimal ms <= 99 -> 0 <= decimal ds <= 99 ->
  new_Date (ToNumber (JString ys)) (ToNumber (JNumber (pred_num (parseInt ms))))
    (ToNumber (JString ds))
  = mkDate (Num (MakeDay (full_year (decimal ys)) (decimal ms - 1) (decimal ds)
                 * msPerDay)).
Proof.
  intros Hy Hm Hd Hne By Bm Bd. cbn [ToNumber].
  rewrite (StringToNumber_digits ys Hy), (StringToNumber_digits ds Hd),
    (parseInt_digits ms Hm Hne).
  now apply new_Date_digits.
Qed.

Lemma calculateDate_resolves (backupName : string) (y1 y2 m1 m2 d1 d2 : nat) :
  (String.length backupName =? 14)%nat = true
  /\ (y1, y2, m1, m2, d1, d2) = (4, 8, 0, 2, 2, 4)%nat
  \/ (String.length backupName =? 14)%nat = false
     /\ (String.length backupName =? 35)%nat = true
     /\ (y1, y2, m1, m2, d1, d2) = (0, 4, 4, 6, 6, 8)%nat ->
  all_digits (slice 0 8 backupName) = true ->
  calculateDate backupName
  = [Resolve (mkDate (Num (MakeDay (full_year (decimal (slice y1 y2 backupName)))
                             (decimal (slice m1 m2 backupName) - 1)
                             (decimal (slice d1 d2 backupName))
                           * msPerDay)))].
Proof.
  intros Hcase Hd.
  assert (Hlen : (8 <= String.length backupName)%nat).
  { destruct Hcase as [[H _]|[_ [H _]]]; apply Nat.eqb_eq in H; lia. }
  assert (Hdate :
    new_Date (ToNumber (JString (slice y1 y2 backupName)))
      (ToNumber (JNumber (pred_num (parseInt (slice m1 m2 backupName)))))
      (ToNumber (JString (slice d1 d2 backupName)))
    = mkDate (Num (MakeDay (full_year (decimal (slice y1 y2 backupName)))
                     (decimal (slice m1 m2 backupName) - 1)
                     (decimal (slice d1 d2 backupName)) * msPerDay))).
  { destruct Hcase as [[_ E]|[_ [_ E]]]; injection E as -> -> -> -> -> ->.
    - destruct (slice_field backupName 4 8 Hd Hlen ltac:(lia)) as [Hy [_ By]].
      destruct (slice_field backupName 0 2 Hd Hlen ltac:(lia)) as [Hm [Nm Bm]].
      destruct (slice_field backupName 2 4 Hd Hlen ltac:(lia)) as [Hdd [_ Bd]].
      apply fields_resolve; try assumption.
      + change (10 ^ Z.of_nat (8 - 4)) with 10000 in By. lia.
      + change (10 ^ Z.of_nat (2 - 0)) with 100 in Bm. lia.
      + change (10 ^ Z.of_nat (4 - 2)) with 100 in Bd. lia.
    - destruct (slice_field backupName 0 4 Hd Hlen ltac:(lia)) as [Hy [_ By]].
      destruct (slice_field backupName 4 6 Hd Hlen ltac:(lia)) as [Hm [Nm Bm]].
      destruct (slice_field backupName 6 8 Hd Hlen ltac:(lia)) as [Hdd [_ Bd]].
      apply fields_resolve; try assumption.
      + change (10 ^ Z.of_nat (4 - 0)) with 10000 in By. lia.
      + change (10 ^ Z.of_nat (6 - 4)) with 100 in Bm. lia.
      + change (10 ^ Z.of_nat (8 - 6)) with 100 in Bd. lia. }
  unfold calculateDate.
  destruct Hcase as [[H14 E]|[H14 [H35 E]]];
    injection E as -> -> -> -> -> ->.
  - rewrite H14. cbv beta iota zeta. rewrite Hdate. reflexivity.
  - rewrite H14, H35. cbv beta iota zeta. rewrite Hdate. reflexivity.
Qed.

Lemma calculateDate_other_length (backupName : string) :
  String.length backupName <> 14%nat ->
  String.length backupName <> 35%nat ->
  calculateDate backupName
  = [Reject (ErrMessage
       ("calculateDate Error: Invalid backup name length for backup "
          +++ backupName));
     Reject (ErrError "Invalid date")].
Proof.
  intros H14 H35. unfold calculateDate.
  apply Nat.eqb_neq in H14. apply Nat.eqb_neq in H35.
  rewrite H14, H35. reflexivity.
Qed.




(** A day beyond the month and a year below 100: the thirtieth of
    February of the year 0022 is read as the second of March 1922. *)
Lemma day_and_year_are_carried :
  exists d, settled (calculateDate "02300022132649") = Resolved d
            /\ calendar d = Some (1922, 3, 2).
Proof. eexists. split; [vm_compute; reflexivity|]. vm_compute. reflexivity. Qed.

End BackupDate.

(** ** deleteAll *)

Module Deletion.
Import Files.

Lemma count_commands_app_s3 (f : S3.command -> bool) (a b : list S3.command) :
  S3.count_commands f (a ++ b)
  = (S3.count_commands f a + S3.count_commands f b)%nat.
Proof. unfold S3.count_commands. now rewrite filter_app, length_app. Qed.

Lemma count_commands_app_gcs (f : GCS.command -> bool) (a b : list GCS.command) :
  GCS.count_commands f (a ++ b)
  = (GCS.count_commands f a + GCS.count_commands f b)%nat.
Proof. unfold GCS.count_commands. now rewrite filter_app, length_app. Qed.

(** *** Amazon S3 *)

Section OnS3.

Import S3.
Context {World : Type}.
Variable s3 : Client World.

Local Abbreviation deletions := (count_commands is_bucket_deletion).

(** A single deletion settles, and sends no bucket deletion. *)
Lemma s3_deleteObjectVersion_settles (w : World) (b p v : string) (c : Credentials) :
  let '(r, log, _) := deleteObjectVersion s3 w b p v c in
  r <> Pending /\ deletions log = 0%nat.
Proof.
  unfold deleteObjectVersion.
  destruct (bucket c) as [[| | | |sb]|];
    try (split; [discriminate|reflexivity]).
  - destruct (0 <? String.length sb)%nat.
    + destruct (sendDelete s3 w _) as [[e|] w']; split;
        try discriminate; reflexivity.
    + split; [discriminate|reflexivity].
  - destruct (sendDelete s3 w _) as [[e|] w']; split;
      try discriminate; reflexivity.
Qed.

(** The worker adds one to exactly one of the two accumulators. *)
Lemma s3_work_counts (c : Counters) (log : list command) (w : World) (t : Task) :
  let '(c', log', _) := work s3 (c, log, w) t in
  (itemsDeletedCount c' + List.length (failedItems c')
   = S (itemsDeletedCount c + List.length (failedItems c)))%nat
  /\ deletions log' = deletions log.
Proof.
  unfold work.
  pose proof (s3_deleteObjectVersion_settles w (bucketName t) (path t)
                (versionId t) (credentials t)) as H.
  destruct (deleteObjectVersion s3 w (bucketName t) (path t) (versionId t)
              (credentials t)) as [[r l] w'].
  destruct H as [Hr Hl].
  destruct r as [|msg|e]; [congruence| |]; cbn [itemsDeletedCount failedItems];
    rewrite count_commands_app_s3, Hl, ?length_app; cbn [List.length]; lia.
Qed.

Lemma s3_run_queue_counts (order : list Task) :
  forall (c : Counters) (log : list command) (w : World),
    let '(c', log', _) := fold_left (work s3) order (c, log, w) in
    (itemsDeletedCount c' + List.length (failedItems c')
     = itemsDeletedCount c + List.length (failedItems c) + List.length order)%nat
    /\ deletions log' = deletions log.
Proof.
  induction order as [|t r IH]; intros c log w.
  - cbn. split; [lia|reflexivity].
  - cbn [fold_left List.length].
    pose proof (s3_work_counts c log w t) as H.
    destruct (work s3 (c, log, w) t) as [[c1 log1] w1].
    specialize (IH c1 log1 w1).
    destruct (fold_left (work s3) r (c1, log1, w1)) as [[c2 log2] w2].
    destruct H as [H1 H2], IH as [IH1 IH2]. split; [lia|congruence].
Qed.

(** A listing sends listing commands only. *)
Lemma list_pages_sends_lists (fuel : nat) :
  forall (w : World) (p : ListParams) (acc : Listing) (log : list command),
    deletions (snd (fst (list_pages s3 fuel w p acc log))) = deletions log.
Proof.
  induction fuel as [|n IH]; intros w p acc log; [reflexivity|].
  cbn [list_pages].
  destruct (sendList s3 w p) as [[e|page] w']; cbn [fst snd].
  - rewrite count_commands_app_s3. cbn. lia.
  - destruct (IsTruncated page).
    + destruct (pageVersions page) as [vs|]; cbn [fst snd].
      * destruct (last_entry vs) as [v|]; cbn [fst snd].
        -- rewrite IH, count_commands_app_s3. cbn. lia.
        -- rewrite count_commands_app_s3. cbn. lia.
      * rewrite count_commands_app_s3. cbn. lia.
    + cbn [fst snd]. rewrite count_commands_app_s3. cbn. lia.
Qed.

Lemma s3_listFileVersions_sends_lists (fuel : nat) (w : World) (b f : string)
    (c : Credentials) :
  deletions (snd (fst (listFileVersions s3 fuel w b f c))) = 0%nat.
Proof. unfold listFileVersions. now rewrite list_pages_sends_lists. Qed.

Lemma s3_tasks_of_length (b : string) (c : Credentials) (files : Listing) :
  List.length (tasks_of b c files)
  = (List.length (Versions files) + List.length (DeleteMarkers files))%nat.
Proof. unfold tasks_of. now rewrite length_app, !length_map. Qed.

(** The second listing leads to one bucket deletion or to none. *)
Lemma s3_relist_deletions (fuel : nat) (w : World) (b f : string)
    (c : Credentials) (k : Counters) :
  deletions (snd (fst (relist s3 fuel w b f c k)))
  = match fst (fst (listFileVersions s3 fuel w b "" c)), bucket c with
    | Resolved remaining, None =>
        if (List.length (Versions remaining)
            + List.length (DeleteMarkers remaining) =? 0)%nat
        then 1%nat else 0%nat
    | _, _ => 0%nat
    end.
Proof.
  unfold relist.
  pose proof (s3_listFileVersions_sends_lists fuel w b "" c) as Hl.
  destruct (listFileVersions s3 fuel w b "" c) as [[r log] w1].
  cbn [fst snd] in *.
  destruct r as [|remaining|e]; cbn [fst snd]; try exact Hl.
  destruct (List.length (Versions remaining)
            + List.length (DeleteMarkers remaining) =? 0)%nat;
    destruct (bucket c); cbn [andb fst snd]; try exact Hl.
  destruct (sendDeleteBucket s3 w1 b) as [[e|] w2]; cbn [fst snd];
    rewrite count_commands_app_s3, Hl; reflexivity.
Qed.

Variable order : list Task -> list Task.
Hypothesis order_permutes : forall l, Permutation (order l) l.

(** [deleteAll] after a listing that resolved, in its parts. *)
Lemma s3_deleteAll_parts (fuel : nat) (w : World) (b f : string)
    (c : Credentials) (files : Listing) (log0 log1 : list command)
    (w0 w1 : World) (k : Counters) :
  listFileVersions s3 fuel w b f c = (Resolved files, log0, w0) ->
  run_queue s3 (order (tasks_of b c files)) log0 w0 = (k, log1, w1) ->
  deleteAll s3 order fuel w b f c
  = let later := if String.eqb f "" then relist s3 fuel w1 b f c k
                 else ([], [], w1) in
    {| sent := log1 ++ snd (fst later);
       counters := Some k;
       thrown := fst (report b f k);
       calls := snd (report b f k) ++ fst (fst later);
       world := snd later |}.
Proof.
  intros Hlist Hqueue. unfold deleteAll. rewrite Hlist, Hqueue.
  destruct (if String.eqb f "" then relist s3 fuel w1 b f c k else ([], [], w1))
    as [[later log2] w2].
  destruct (report b f k) as [exception now]. reflexivity.
Qed.

(** The accumulators at the drain, over a listing of K versions and M
    delete markers. *)
Lemma s3_counters (files : Listing) (b : string) (c : Credentials)
    (log0 log1 : list command) (w0 w1 : World) (k : Counters) :
  run_queue s3 (order (tasks_of b c files)) log0 w0 = (k, log1, w1) ->
  (itemsDeletedCount k + List.length (failedItems k)
   = List.length (Versions files) + List.length (DeleteMarkers files))%nat
  /\ deletions log1 = deletions log0.
Proof.
  unfold run_queue. intros Hqueue.
  pose proof (s3_run_queue_counts (order (tasks_of b c files))
                {| itemsDeletedCount := 0; failedItems := [] |} log0 w0) as H.
  rewrite Hqueue in H. destruct H as [H1 H2].
  rewrite (Permutation_length (order_permutes _)), s3_tasks_of_length in H1.
  cbn [itemsDeletedCount failedItems List.length] in H1.
  split; [lia|exact H2].
Qed.

(** What the drain callback calls at once. *)
Lemma s3_report_cases (b f : string) (k : Counters) :
  (failedItems k = []
   /\ report b f k = (None, [Resolve (deleted_message (itemsDeletedCount k) b f)]))
  \/ (failedItems k <> []
      /\ report b f k
         = (Some (ErrType "failedItems.substring is not a function"), [])).
Proof.
  unfold report. destruct (failedItems k) as [|x r].
  - left. split; reflexivity.
  - right. split; [discriminate|reflexivity].
Qed.

(** What the second listing resolves with. *)
Lemma s3_relist_resolves (fuel : nat) (w : World) (b f : string) (c : Credentials)
    (k : Counters) (msg : string) :
  In (Resolve msg) (fst (fst (relist s3 fuel w b f c k))) ->
  msg = deleted_message (itemsDeletedCount k) b f
        +++ " and deleted bucket successfully".
Proof.
  unfold relist.
  destruct (listFileVersions s3 fuel w b "" c) as [[r log] w1].
  destruct r as [|remaining|e]; cbn [fst]; try contradiction.
  - destruct ((List.length (Versions remaining)
               + List.length (DeleteMarkers remaining) =? 0)%nat
              && match bucket c with Some _ => false | None => true end);
      [|contradiction].
    destruct (sendDeleteBucket s3 w1 b) as [[e|] w2]; cbn [fst].
    + intros [H|[]]. discriminate H.
    + intros [H|[]]. now injection H as <-.
  - intros [H|[]]. discriminate H.
Qed.

End OnS3.

(** *** Google Cloud Storage *)

Section OnGCS.

Import GCS.
Context {World : Type}.
Variable gcs : Client World.

Local Abbreviation deletions := (count_commands is_bucket_deletion).

Lemma gcs_deleteObjectVersion_settles (w : World) (b p : string) (v : Z)
    (c : Credentials) :
  let '(r, log, _) := deleteObjectVersion gcs w b p v c in
  r <> Pending /\ deletions log = 0%nat.
Proof.
  unfold deleteObjectVersion.
  destruct (bucketExists gcs w b) as [[e|[|]] w1];
    try (split; [discriminate|reflexivity]).
  destruct (fileDelete gcs w1 b p v) as [[e|] w2]; split;
    try discriminate; reflexivity.
Qed.

Lemma gcs_work_counts (c : Counters) (log : list command) (w : World) (t : Task) :
  let '(c', log', _) := work gcs (c, log, w) t in
  (itemsDeletedCount c' + List.length (failedItems c')
   = S (itemsDeletedCount c + List.length (failedItems c)))%nat
  /\ deletions log' = deletions log.
Proof.
  unfold work.
  pose proof (gcs_deleteObjectVersion_settles w (bucketName t) (path t)
                (versionId t) (credentials t)) as H.
  destruct (deleteObjectVersion gcs w (bucketName t) (path t) (versionId t)
              (credentials t)) as [[r l] w'].
  destruct H as [Hr Hl].
  destruct r as [|msg|e]; [congruence| |]; cbn [itemsDeletedCount failedItems];
    rewrite count_commands_app_gcs, Hl, ?length_app; cbn [List.length]; lia.
Qed.

Lemma gcs_run_queue_counts (order : list Task) :
  forall (c : Counters) (log : list command) (w : World),
    let '(c', log', _) := fold_left (work gcs) order (c, log, w) in
    (itemsDeletedCount c' + List.length (failedItems c')
     = itemsDeletedCount c + List.length (failedItems c) + List.length order)%nat
    /\ deletions log' = deletions log.
Proof.
  induction order as [|t r IH]; intros c log w.
  - cbn. split; [lia|reflexivity].
  - cbn [fold_left List.length].
    pose proof (gcs_work_counts c log w t) as H.
    destruct (work gcs (c, log, w) t) as [[c1 log1] w1].
    specialize (IH c1 log1 w1).
    destruct (fold_left (work gcs) r (c1, log1, w1)) as [[c2 log2] w2].
    destruct H as [H1 H2], IH as [IH1 IH2]. split; [lia|congruence].
Qed.

Lemma gcs_listFileVersions_sends_lists (w : World) (b f : string)
    (c : Credentials) :
  deletions (snd (fst (listFileVersions gcs w b f c))) = 0%nat.
Proof.
  unfold listFileVersions.
  destruct (bucketExists gcs w b) as [[e|[|]] w1]; try reflexivity.
  destruct (getFiles gcs w1 b f) as [files w2]. reflexivity.
Qed.

(** The second listing leads to one bucket deletion or to none; the
    credentials have no part in it. *)
Lemma gcs_relist_deletions (w : World) (b f : string) (c : Credentials)
    (k : Counters) :
  deletions (snd (fst (relist gcs w b f c k)))
  = match fst (fst (listFileVersions gcs w b "" c)) with
    | Resolved remaining =>
        if (List.length remaining =? 0)%nat then 1%nat else 0%nat
    | _ => 0%nat
    end.
Proof.
  unfold relist.
  pose proof (gcs_listFileVersions_sends_lists w b "" c) as Hl.
  destruct (listFileVersions gcs w b "" c) as [[r log] w1].
  cbn [fst snd] in *.
  destruct r as [|remaining|e]; cbn [fst snd]; try exact Hl.
  destruct (List.length remaining =? 0)%nat; cbn [fst snd]; try exact Hl.
  destruct (bucketDelete gcs w1 b) as [[e|] w2]; cbn [fst snd];
    rewrite count_commands_app_gcs, Hl; reflexivity.
Qed.

Variable order : list Task -> list Task.
Hypothesis order_permutes : forall l, Permutation (order l) l.

Lemma gcs_deleteAll_parts (w : World) (b f : string) (c : Credentials)
    (files : list File) (log0 log1 : list command) (w0 w1 : World)
    (k : Counters) :
  listFileVersions gcs w b f c = (Resolved files, log0, w0) ->
  run_queue gcs (order (tasks_of b c files)) log0 w0 = (k, log1, w1) ->
  deleteAll gcs order w b f c
  = let later := if String.eqb f "" then relist gcs w1 b f c k
                 else ([], [], w1) in
    {| sent := log1 ++ snd (fst later);
       counters := Some k;
       thrown := fst (report b f k);
       calls := snd (report b f k) ++ fst (fst later);
       world := snd later |}.
Proof.
  intros Hlist Hqueue. unfold deleteAll. rewrite Hlist, Hqueue.
  destruct (if String.eqb f "" then relist gcs w1 b f c k else ([], [], w1))
    as [[later log2] w2].
  destruct (report b f k) as [exception now]. reflexivity.
Qed.

Lemma gcs_counters (files : list File) (b : string) (c : Credentials)
    (log0 log1 : list command) (w0 w1 : World) (k : Counters) :
  run_queue gcs (order (tasks_of b c files)) log0 w0 = (k, log1, w1) ->
  (itemsDeletedCount k + List.length (failedItems k) = List.length files)%nat
  /\ deletions log1 = deletions log0.
Proof.
  unfold run_queue. intros Hqueue.
  pose proof (gcs_run_queue_counts (order (tasks_of b c files))
                {| itemsDeletedCount := 0; failedItems := [] |} log0 w0) as H.
  rewrite Hqueue in H. destruct H as [H1 H2].
  rewrite (Permutation_length (order_permutes _)) in H1.
  unfold tasks_of in H1. rewrite length_map in H1.
  cbn [itemsDeletedCount failedItems List.length] in H1.
  split; [lia|exact H2].
Qed.

Lemma gcs_report_cases (b f : string) (k : Counters) :
  (failedItems k = []
   /\ report b f k = (None, [Resolve (deleted_message (itemsDeletedCount k) b f)]))
  \/ (failedItems k <> []
      /\ report b f k
         = (Some (ErrType "failedItems.substring is not a function"), [])).
Proof.
  unfold report. destruct (failedItems k) as [|x r].
  - left. split; reflexivity.
  - right. split; [discriminate|reflexivity].
Qed.

Lemma gcs_relist_resolves (w : World) (b f : string) (c : Credentials)
    (k : Counters) (msg : string) :
  In (Resolve msg) (fst (fst (relist gcs w b f c k))) ->
  msg = deleted_message (itemsDeletedCount k) b f
        +++ " and deleted bucket successfully".
Proof.
  unfold relist.
  destruct (listFileVersions gcs w b "" c) as [[r log] w1].
  destruct r as [|remaining|e]; cbn [fst]; try contradiction.
  destruct (List.length remaining =? 0)%nat; [|contradiction].
  destruct (bucketDelete gcs w1 b) as [[e|] w2]; cbn [fst].
  - intros [H|[]]. discriminate H.
  - intros [H|[]]. now injection H as <-.
Qed.

End OnGCS.

Lemma settled_resolved_in {A} (l : list (settle A)) (v : A) :
  settled l = Resolved v -> In (Resolve v) l.
Proof.
  destruct l as [|[x|e] r]; cbn; try discriminate.
  intros [= ->]. now left.
Qed.

(** A run of [deleteAll] over a listing of K object versions and M
    delete markers (for Google Cloud Storage, of K files) ends with
    accumulators such that the number of deleted items plus the number of
    failed items is K + M, in whatever order the queue works the tasks off
    and whichever deletions fail; the number deleted is at most K + M, and
    it is the number every message the promise resolves with reports. *)
Theorem deleteAll_counts_every_item :
  (forall (World : Type) (s3 : S3.Client World)
          (order : list S3.Task -> list S3.Task) (fuel : nat) (w : World)
          (b f : string) (c : Credentials) (files : S3.Listing)
          (log0 : list S3.command) (w0 : World),
      (forall l, Permutation (order l) l) ->
      S3.listFileVersions s3 fuel w b f c = (Resolved files, log0, w0) ->
      exists k,
        S3.counters (S3.deleteAll s3 order fuel w b f c) = Some k
        /\ (S3.itemsDeletedCount k + List.length (S3.failedItems k)
            = List.length (S3.Versions files)
              + List.length (S3.DeleteMarkers files))%nat
        /\ (S3.itemsDeletedCount k
            <= List.length (S3.Versions files)
               + List.length (S3.DeleteMarkers files))%nat
        /\ forall msg,
             S3.result (S3.deleteAll s3 order fuel w b f c) = Resolved msg ->
             msg = S3.deleted_message (S3.itemsDeletedCount k) b f
             \/ msg = S3.deleted_message (S3.itemsDeletedCount k) b f
                      +++ " and deleted bucket successfully")
  /\ (forall (World : Type) (gcs : GCS.Client World)
             (order : list GCS.Task -> list GCS.Task) (w : World)
             (b f : string) (c : Credentials) (files : list GCS.File)
             (log0 : list GCS.command) (w0 : World),
         (forall l, Permutation (order l) l) ->
         GCS.listFileVersions gcs w b f c = (Resolved files, log0, w0) ->
         exists k,
           GCS.counters (GCS.deleteAll gcs order w b f c) = Some k
           /\ (GCS.itemsDeletedCount k + List.length (GCS.failedItems k)
               = List.length files)%nat
           /\ (GCS.itemsDeletedCount k <= List.length files)%nat
           /\ forall msg,
                GCS.result (GCS.deleteAll gcs order w b f c) = Resolved msg ->
                msg = GCS.deleted_message (GCS.itemsDeletedCount k) b f
                \/ msg = GCS.deleted_message (GCS.itemsDeletedCount k) b f
                         +++ " and deleted bucket successfully").
Proof.
  split.
  - intros World s3 order fuel w b f c files log0 w0 Hperm Hlist.
    destruct (S3.run_queue s3 (order (S3.tasks_of b c files)) log0 w0)
      as [[k log1] w1] eqn:Hqueue.
    destruct (s3_counters s3 order Hperm files b c log0 log1 w0 w1 k Hqueue)
      as [Hsum _].
    rewrite (s3_deleteAll_parts s3 order fuel w b f c files log0 log1 w0 w1 k
               Hlist Hqueue).
    exists k. cbv zeta. unfold S3.result. cbn [S3.counters S3.calls].
    split; [reflexivity|]. split; [exact Hsum|]. split; [lia|].
    intros msg Hmsg. apply settled_resolved_in, in_app_or in Hmsg.
    destruct Hmsg as [Hnow|Hlater].
    + destruct (s3_report_cases b f k) as [[_ E]|[_ E]]; rewrite E in Hnow;
        cbn [snd] in Hnow; [|contradiction].
      destruct Hnow as [H|[]]. injection H as <-. now left.
    + destruct (String.eqb f ""); [|contradiction].
      right. exact (s3_relist_resolves s3 fuel w1 b f c k msg Hlater).
  - intros World gcs order w b f c files log0 w0 Hperm Hlist.
    destruct (GCS.run_queue gcs (order (GCS.tasks_of b c files)) log0 w0)
      as [[k log1] w1] eqn:Hqueue.
    destruct (gcs_counters gcs order Hperm files b c log0 log1 w0 w1 k Hqueue)
      as [Hsum _].
    rewrite (gcs_deleteAll_parts gcs order w b f c files log0 log1 w0 w1 k
               Hlist Hqueue).
    exists k. cbv zeta. unfold GCS.result. cbn [GCS.counters GCS.calls].
    split; [reflexivity|]. split; [exact Hsum|]. split; [lia|].
    intros msg Hmsg. apply settled_resolved_in, in_app_or in Hmsg.
    destruct Hmsg as [Hnow|Hlater].
    + destruct (gcs_report_cases b f k) as [[_ E]|[_ E]]; rewrite E in Hnow;
        cbn [snd] in Hnow; [|contradiction].
      destruct Hnow as [H|[]]. injection H as <-. now left.
    + destruct (String.eqb f ""); [|contradiction].
      right. exact (gcs_relist_resolves gcs w1 b f c k msg Hlater).
Qed.

Lemma deleteAll_counts_every_item_witness :
  (forall l : list S3.Task, Permutation (rev l) l)
  /\ S3.listFileVersions S3.denying 5 S3.sample "inst" "backups/b1" dedicated
     = (Resolved {| S3.Versions := S3.sample; S3.DeleteMarkers := [] |},
        [S3.ListObjectVersionsCommand
           {| S3.Bucket := "inst"; S3.Prefix := "backups/b1";
              S3.KeyMarker := None |}],
        S3.sample)
  /\ exists k,
       S3.counters (S3.deleteAll S3.denying (@rev S3.Task) 5 S3.sample "inst"
                      "backups/b1" dedicated) = Some k
       /\ (S3.itemsDeletedCount k + List.length (S3.failedItems k) = 2 + 0)%nat.
Proof.
  assert (Hperm : forall l : list S3.Task, Permutation (rev l) l)
    by (intros l; symmetry; apply Permutation_rev).
  assert (Hlist :
    S3.listFileVersions S3.denying 5 S3.sample "inst" "backups/b1" dedicated
    = (Resolved {| S3.Versions := S3.sample; S3.DeleteMarkers := [] |},
       [S3.ListObjectVersionsCommand
          {| S3.Bucket := "inst"; S3.Prefix := "backups/b1";
             S3.KeyMarker := None |}],
       S3.sample)) by reflexivity.
  split; [exact Hperm|]. split; [exact Hlist|].
  destruct (proj1 deleteAll_counts_every_item _ S3.denying (@rev S3.Task) 5
              S3.sample "inst" "backups/b1" dedicated _ _ _ Hperm Hlist)
    as [k [Hk [Hsum _]]].
  exists k. split; [exact Hk|exact Hsum].
Defined.

(** C3.  What [deleteAll] reports when a deletion has failed, over a
    listing of K = 2 versions and M = 0 delete markers.  The accumulators
    hold what the claim says, but the outcome does not: the drain callback
    raises the TypeError of [failedItems.substring] before it builds the
    error that carries the failed items.  On a backup folder of a bucket
    in which one version is held, one item is deleted and one has failed,
    and nothing is reported at all: the promise stays pending.  On the
    root of a bucket whose deletions are carried out but answered with an
    error, the listing after the drain is empty, the bucket is deleted,
    and the promise resolves with a count of 0 and without a failed item,
    where 0 + 0 is not 2.  The same holds for Google Cloud Storage. *)
Theorem reported_outcome_loses_the_failed_items :
  (let run := S3.deleteAll S3.held (fun l => l) 5 S3.sample "inst" "backups/b1"
                dedicated in
   fst (fst (S3.listFileVersions S3.held 5 S3.sample "inst" "backups/b1" dedicated))
   = Resolved {| S3.Versions := S3.sample; S3.DeleteMarkers := [] |}
   /\ List.length S3.sample = 2%nat
   /\ S3.counters run
      = Some {| S3.itemsDeletedCount := 1;
                S3.failedItems :=
                  [S3.mkFailed "inst" "backups/b1/data" "v1"
                     (ErrProvider "AccessDenied")] |}
   /\ S3.thrown run = Some (ErrType "failedItems.substring is not a function")
   /\ S3.calls run = []
   /\ S3.result run = Pending)
  /\ (let run := S3.deleteAll S3.unanswered (fun l => l) 5 S3.sample "inst" ""
                   dedicated in
      fst (fst (S3.listFileVersions S3.unanswered 5 S3.sample "inst" "" dedicated))
      = Resolved {| S3.Versions := S3.sample; S3.DeleteMarkers := [] |}
      /\ S3.counters run
         = Some {| S3.itemsDeletedCount := 0;
                   S3.failedItems :=
                     [S3.mkFailed "inst" "backups/b1/data" "v2"
                        (ErrProvider "RequestTimeout");
                      S3.mkFailed "inst" "backups/b1/data" "v1"
                        (ErrProvider "RequestTimeout")] |}
      /\ S3.thrown run = Some (ErrType "failedItems.substring is not a function")
      /\ S3.calls run
         = [Resolve "Deleted 0 objects from inst/ and deleted bucket successfully"]
      /\ S3.result run
         = Resolved "Deleted 0 objects from inst/ and deleted bucket successfully")
  /\ (let run := GCS.deleteAll GCS.unanswered (fun l => l) GCS.sample "inst" ""
                   dedicated in
      fst (fst (GCS.listFileVersions GCS.unanswered GCS.sample "inst" "" dedicated))
      = Resolved GCS.sample
      /\ List.length GCS.sample = 2%nat
      /\ GCS.counters run
         = Some {| GCS.itemsDeletedCount := 0;
                   GCS.failedItems :=
                     [GCS.mkFailed "inst" "backups/b1/data" 2
                        (ErrProvider "ETIMEDOUT");
                      GCS.mkFailed "inst" "backups/b1/data" 1
                        (ErrProvider "ETIMEDOUT")] |}
      /\ GCS.thrown run = Some (ErrType "failedItems.substring is not a function")
      /\ GCS.result run
         = Resolved "Deleted 0 objects from inst/ and deleted bucket successfully").
Proof.
  cbv zeta. repeat split; vm_compute; reflexivity.
Qed.

(** *** The outcome of a run *)

(** With no failed item the promise resolves with the count of all items;
    with a failed item the drain callback raises a TypeError where it
    builds the message of the aggregate error, and for a folder other than
    the root nothing settles the promise. *)
Lemma s3_outcome {World : Type} (s3 : S3.Client World)
    (order : list S3.Task -> list S3.Task) (fuel : nat) (w : World)
    (b f : string) (c : Credentials) (files : S3.Listing)
    (log0 log1 : list S3.command) (w0 w1 : World) (k : S3.Counters) :
  (forall l, Permutation (order l) l) ->
  S3.listFileVersions s3 fuel w b f c = (Resolved files, log0, w0) ->
  S3.run_queue s3 (order (S3.tasks_of b c files)) log0 w0 = (k, log1, w1) ->
  (S3.failedItems k = [] ->
   S3.result (S3.deleteAll s3 order fuel w b f c)
   = Resolved (S3.deleted_message
                 (List.length (S3.Versions files)
                  + List.length (S3.DeleteMarkers files)) b f))
  /\ (S3.failedItems k <> [] ->
      S3.thrown (S3.deleteAll s3 order fuel w b f c)
      = Some (ErrType "failedItems.substring is not a function")
      /\ (f <> "" -> S3.result (S3.deleteAll s3 order fuel w b f c) = Pending)).
Proof.
  intros Hperm Hlist Hqueue.
  destruct (s3_counters s3 order Hperm files b c log0 log1 w0 w1 k Hqueue)
    as [Hsum _].
  rewrite (s3_deleteAll_parts s3 order fuel w b f c files log0 log1 w0 w1 k
             Hlist Hqueue).
  cbv zeta. unfold S3.result. cbn [S3.calls S3.thrown].
  destruct (s3_report_cases b f k) as [[Hnone E]|[Hsome E]]; rewrite E;
    cbn [fst snd]; split; intros H; try contradiction.
  - rewrite Hnone in Hsum. cbn [List.length] in Hsum.
    rewrite Nat.add_0_r in Hsum. rewrite Hsum. reflexivity.
  - split; [reflexivity|]. intros Hf. apply String.eqb_neq in Hf.
    rewrite Hf. reflexivity.
Qed.

Lemma s3_outcome_witness :
  S3.result (S3.deleteAll S3.store (fun l => l) 5 S3.sample "inst" "backups/b1"
               dedicated)
  = Resolved (S3.deleted_message 2 "inst" "backups/b1")
  /\ S3.thrown (S3.deleteAll S3.denying (fun l => l) 5 S3.sample "inst"
                  "backups/b1" dedicated)
     = Some (ErrType "failedItems.substring is not a function").
Proof.
  assert (Hperm : forall l : list S3.Task, Permutation l l)
    by (intros l; apply Permutation_refl).
  split.
  - exact (proj1 (s3_outcome S3.store (fun l => l) 5 S3.sample "inst" "backups/b1"
                    dedicated {| S3.Versions := S3.sample; S3.DeleteMarkers := [] |}
                    _ _ _ _ _ Hperm eq_refl eq_refl) eq_refl).
  - refine (proj1 (proj2 (s3_outcome S3.denying (fun l => l) 5 S3.sample "inst"
                            "backups/b1" dedicated
                            {| S3.Versions := S3.sample; S3.DeleteMarkers := [] |}
                            _ _ _ _ _ Hperm eq_refl eq_refl) _)).
    cbv. discriminate.
Defined.

(** The same outcome for Google Cloud Storage: with no failed file the
    promise resolves with the count of the listed files; with a failed
    file the drain callback raises a TypeError, and for a folder other
    than the root nothing settles the promise. *)
Lemma gcs_outcome {World : Type} (gcs : GCS.Client World)
    (order : list GCS.Task -> list GCS.Task) (w : World)
    (b f : string) (c : Credentials) (files : list GCS.File)
    (log0 log1 : list GCS.command) (w0 w1 : World) (k : GCS.Counters) :
  (forall l, Permutation (order l) l) ->
  GCS.listFileVersions gcs w b f c = (Resolved files, log0, w0) ->
  GCS.run_queue gcs (order (GCS.tasks_of b c files)) log0 w0 = (k, log1, w1) ->
  (GCS.failedItems k = [] ->
   GCS.result (GCS.deleteAll gcs order w b f c)
   = Resolved (GCS.deleted_message (List.length files) b f))
  /\ (GCS.failedItems k <> [] ->
      GCS.thrown (GCS.deleteAll gcs order w b f c)
      = Some (ErrType "failedItems.substring is not a function")
      /\ (f <> "" -> GCS.result (GCS.deleteAll gcs order w b f c) = Pending)).
Proof.
  intros Hperm Hlist Hqueue.
  destruct (gcs_counters gcs order Hperm files b c log0 log1 w0 w1 k Hqueue)
    as [Hsum _].
  rewrite (gcs_deleteAll_parts gcs order w b f c files log0 log1 w0 w1 k
             Hlist Hqueue).
  cbv zeta. unfold GCS.result. cbn [GCS.calls GCS.thrown].
  destruct (gcs_report_cases b f k) as [[Hnone E]|[Hsome E]]; rewrite E;
    cbn [fst snd]; split; intros H; try contradiction.
  - rewrite Hnone in Hsum. cbn [List.length] in Hsum.
    rewrite Nat.add_0_r in Hsum. rewrite Hsum. reflexivity.
  - split; [reflexivity|]. intros Hf. apply String.eqb_neq in Hf.
    rewrite Hf. reflexivity.
Qed.

Lemma gcs_outcome_witness :
  GCS.result (GCS.deleteAll GCS.store (fun l => l) GCS.sample "inst" "backups/b1"
                dedicated)
  = Resolved (GCS.deleted_message 2 "inst" "backups/b1")
  /\ GCS.thrown (GCS.deleteAll GCS.denying (fun l => l) GCS.sample "inst"
                   "backups/b1" dedicated)
     = Some (ErrType "failedItems.substring is not a function").
Proof.
  assert (Hperm : forall l : list GCS.Task, Permutation l l)
    by (intros l; apply Permutation_refl).
  split.
  - exact (proj1 (gcs_outcome GCS.store (fun l => l) GCS.sample "inst" "backups/b1"
                    dedicated GCS.sample
                    _ _ _ _ _ Hperm eq_refl eq_refl) eq_refl).
  - refine (proj1 (proj2 (gcs_outcome GCS.denying (fun l => l) GCS.sample "inst"
                            "backups/b1" dedicated GCS.sample
                            _ _ _ _ _ Hperm eq_refl eq_refl) _)).
    cbv. discriminate.
Defined.

(** C4.  [deleteAll] on a backup folder holding two versions, when the
    provider denies the deletions.  Both tasks run and both failures are
    recorded, so no failure stops the batch; but the drain callback then
    calls [substring] on the array [failedItems], which raises a TypeError
    before the aggregate error is built: [reject] is never called, and the
    promise stays pending instead of failing with the list of failed items
    and the count of deleted ones.  The same holds for both connectors. *)
Theorem failed_items_are_never_reported :
  (let run := S3.deleteAll S3.denying (fun l => l) 5 S3.sample "inst"
                "backups/b1" dedicated in
   S3.counters run
   = Some {| S3.itemsDeletedCount := 0;
             S3.failedItems :=
               [S3.mkFailed "inst" "backups/b1/data" "v2" (ErrProvider "AccessDenied");
                S3.mkFailed "inst" "backups/b1/data" "v1" (ErrProvider "AccessDenied")] |}
   /\ S3.thrown run = Some (ErrType "failedItems.substring is not a function")
   /\ S3.calls run = []
   /\ S3.result run = Pending)
  /\ (let run := GCS.deleteAll GCS.denying (fun l => l) GCS.sample "inst"
                   "backups/b1" dedicated in
      GCS.counters run
      = Some {| GCS.itemsDeletedCount := 0;
                GCS.failedItems :=
                  [GCS.mkFailed "inst" "backups/b1/data" 2 (ErrProvider "forbidden");
                   GCS.mkFailed "inst" "backups/b1/data" 1 (ErrProvider "forbidden")] |}
      /\ GCS.thrown run = Some (ErrType "failedItems.substring is not a function")
      /\ GCS.calls run = []
      /\ GCS.result run = Pending).
Proof.
  cbv zeta. repeat split; vm_compute; reflexivity.
Qed.

(** *** The deletion of the bucket *)

(** C9, as the connectors behave.  After the queue has drained, a run with
    an empty folder lists the root once more.  The S3 connector then sends
    exactly one bucket deletion when the credentials name no shared bucket
    and that listing holds no version and no delete marker, and none when
    the credentials name a shared bucket or something remains.  The Google
    Cloud Storage connector knows no shared bucket: it sends exactly one
    bucket deletion when that listing is empty, whatever the credentials
    hold, and none when something remains.  With a folder that is not
    empty, or when the second listing fails, neither sends one. *)
Theorem bucket_deletion_after_drain :
  (forall (World : Type) (s3 : S3.Client World)
          (order : list S3.Task -> list S3.Task) (fuel : nat) (w : World)
          (b f : string) (c : Credentials) (files : S3.Listing)
          (log0 log1 : list S3.command) (w0 w1 : World) (k : S3.Counters),
      (forall l, Permutation (order l) l) ->
      S3.listFileVersions s3 fuel w b f c = (Resolved files, log0, w0) ->
      S3.run_queue s3 (order (S3.tasks_of b c files)) log0 w0 = (k, log1, w1) ->
      S3.sent (S3.deleteAll s3 order fuel w b f c)
      = log1 ++ (if String.eqb f ""
                 then snd (fst (S3.relist s3 fuel w1 b f c k)) else [])
      /\ S3.count_commands S3.is_bucket_deletion log1 = 0%nat
      /\ S3.count_commands S3.is_bucket_deletion
           (S3.sent (S3.deleteAll s3 order fuel w b f c))
         = if String.eqb f "" then
             match fst (fst (S3.listFileVersions s3 fuel w1 b "" c)), bucket c with
             | Resolved remaining, None =>
                 if (List.length (S3.Versions remaining)
                     + List.length (S3.DeleteMarkers remaining) =? 0)%nat
                 then 1%nat else 0%nat
             | _, _ => 0%nat
             end
           else 0%nat)
  /\ (forall (World : Type) (gcs : GCS.Client World)
             (order : list GCS.Task -> list GCS.Task) (w : World)
             (b f : string) (c : Credentials) (files : list GCS.File)
             (log0 log1 : list GCS.command) (w0 w1 : World) (k : GCS.Counters),
         (forall l, Permutation (order l) l) ->
         GCS.listFileVersions gcs w b f c = (Resolved files, log0, w0) ->
         GCS.run_queue gcs (order (GCS.tasks_of b c files)) log0 w0 = (k, log1, w1) ->
         GCS.sent (GCS.deleteAll gcs order w b f c)
         = log1 ++ (if String.eqb f ""
                    then snd (fst (GCS.relist gcs w1 b f c k)) else [])
         /\ GCS.count_commands GCS.is_bucket_deletion log1 = 0%nat
         /\ GCS.count_commands GCS.is_bucket_deletion
              (GCS.sent (GCS.deleteAll gcs order w b f c))
            = if String.eqb f "" then
                match fst (fst (GCS.listFileVersions gcs w1 b "" c)) with
                | Resolved remaining =>
                    if (List.length remaining =? 0)%nat then 1%nat else 0%nat
                | _ => 0%nat
                end
              else 0%nat).
Proof.
  split.
  - intros World s3 order fuel w b f c files log0 log1 w0 w1 k Hperm Hlist Hqueue.
    destruct (s3_counters s3 order Hperm files b c log0 log1 w0 w1 k Hqueue)
      as [_ Hlog].
    pose proof (s3_listFileVersions_sends_lists s3 fuel w b f c) as Hl0.
    rewrite Hlist in Hl0. cbn [fst snd] in Hl0. rewrite Hl0 in Hlog.
    rewrite (s3_deleteAll_parts s3 order fuel w b f c files log0 log1 w0 w1 k
               Hlist Hqueue).
    cbv zeta. cbn [S3.sent].
    assert (Hsent :
      snd (fst (if String.eqb f "" then S3.relist s3 fuel w1 b f c k
                else ([], [], w1)))
      = if String.eqb f "" then snd (fst (S3.relist s3 fuel w1 b f c k)) else [])
      by (destruct (String.eqb f ""); reflexivity).
    rewrite Hsent. split; [reflexivity|]. split; [exact Hlog|].
    rewrite count_commands_app_s3, Hlog.
    destruct (String.eqb f ""); [|reflexivity].
    cbn [Nat.add]. apply s3_relist_deletions.
  - intros World gcs order w b f c files log0 log1 w0 w1 k Hperm Hlist Hqueue.
    destruct (gcs_counters gcs order Hperm files b c log0 log1 w0 w1 k Hqueue)
      as [_ Hlog].
    pose proof (gcs_listFileVersions_sends_lists gcs w b f c) as Hl0.
    rewrite Hlist in Hl0. cbn [fst snd] in Hl0. rewrite Hl0 in Hlog.
    rewrite (gcs_deleteAll_parts gcs order w b f c files log0 log1 w0 w1 k
               Hlist Hqueue).
    cbv zeta. cbn [GCS.sent].
    assert (Hsent :
      snd (fst (if String.eqb f "" then GCS.relist gcs w1 b f c k
                else ([], [], w1)))
      = if String.eqb f "" then snd (fst (GCS.relist gcs w1 b f c k)) else [])
      by (destruct (String.eqb f ""); reflexivity).
    rewrite Hsent. split; [reflexivity|]. split; [exact Hlog|].
    rewrite count_commands_app_gcs, Hlog.
    destruct (String.eqb f ""); [|reflexivity].
    cbn [Nat.add]. apply gcs_relist_deletions.
Qed.

Lemma bucket_deletion_after_drain_witness :
  ((forall l : list S3.Task, Permutation l l)
   /\ S3.listFileVersions S3.store 5 S3.sample "inst" "" dedicated
      = (Resolved {| S3.Versions := S3.sample; S3.DeleteMarkers := [] |},
         [S3.ListObjectVersionsCommand
            {| S3.Bucket := "inst"; S3.Prefix := ""; S3.KeyMarker := None |}],
         S3.sample)
   /\ S3.run_queue S3.store (S3.tasks_of "inst" dedicated
                               {| S3.Versions := S3.sample; S3.DeleteMarkers := [] |})
        [S3.ListObjectVersionsCommand
           {| S3.Bucket := "inst"; S3.Prefix := ""; S3.KeyMarker := None |}]
        S3.sample
      = ({| S3.itemsDeletedCount := 2; S3.failedItems := [] |},
         [S3.ListObjectVersionsCommand
            {| S3.Bucket := "inst"; S3.Prefix := ""; S3.KeyMarker := None |};
          S3.DeleteObjectCommand
            {| S3.delBucket := "inst"; S3.delKey := "backups/b1/data";
               S3.delVersionId := "v2" |};
          S3.DeleteObjectCommand
            {| S3.delBucket := "inst"; S3.delKey := "backups/b1/data";
               S3.delVersionId := "v1" |}],
         []))
  /\ S3.count_commands S3.is_bucket_deletion
       (S3.sent (S3.deleteAll S3.store (fun l => l) 5 S3.sample "inst" ""
                   dedicated))
     = 1%nat.
Proof.
  assert (Hperm : forall l : list S3.Task, Permutation l l)
    by (intros l; apply Permutation_refl).
  assert (Hlist :
    S3.listFileVersions S3.store 5 S3.sample "inst" "" dedicated
    = (Resolved {| S3.Versions := S3.sample; S3.DeleteMarkers := [] |},
       [S3.ListObjectVersionsCommand
          {| S3.Bucket := "inst"; S3.Prefix := ""; S3.KeyMarker := None |}],
       S3.sample)) by reflexivity.
  assert (Hqueue :
    S3.run_queue S3.store (S3.tasks_of "inst" dedicated
                             {| S3.Versions := S3.sample; S3.DeleteMarkers := [] |})
      [S3.ListObjectVersionsCommand
         {| S3.Bucket := "inst"; S3.Prefix := ""; S3.KeyMarker := None |}]
      S3.sample
    = ({| S3.itemsDeletedCount := 2; S3.failedItems := [] |},
       [S3.ListObjectVersionsCommand
          {| S3.Bucket := "inst"; S3.Prefix := ""; S3.KeyMarker := None |};
        S3.DeleteObjectCommand
          {| S3.delBucket := "inst"; S3.delKey := "backups/b1/data";
             S3.delVersionId := "v2" |};
        S3.DeleteObjectCommand
          {| S3.delBucket := "inst"; S3.delKey := "backups/b1/data";
             S3.delVersionId := "v1" |}],
       [])) by (vm_compute; reflexivity).
  split; [split; [exact Hperm|split; [exact Hlist|exact Hqueue]]|].
  exact (proj2 (proj2 (proj1 bucket_deletion_after_drain _ S3.store (fun l => l)
                         5 S3.sample "inst" "" dedicated _ _ _ _ _ _
                         Hperm Hlist Hqueue))).
Defined.

(** C9, against the sentence of the specification: with credentials that
    name a shared bucket, the Google Cloud Storage connector deletes the
    bucket of the installation once it lists empty. *)
Lemma gcs_deletes_bucket_despite_shared_layout :
  bucket shared = Some (JString "shared-bucket")
  /\ GCS.count_commands GCS.is_bucket_deletion
       (GCS.sent (GCS.deleteAll GCS.store (fun l => l) GCS.sample "inst" ""
                    shared))
     = 1%nat
  /\ In (GCS.BucketDelete "inst")
        (GCS.sent (GCS.deleteAll GCS.store (fun l => l) GCS.sample "inst" ""
                     shared)).
Proof.
  split; [reflexivity|]. split; [vm_compute; reflexivity|].
  vm_compute. tauto.
Qed.

End Deletion.

(** ** The paginated listing (S3) *)

Module Pagination.
Import Files S3.

Lemma drainable_tail (page next : Response) (rest : list Response) :
  drainable (page :: next :: rest) = true ->
  continues page = true /\ drainable (next :: rest) = true.
Proof.
  change (drainable (page :: next :: rest))
    with (continues page && drainable (next :: rest)).
  intros H. now apply andb_true_iff in H.
Qed.

(** The loop on pages that can be drained, served one after the other:
    it asks for each page with the cursor of the page before and ends with
    the versions and the delete markers of all of them. *)
Lemma list_pages_drains (pages : list Response) :
  forall (fuel : nat) (p : ListParams) (acc : Listing) (log : list command),
    drainable pages = true ->
    (List.length pages <= fuel)%nat ->
    list_pages paged fuel pages p acc log
    = (Resolved {| Versions := Versions acc ++ flat_map versions_of pages;
                   DeleteMarkers := DeleteMarkers acc ++ flat_map markers_of pages |},
       log ++ requests p pages, []).
Proof.
  induction pages as [|page rest IH]; intros fuel p acc log Hd Hfuel;
    [discriminate|].
  destruct fuel as [|n]; [cbn in Hfuel; lia|].
  cbn [list_pages paged sendList].
  assert (Hacc :
    {| Versions := match pageVersions page with
                   | Some vs => Versions acc ++ vs
                   | None => Versions acc
                   end;
       DeleteMarkers := match pageDeleteMarkers page with
                        | Some ms => DeleteMarkers acc ++ ms
                        | None => DeleteMarkers acc
                        end |}
    = {| Versions := Versions acc ++ versions_of page;
         DeleteMarkers := DeleteMarkers acc ++ markers_of page |}).
  { unfold versions_of, markers_of.
    destruct (pageVersions page), (pageDeleteMarkers page);
      now rewrite ?app_nil_r. }
  rewrite Hacc.
  destruct rest as [|next rest'].
  - cbn [drainable] in Hd. apply negb_true_iff in Hd. rewrite Hd.
    cbn [flat_map requests]. now rewrite !app_nil_r.
  - apply drainable_tail in Hd. destruct Hd as [Hc Hd].
    unfold continues in Hc. apply andb_true_iff in Hc. destruct Hc as [Ht Hv].
    rewrite Ht. unfold versions_of in Hv.
    destruct (pageVersions page) as [vs|] eqn:Evs; [|discriminate].
    destruct (last_entry vs) as [v|] eqn:Ev; [|discriminate].
    rewrite (IH n _ _ _ Hd ltac:(cbn [List.length] in Hfuel |- *; lia)).
    cbn [Versions DeleteMarkers flat_map requests].
    unfold cursor, versions_of. rewrite Evs, Ev. cbn [option_map].
    now rewrite <- !app_assoc.
Qed.

(** On such pages [listFileVersions] resolves with the union of the
    pages, whatever their number and their sizes. *)
Lemma listFileVersions_drains (pages : list Response) (fuel : nat)
    (bucketName folder : string) (credentials : Credentials) :
  drainable pages = true ->
  (List.length pages <= fuel)%nat ->
  listFileVersions paged fuel pages bucketName folder credentials
  = (Resolved {| Versions := flat_map versions_of pages;
                 DeleteMarkers := flat_map markers_of pages |},
     requests (list_params bucketName folder credentials) pages, []).
Proof.
  intros Hd Hfuel. unfold listFileVersions.
  now rewrite (list_pages_drains pages fuel _ _ _ Hd Hfuel).
Qed.

Lemma listFileVersions_drains_witness :
  let pages :=
    [ {| pageVersions := Some [mkVersion "backups/b1/data" "v2" true];
         pageDeleteMarkers := Some [mkVersion "backups/b1/old" "v3" true];
         IsTruncated := true |};
      {| pageVersions := Some [mkVersion "backups/b1/data" "v1" false];
         pageDeleteMarkers := None;
         IsTruncated := false |} ] in
  drainable pages = true
  /\ fst (fst (listFileVersions paged 2 pages "inst" "backups/b1" dedicated))
     = Resolved {| Versions := [mkVersion "backups/b1/data" "v2" true;
                                mkVersion "backups/b1/data" "v1" false];
                   DeleteMarkers := [mkVersion "backups/b1/old" "v3" true] |}.
Proof.
  cbv zeta. split; [reflexivity|].
  rewrite (listFileVersions_drains
             [ {| pageVersions := Some [mkVersion "backups/b1/data" "v2" true];
                  pageDeleteMarkers := Some [mkVersion "backups/b1/old" "v3" true];
                  IsTruncated := true |};
               {| pageVersions := Some [mkVersion "backups/b1/data" "v1" false];
                  pageDeleteMarkers := None;
                  IsTruncated := false |} ]
             2 "inst" "backups/b1" dedicated eq_refl (le_n 2)).
  reflexivity.
Defined.

(** C7.  The listing on a first page that holds delete markers only and
    announces a second page.  The loop takes the cursor from
    [response.Versions], which this page does not have: the TypeError is
    caught, the promise is rejected, and the second page is never asked
    for, where the union of the two pages holds one version and one delete
    marker. *)
Theorem page_without_versions_stops_the_listing :
  listFileVersions paged 5 markers_first "inst" "" dedicated
  = (Rejected (ErrType "Cannot read properties of undefined (reading 'slice')"),
     [ListObjectVersionsCommand
        {| Bucket := "inst"; Prefix := ""; KeyMarker := None |}],
     [ {| pageVersions := Some [mkVersion "backups/b2/data" "v1" true];
          pageDeleteMarkers := None;
          IsTruncated := false |} ])
  /\ flat_map versions_of markers_first = [mkVersion "backups/b2/data" "v1" true]
  /\ flat_map markers_of markers_first = [mkVersion "backups/b1/data" "v3" true].
Proof. repeat split; vm_compute; reflexivity. Qed.

End Pagination.

(** ** The transfer of a backup *)

Module Transfer.
Import Files.

(** *** Amazon S3: the entries marked latest, and only they *)

Lemma s3_copy_loop_latest (src : string) (srcCreds : Credentials) (dst : string)
    (dstCreds : Credentials) (allObjects : list S3.ObjectVersion) :
  S3.copy_loop src srcCreds dst dstCreds allObjects
  = map (S3.copy_parameters src srcCreds dst dstCreds)
        (filter S3.IsLatest allObjects).
Proof.
  induction allObjects as [|o r IH]; [reflexivity|].
  cbn [S3.copy_loop filter]. destruct (S3.IsLatest o); cbn [negb map];
    now rewrite IH.
Qed.

(** The commands of an S3 transfer: one for each entry of the manifest
    that is marked latest, built from that entry, and no other. *)
Lemma s3_transfer_copies_latest (src : string) (srcCreds : Credentials)
    (dst : string) (dstCreds : Credentials) (filesObject : S3.Manifest)
    (cmd : S3.CopyCommand) :
  In cmd (S3.transferBackupFiles src srcCreds dst dstCreds filesObject)
  <-> exists o,
        In o (S3.public filesObject ++ S3.private filesObject)
        /\ S3.IsLatest o = true
        /\ cmd = S3.copy_parameters src srcCreds dst dstCreds o.
Proof.
  unfold S3.transferBackupFiles. rewrite s3_copy_loop_latest, in_map_iff.
  split.
  - intros [o [<- Ho]]. apply filter_In in Ho. exists o. tauto.
  - intros [o [Hin [Hl ->]]]. exists o. split; [reflexivity|].
    apply filter_In. tauto.
Qed.

(** *** Google Cloud Storage: the highest generation of each path *)

Import GCS.

Lemma own_assign (o : object) (key : string) (v : Z) (k : string) :
  own (assign o key v) k = if String.eqb key k then Some v else own o k.
Proof.
  induction o as [|[k0 x] r IH]; cbn [assign own].
  - reflexivity.
  - destruct (String.eqb_spec k0 key) as [->|Hne]; cbn [own].
    + destruct (String.eqb_spec key k); reflexivity.
    + rewrite IH. destruct (String.eqb_spec k0 k) as [->|Hk]; [|reflexivity].
      destruct (String.eqb_spec key k); [congruence|reflexivity].
Qed.

Lemma keys_assign (o : object) (key : string) (v : Z) :
  map fst (assign o key v)
  = match own o key with
    | Some _ => map fst o
    | None => map fst o ++ [key]
    end.
Proof.
  induction o as [|[k0 x] r IH]; cbn [assign own map]; [reflexivity|].
  destruct (String.eqb_spec k0 key) as [->|Hne]; cbn [map fst]; [reflexivity|].
  rewrite IH. now destruct (own r key).
Qed.

Lemma own_in (o : object) (key : string) (v : Z) :
  own o key = Some v -> In (key, v) o.
Proof.
  induction o as [|[k0 x] r IH]; cbn [own]; [discriminate|].
  destruct (String.eqb_spec k0 key) as [->|Hne].
  - intros [= ->]. now left.
  - intros H. right. now apply IH.
Qed.

Lemma own_none (o : object) (key : string) :
  own o key = None -> ~ In key (map fst o).
Proof.
  induction o as [|[k0 x] r IH]; cbn [own map fst]; [tauto|].
  destruct (String.eqb_spec k0 key) as [->|Hne]; [discriminate|].
  intros H [E|Hin]; [congruence|]. now apply IH.
Qed.

Lemma in_own (o : object) (key : string) (v : Z) :
  NoDup (map fst o) -> In (key, v) o -> own o key = Some v.
Proof.
  induction o as [|[k0 x] r IH]; cbn [own map fst]; [contradiction|].
  intros Hnd [E|Hin].
  - injection E as -> ->. now rewrite String.eqb_refl.
  - apply NoDup_cons_iff in Hnd. destruct Hnd as [Hk Hnd].
    destruct (String.eqb_spec k0 key) as [->|Hne].
    + exfalso. apply Hk. apply (in_map fst) in Hin. exact Hin.
    + now apply IH.
Qed.

Lemma keys_assign_nodup (o : object) (key : string) (v : Z) :
  NoDup (map fst o) -> NoDup (map fst (assign o key v)).
Proof.
  intros Hnd. rewrite keys_assign. destruct (own o key) eqn:E; [exact Hnd|].
  apply NoDup_app; [exact Hnd|repeat constructor; now intros []|].
  intros x Hx [<-|[]]. revert Hx. now apply own_none.
Qed.

Lemma compare_step_nodup (o : object) (f : File) :
  NoDup (map fst o) -> NoDup (map fst (compare_step o f)).
Proof.
  intros Hnd. unfold compare_step.
  destruct (own o (name f)) as [cur|].
  - destruct (cur <? generation f)%Z; [now apply keys_assign_nodup|exact Hnd].
  - destruct (inherited (name f)); [exact Hnd|now apply keys_assign_nodup].
Qed.

Lemma fold_compare_nodup (files : list File) :
  forall o, NoDup (map fst o) ->
            NoDup (map fst (fold_left compare_step files o)).
Proof.
  induction files as [|f r IH]; intros o Hnd; [exact Hnd|].
  cbn [fold_left]. now apply IH, compare_step_nodup.
Qed.

(** What one round of the loop leaves under a key. *)
Lemma own_compare_step (o : object) (f : File) (key : string) :
  own (compare_step o f) key
  = if String.eqb (name f) key then
      match own o key with
      | Some cur => Some (Z.max cur (generation f))
      | None => if inherited key then None else Some (generation f)
      end
    else own o key.
Proof.
  unfold compare_step.
  destruct (String.eqb_spec (name f) key) as [<-|Hne].
  - destruct (own o (name f)) as [cur|] eqn:E.
    + destruct (Z.ltb_spec cur (generation f)).
      * rewrite own_assign, String.eqb_refl. f_equal. lia.
      * rewrite E. f_equal. lia.
    + destruct (inherited (name f)); [exact E|].
      now rewrite own_assign, String.eqb_refl.
  - destruct (own o (name f)) as [cur|].
    + destruct (cur <? generation f)%Z; [|reflexivity].
      rewrite own_assign. now destruct (String.eqb_spec (name f) key).
    + destruct (inherited (name f)); [reflexivity|].
      rewrite own_assign. now destruct (String.eqb_spec (name f) key).
Qed.

(** What the loop leaves under a key: the highest generation met for it,
    unless the key is a name every object inherits. *)
Lemma own_fold_compare (files : list File) (key : string) :
  forall o,
    own (fold_left compare_step files o) key
    = match own o key, highest files key with
      | Some cur, Some h => Some (Z.max cur h)
      | Some cur, None => Some cur
      | None, h => if inherited key then None else h
      end.
Proof.
  induction files as [|f r IH]; intros o; cbn [fold_left highest].
  - destruct (own o key); [reflexivity|]. now destruct (inherited key).
  - rewrite IH, own_compare_step.
    destruct (String.eqb (name f) key); [|reflexivity].
    destruct (own o key) as [cur|].
    + destruct (highest r key) as [h|]; f_equal; lia.
    + destruct (inherited key); [reflexivity|].
      destruct (highest r key) as [h|]; f_equal; lia.
Qed.

(** The commands of a transfer: one for each path of the manifest that is
    no inherited name, with the highest generation of that path, and no
    other. *)
Lemma gcs_transfer_copies_highest (filesObject : Manifest) :
  NoDup (map filePath (copy_commands filesObject))
  /\ forall cmd,
       In cmd (copy_commands filesObject)
       <-> inherited (filePath cmd) = false
           /\ highest (public filesObject ++ private filesObject) (filePath cmd)
              = Some (copyVersionId cmd).
Proof.
  unfold copy_commands.
  set (files := public filesObject ++ private filesObject).
  set (o := fold_left compare_step files []).
  assert (Hnd : NoDup (map fst o)) by (apply fold_compare_nodup; constructor).
  assert (Hown : forall key, own o key
                             = if inherited key then None else highest files key).
  { intros key. unfold o. now rewrite own_fold_compare. }
  split.
  - rewrite map_map. cbn [filePath]. exact Hnd.
  - intros [p v]. cbn [filePath copyVersionId]. rewrite in_map_iff. split.
    + intros [[k x] [E Hin]]. cbn [fst snd] in E. injection E as -> ->.
      apply (in_own o p v Hnd) in Hin. rewrite Hown in Hin.
      destruct (inherited p); [discriminate|]. now split.
    + intros [Hi Hh]. exists (p, v). split; [reflexivity|].
      apply own_in. now rewrite Hown, Hi.
Qed.

(** C8.  The transfer of a manifest whose one file is named
    [constructor].  [filePath in compareObject] holds for this name in the
    empty object, through [Object.prototype]; the inherited function is
    not below the generation, so nothing is stored under the name and no
    copy command is pushed: the path, which has one entry, and so a highest
    one, is not copied at all. *)
Theorem inherited_name_is_not_copied :
  let filesObject := {| public := [mkFile "constructor" 5]; private := [] |} in
  highest (public filesObject ++ private filesObject) "constructor" = Some 5%Z
  /\ copy_commands filesObject = []
  /\ copyCommands (transferBackupFiles store sample "inst" dedicated "copy"
                     filesObject) = []
  /\ transferCalls (transferBackupFiles store sample "inst" dedicated "copy"
                      filesObject) = [Resolve tt].
Proof. cbv zeta. repeat split; vm_compute; reflexivity. Qed.

End Transfer.

(** ** String methods *)

Module TextFacts.
Import Text.

Lemma split_not_empty (sep : ascii) (s : string) : split sep s <> [].
Proof.
  induction s as [|c r IH]; cbn [split]; [discriminate|].
  destruct (Ascii.eqb c sep); [discriminate|].
  destruct (split sep r); discriminate.
Qed.

(** A string without the separator is one part. *)
Lemma split_free (sep : ascii) (s : string) :
  free_of sep s = true -> split sep s = [s].
Proof.
  induction s as [|c r IH]; cbn [split free_of]; [reflexivity|].
  intros H. apply andb_true_iff in H. destruct H as [Hc Hr].
  apply negb_true_iff in Hc. rewrite Hc, (IH Hr). reflexivity.
Qed.

(** A part without the separator, the separator, and the rest. *)
Lemma split_part (sep : ascii) (a b : string) :
  free_of sep a = true ->
  split sep (a +++ String sep b) = a :: split sep b.
Proof.
  induction a as [|c r IH]; cbn [split free_of String.append].
  - intros _. now rewrite Ascii.eqb_refl.
  - intros H. apply andb_true_iff in H. destruct H as [Hc Hr].
    apply negb_true_iff in Hc. rewrite Hc, (IH Hr). reflexivity.
Qed.

Lemma prefix_append (p s : string) : String.prefix p (p +++ s) = true.
Proof.
  induction p as [|c r IH]; cbn [String.prefix String.append].
  - now destruct s.
  - destruct (ascii_dec c c) as [_|H]; [exact IH|congruence].
Qed.

Lemma skip_append (p s : string) : skip (String.length p) (p +++ s) = s.
Proof. induction p as [|c r IH]; [reflexivity|exact IH]. Qed.

(** Replacing a pattern the string starts with removes that start. *)
Lemma replace_at_start (p r s : string) : replace p r (p +++ s) = r +++ s.
Proof.
  destruct (p +++ s) as [|c t] eqn:E; cbn [replace]; rewrite <- E;
    now rewrite prefix_append, skip_append.
Qed.

Lemma append_assoc (a b c : string) : (a +++ b) +++ c = a +++ b +++ c.
Proof. induction a as [|x r IH]; cbn [String.append]; [reflexivity|now rewrite IH]. Qed.

Lemma includes_In (l : list string) (s : string) :
  includes l s = true <-> In s l.
Proof.
  unfold includes. rewrite existsb_exists. split.
  - intros [x [Hx E]]. apply String.eqb_eq in E. now subst.
  - intros H. exists s. split; [exact H|apply String.eqb_refl].
Qed.

End TextFacts.

(** ** Google Cloud Storage: the backups of a bucket *)

Module GcsBackupFacts.
Import Files GCS Text GcsBackups TextFacts.

(** The name of the backup of an object [backups/<name>/<rest>]. *)
Lemma backup_name_of_object (n rest : string) (g : Z) :
  free_of "/" n = true ->
  backup_name (mkFile ("backups/" +++ n +++ String "/" rest) g) = n.
Proof.
  intros Hn. unfold backup_name. cbn [name].
  rewrite (replace_at_start "backups/" "" (n +++ String "/" rest)).
  change ("" +++ n +++ String "/" rest) with (n +++ String "/" rest).
  now rewrite split_part.
Qed.

Lemma backup_name_of_object_witness :
  free_of "/" "20220502" = true
  /\ backup_name (mkFile "backups/20220502/public/logo.png" 7) = "20220502".
Proof.
  split; [reflexivity|].
  exact (backup_name_of_object "20220502" "public/logo.png" 7 eq_refl).
Defined.

(** The invariant of [files.forEach]: the names recorded are distinct,
    none is empty, and they are the names of the files seen. *)
Lemma record_invariant (files : list File) :
  forall buckets,
    NoDup buckets -> ~ In "" buckets ->
    NoDup (fold_left record files buckets)
    /\ forall n, In n (fold_left record files buckets)
                 <-> In n buckets
                     \/ (n <> "" /\ exists f, In f files /\ backup_name f = n).
Proof.
  induction files as [|f r IH]; intros buckets Hnd Hne; cbn [fold_left].
  - split; [exact Hnd|]. intros n. split; [now left|].
    intros [H|[_ [f [[] _]]]]. exact H.
  - assert (Hstep : NoDup (record buckets f) /\ ~ In "" (record buckets f)
                    /\ forall n, In n (record buckets f)
                                 <-> In n buckets
                                     \/ (n <> "" /\ backup_name f = n)).
    { unfold record.
      destruct (String.eqb_spec (backup_name f) "") as [E|E]; cbn [negb andb].
      - split; [exact Hnd|]. split; [exact Hne|].
        intros n. split; [now left|]. intros [H|[H1 H2]]; [exact H|congruence].
      - destruct (includes buckets (backup_name f)) eqn:Ei; cbn [negb].
        + apply includes_In in Ei. split; [exact Hnd|]. split; [exact Hne|].
          intros n. split; [now left|].
          intros [H|[_ <-]]; assumption.
        + assert (Hni : ~ In (backup_name f) buckets).
          { intros H. apply includes_In in H. congruence. }
          split; [|split].
          * apply NoDup_app; [exact Hnd|repeat constructor; now intros []|].
            intros x Hx [<-|[]]. contradiction.
          * intros H. apply in_app_or in H. destruct H as [H|[H|[]]];
              [contradiction|congruence].
          * intros n. rewrite in_app_iff. cbn [In]. split.
            -- intros [H|[<-|[]]]; [now left|right; now split].
            -- intros [H|[_ <-]]; [now left|right; now left]. }
    destruct Hstep as [Hnd' [Hne' Hin']].
    destruct (IH (record buckets f) Hnd' Hne') as [IH1 IH2].
    split; [exact IH1|]. intros n. rewrite IH2, Hin'. split.
    + intros [[H|[H1 H2]]|[H1 [x [Hx H2]]]].
      * now left.
      * right. split; [exact H1|]. exists f. split; [now left|exact H2].
      * right. split; [exact H1|]. exists x. split; [now right|exact H2].
    + intros [H|[H1 [x [[<-|Hx] H2]]]].
      * left. now left.
      * left. right. now split.
      * right. split; [exact H1|]. now exists x.
Qed.

(** [listBackups] resolves with the names of the backups that have a
    file under [backups/]: each once, none empty. *)
Theorem gcs_listBackups_lists_each_backup_once {World : Type}
    (gcs : Client World) (w : World) (installationId : string)
    (credentials : Credentials) (names : list string) (log : list command)
    (w' : World) :
  listBackups gcs w installationId credentials = (Resolved names, log, w') ->
  NoDup names
  /\ ~ In "" names
  /\ exists files,
       fst (getFiles gcs (snd (bucketExists gcs w installationId))
              installationId "backups/") = inr files
       /\ forall n, In n names
                    <-> n <> "" /\ exists f, In f files /\ backup_name f = n.
Proof.
  unfold listBackups.
  destruct (bucketExists gcs w installationId) as [[e|[|]] w1]; cbn [snd];
    try discriminate.
  destruct (getFiles gcs w1 installationId "backups/") as [[e|files] w2];
    cbn [fst]; [discriminate|].
  intros [= <- _ _].
  destruct (record_invariant files [] (NoDup_nil _) (fun H => H)) as [Hnd Hin].
  split; [exact Hnd|]. split.
  - intros H. apply Hin in H. destruct H as [[]|[H _]]. now apply H.
  - exists files. split; [reflexivity|]. intros n. rewrite Hin. split.
    + intros [[]|H]. exact H.
    + intros H. now right.
Qed.

Lemma gcs_listBackups_lists_each_backup_once_witness :
  listBackups store sample "inst" dedicated
  = (Resolved ["b1"],
     [BucketExists "inst"; GetFiles "inst" "backups/"], sample)
  /\ NoDup ["b1"].
Proof.
  assert (H : listBackups store sample "inst" dedicated
              = (Resolved ["b1"],
                 [BucketExists "inst"; GetFiles "inst" "backups/"], sample))
    by (vm_compute; reflexivity).
  split; [exact H|].
  exact (proj1 (gcs_listBackups_lists_each_backup_once store sample "inst"
                  dedicated ["b1"] _ _ H)).
Defined.

(** On a bucket that does not exist every operation of the connector
    stops after the test of existence: it rejects with "Bucket not found!"
    and asks for no listing and no deletion. *)
Theorem gcs_missing_bucket_stops_every_operation {World : Type}
    (gcs : Client World) (order : list Task -> list Task) (w : World)
    (b folder filePath : string) (versionId : Z) (c : Credentials) :
  fst (bucketExists gcs w b) = inr false ->
  listFileVersions gcs w b folder c
  = (Rejected (ErrError "listFileVersions Error: Bucket not found!"),
     [BucketExists b], snd (bucketExists gcs w b))
  /\ listBackups gcs w b c
     = (Rejected (ErrError "listBackups Error: Bucket not found!"),
        [BucketExists b], snd (bucketExists gcs w b))
  /\ deleteObjectVersion gcs w b filePath versionId c
     = (Rejected (ErrError "deleteObjectVersion Error: Bucket not found!"),
        [BucketExists b], snd (bucketExists gcs w b))
  /\ sent (deleteAll gcs order w b folder c) = [BucketExists b]
  /\ GCS.result (deleteAll gcs order w b folder c)
     = Rejected (ErrError "listFileVersions Error: Bucket not found!").
Proof.
  intros H.
  unfold deleteAll, listFileVersions, listBackups, deleteObjectVersion.
  destruct (bucketExists gcs w b) as [answer w1]. cbn [fst snd] in *.
  subst answer. repeat split.
Qed.

Lemma gcs_missing_bucket_stops_every_operation_witness :
  fst (bucketExists nowhere tt "inst") = inr false
  /\ sent (deleteAll nowhere (fun l => l) tt "inst" "" dedicated)
     = [BucketExists "inst"].
Proof.
  split; [reflexivity|].
  exact (proj1 (proj2 (proj2 (proj2
           (gcs_missing_bucket_stops_every_operation nowhere (fun l => l) tt
              "inst" "" "x" 0 dedicated eq_refl))))).
Defined.

(** *** The date of a backup name *)

Lemma digit_is_no_dash (c : ascii) (d : Z) :
  digit c = Some d -> Ascii.eqb c "-" = false /\ Ascii.eqb c "_" = false.
Proof.
  intros H. split; apply Ascii.eqb_neq; intros ->; vm_compute in H; discriminate.
Qed.

Lemma digits_free_of (s : string) :
  all_digits s = true -> free_of "-" s = true /\ free_of "_" s = true.
Proof.
  induction s as [|c r IH]; cbn [all_digits free_of]; [now split|].
  destruct (digit c) as [d|] eqn:E; [|discriminate].
  intros H. destruct (IH H) as [H1 H2].
  destruct (digit_is_no_dash c d E) as [E1 E2].
  rewrite E1, E2, H1, H2. now split.
Qed.

(** The first part of a string that starts with a run free of the
    separator starts with that run. *)
Lemma split_head (sep : ascii) (a x : string) :
  free_of sep a = true ->
  split sep (a +++ x)
  = (a +++ hd EmptyString (split sep x)) :: tl (split sep x).
Proof.
  induction a as [|c r IH]; cbn [split free_of String.append].
  - intros _. pose proof (split_not_empty sep x).
    destruct (split sep x); [congruence|reflexivity].
  - intros H. apply andb_true_iff in H. destruct H as [Hc Hr].
    apply negb_true_iff in Hc. rewrite Hc, (IH Hr). reflexivity.
Qed.

(** The part of [<day>_<rest>] before the first dash starts with the
    day and an underscore. *)
Lemma day_part (d rest : string) :
  free_of "-" d = true -> free_of "_" d = true ->
  exists part others,
    split "-" (d +++ String "_" rest) = part :: others
    /\ hd EmptyString (split "_" part) = d.
Proof.
  intros Fd Fd'.
  exists (d +++ String "_" (hd EmptyString (split "-" rest))),
    (tl (split "-" (String "_" rest))).
  split.
  - rewrite (split_head "-" d (String "_" rest) Fd). f_equal. f_equal.
    cbn [split]. change (Ascii.eqb "_" "-") with false. cbv iota.
    pose proof (split_not_empty "-" rest).
    destruct (split "-" rest); [congruence|reflexivity].
  - now rewrite (split_part "_" d _ Fd').
Qed.

Lemma decimal_at_most (s : string) (n : nat) :
  all_digits s = true -> (String.length s <= n)%nat ->
  (0 <= decimal s <= 10 ^ Z.of_nat n - 1)%Z.
Proof.
  intros Hd Hl. pose proof (BackupDate.decimal_bounds s Hd) as Hb.
  assert (10 ^ Z.of_nat (String.length s) <= 10 ^ Z.of_nat n)%Z
    by (apply Z.pow_le_mono_r; lia).
  lia.
Qed.

(** A name [<company>-<installation>-<year>-<month>-<day>_<rest>] whose
    first two parts hold no dash is resolved with the date its three
    numbers give to the Date constructor, the month counted from 1; a
    name of fewer than five parts between dashes is rejected with the
    TypeError of the missing part. *)
Theorem gcs_calculateDate_reads_the_third_to_fifth_part :
  (forall company installation y m d rest : string,
      free_of "-" company = true -> free_of "-" installation = true ->
      all_digits y = true -> all_digits m = true -> all_digits d = true ->
      (String.length y <= 4)%nat -> (String.length m <= 2)%nat ->
      (String.length d <= 2)%nat ->
      settled (calculateDate
                 (company +++ String "-" (installation +++ String "-"
                    (y +++ String "-" (m +++ String "-" (d +++ String "_" rest))))))
      = Resolved (mkDate (Num (MakeDay (full_year (decimal y)) (decimal m - 1)
                                 (decimal d) * msPerDay))))
  /\ (forall backupName,
        (List.length (split "-" backupName) < 5)%nat ->
        calculateDate backupName
        = [Reject (ErrType
             "Cannot read properties of undefined (reading 'split')")]).
Proof.
  split.
  - intros company installation y m d rest Hc Hi Hy Hm Hd Ly Lm Ld.
    destruct (digits_free_of y Hy) as [Fy _].
    destruct (digits_free_of m Hm) as [Fm _].
    destruct (digits_free_of d Hd) as [Fd Fd'].
    destruct (day_part d rest Fd Fd') as [part [others [Hsplit Hday]]].
    unfold calculateDate.
    rewrite (split_part "-" company _ Hc), (split_part "-" installation _ Hi),
      (split_part "-" y _ Fy), (split_part "-" m _ Fm), Hsplit.
    cbn [nth_error element ToNumber]. rewrite Hday.
    rewrite (BackupDate.StringToNumber_digits y Hy),
      (BackupDate.StringToNumber_digits m Hm),
      (BackupDate.StringToNumber_digits d Hd).
    pose proof (decimal_at_most y 4 Hy Ly) as By.
    pose proof (decimal_at_most m 2 Hm Lm) as Bm.
    pose proof (decimal_at_most d 2 Hd Ld) as Bd.
    change (10 ^ Z.of_nat 4 - 1)%Z with 9999%Z in By.
    change (10 ^ Z.of_nat 2 - 1)%Z with 99%Z in Bm, Bd.
    rewrite (BackupDate.new_Date_digits (decimal y) (decimal m) (decimal d)
               By Bm Bd).
    reflexivity.
  - intros backupName Hlen. unfold calculateDate.
    replace (nth_error (split "-" backupName) 4) with (@None string)
      by (symmetry; apply nth_error_None; lia).
    reflexivity.
Qed.

Lemma gcs_calculateDate_reads_the_third_to_fifth_part_witness :
  (exists d,
      settled (calculateDate
        "company1-i8667373ad74d4a27bcfa3545c6b63-2022-2-8_5_0_16-86887099031208640856")
      = Resolved d
      /\ calendar d = Some (2022, 2, 8)%Z)
  /\ calculateDate "03242022132649"
     = [Reject (ErrType "Cannot read properties of undefined (reading 'split')")].
Proof.
  split.
  - eexists. split.
    + exact (proj1 gcs_calculateDate_reads_the_third_to_fifth_part
               "company1" "i8667373ad74d4a27bcfa3545c6b63" "2022" "2" "8"
               "5_0_16-86887099031208640856"
               eq_refl eq_refl eq_refl eq_refl eq_refl
               (le_n 4) (le_S 1 1 (le_n 1)) (le_S 1 1 (le_n 1))).
    + vm_compute. reflexivity.
  - apply (proj2 gcs_calculateDate_reads_the_third_to_fifth_part).
    vm_compute. lia.
Defined.

End GcsBackupFacts.

(** ** Amazon S3: the backups of a bucket *)

Module S3BackupFacts.
Import Files Text S3Backups TextFacts.

Lemma s3b_drainable_tail (page next : Response) (rest : list Response) :
  drainable (page :: next :: rest) = true ->
  continues page = true /\ drainable (next :: rest) = true.
Proof.
  change (drainable (page :: next :: rest))
    with (continues page && drainable (next :: rest)).
  intros H. now apply andb_true_iff in H.
Qed.

Lemma s3b_list_pages_drains (credentials : Credentials) (pages : list Response) :
  forall (fuel : nat) (p : Params) (acc : list (option string)) (log : list Params),
    drainable pages = true ->
    (List.length pages <= fuel)%nat ->
    list_pages paged fuel pages credentials p acc log
    = (Resolved (acc ++ flat_map (fun page => names_of credentials (prefixes_of page))
                          pages),
       log ++ requests p pages, []).
Proof.
  induction pages as [|page rest IH]; intros fuel p acc log Hd Hfuel;
    [discriminate|].
  destruct fuel as [|n]; [cbn in Hfuel; lia|].
  cbn [list_pages paged].
  assert (Hacc :
    match CommonPrefixes page with
    | Some prefixes => acc ++ names_of credentials prefixes
    | None => acc
    end = acc ++ names_of credentials (prefixes_of page)).
  { unfold prefixes_of. destruct (CommonPrefixes page); [reflexivity|].
    cbn. now rewrite app_nil_r. }
  rewrite Hacc.
  destruct rest as [|next rest'].
  - cbn [drainable] in Hd. apply negb_true_iff in Hd. rewrite Hd.
    cbn [flat_map requests]. now rewrite !app_nil_r.
  - apply s3b_drainable_tail in Hd. destruct Hd as [Hc Hd].
    unfold continues in Hc. apply andb_true_iff in Hc. destruct Hc as [Ht Hv].
    rewrite Ht. unfold prefixes_of in Hv.
    destruct (CommonPrefixes page) as [l|] eqn:El; [|discriminate].
    destruct (S3.last_entry l) as [v|] eqn:Ev; [|discriminate].
    rewrite (IH n _ _ _ Hd ltac:(cbn [List.length] in Hfuel |- *; lia)).
    cbn [flat_map requests Bucket listPrefix Delimiter].
    unfold cursor, prefixes_of. rewrite El, Ev.
    now rewrite <- !app_assoc.
Qed.

(** On pages that can be drained [listBackups] resolves with the names of
    all pages, in their order and with their repetitions; each request
    after the first carries as cursor the [Key] of the last common prefix
    of the page before, which is no cursor at all when that entry has no
    [Key]. *)
Theorem s3_listBackups_drains (pages : list Response) (fuel : nat)
    (bucketName : string) (credentials : Credentials) :
  drainable pages = true ->
  (List.length pages <= fuel)%nat ->
  listBackups paged fuel pages bucketName credentials
  = (Resolved (flat_map (fun page => names_of credentials (prefixes_of page)) pages),
     requests (list_params bucketName credentials) pages, []).
Proof.
  intros Hd Hfuel. unfold listBackups.
  now rewrite (s3b_list_pages_drains credentials pages fuel _ _ _ Hd Hfuel).
Qed.

Lemma s3_listBackups_drains_witness :
  (drainable
     [mkResponse (Some [mkCommonPrefix "backups/a/" None]) true;
      mkResponse (Some [mkCommonPrefix "backups/b/" None]) false] = true
   /\ (2 <= 3)%nat)
  /\ listBackups paged 3
       [mkResponse (Some [mkCommonPrefix "backups/a/" None]) true;
        mkResponse (Some [mkCommonPrefix "backups/b/" None]) false]
       "inst" dedicated
     = (Resolved [Some "a"; Some "b"],
        [mkParams "inst" "backups/" "/" None; mkParams "inst" "backups/" "/" None],
        []).
Proof.
  split; [split; [reflexivity|repeat constructor]|].
  exact (s3_listBackups_drains
           [mkResponse (Some [mkCommonPrefix "backups/a/" None]) true;
            mkResponse (Some [mkCommonPrefix "backups/b/" None]) false]
           3 "inst" dedicated eq_refl (le_S 2 2 (le_n 2))).
Defined.

(** The name taken from a common prefix: the part after [backups/] in a
    bucket of its own, the part after [<installation>/backups/] in a
    shared bucket. *)
Theorem s3_backup_name_by_layout (credentials : Credentials)
    (installation n : string) (key : option string) :
  free_of "/" installation = true -> free_of "/" n = true ->
  (bucket credentials = None ->
   names_of credentials [mkCommonPrefix ("backups/" +++ n +++ "/") key] = [Some n])
  /\ (bucket credentials <> None ->
      names_of credentials
        [mkCommonPrefix (installation +++ String "/" ("backups/" +++ n +++ "/")) key]
      = [Some n]).
Proof.
  intros Hi Hn. unfold names_of, splitIndex. split; intros Hb.
  - rewrite Hb. cbn [map Prefix].
    change ("backups/" +++ n +++ "/") with ("backups" +++ String "/" (n +++ "/")).
    rewrite (split_part "/" "backups" (n +++ "/") eq_refl),
      (split_part "/" n "" Hn).
    reflexivity.
  - destruct (bucket credentials); [|congruence]. cbn [map Prefix].
    rewrite (split_part "/" installation _ Hi).
    change ("backups/" +++ n +++ "/") with ("backups" +++ String "/" (n +++ "/")).
    rewrite (split_part "/" "backups" (n +++ "/") eq_refl), (split_part "/" n "" Hn).
    reflexivity.
Qed.

Lemma s3_backup_name_by_layout_witness :
  (free_of "/" "inst" = true /\ free_of "/" "20220502230023" = true
   /\ bucket shared <> None)
  /\ names_of shared [mkCommonPrefix "inst/backups/20220502230023/" None]
     = [Some "20220502230023"].
Proof.
  assert (Hs : bucket shared <> None) by discriminate.
  split; [split; [reflexivity|split; [reflexivity|exact Hs]]|].
  exact (proj2 (s3_backup_name_by_layout shared "inst" "20220502230023" None
                  eq_refl eq_refl) Hs).
Defined.

(** The loop on a provider without memory whose first page announces a
    next one and ends with an entry that has no [Key]: the cursor stays
    unset, every request is the first one again, and the loop does not
    end, whatever the number of rounds. *)
Theorem s3_listBackups_repeats_the_first_request
    (answer : Params -> jserror + Response) (page : Response)
    (last : CommonPrefix) (bucketName : string) (credentials : Credentials)
    (fuel : nat) :
  answer (list_params bucketName credentials) = inr page ->
  IsTruncated page = true ->
  S3.last_entry (prefixes_of page) = Some last ->
  Key last = None ->
  listBackups (stateless answer) fuel tt bucketName credentials
  = (Pending, repeat (list_params bucketName credentials) fuel, tt).
Proof.
  intros Ha Ht Hl Hk. unfold listBackups.
  assert (Hfirst : {| Bucket := Bucket (list_params bucketName credentials);
                      listPrefix := listPrefix (list_params bucketName credentials);
                      Delimiter := Delimiter (list_params bucketName credentials);
                      KeyMarker := None |}
                   = list_params bucketName credentials)
    by (unfold list_params; destruct (bucket credentials); reflexivity).
  set (p := list_params bucketName credentials) in *.
  assert (Hgen : forall n acc log,
             list_pages (stateless answer) n tt credentials p acc log
             = (Pending, log ++ repeat p n, tt)).
  { induction n as [|n IH]; intros acc log.
    - cbn. now rewrite app_nil_r.
    - cbn [list_pages stateless]. rewrite Ha, Ht.
      unfold prefixes_of in Hl.
      destruct (CommonPrefixes page) as [l|]; [|discriminate].
      rewrite Hl, Hk, Hfirst, IH. cbn [repeat]. now rewrite <- app_assoc. }
  exact (Hgen fuel [] []).
Qed.

Lemma s3_listBackups_repeats_the_first_request_witness :
  listBackups
    (stateless (fun _ => inr (mkResponse (Some [mkCommonPrefix "backups/a/" None]) true)))
    3 tt "inst" dedicated
  = (Pending, repeat (list_params "inst" dedicated) 3, tt).
Proof.
  exact (s3_listBackups_repeats_the_first_request
           (fun _ => inr (mkResponse (Some [mkCommonPrefix "backups/a/" None]) true))
           (mkResponse (Some [mkCommonPrefix "backups/a/" None]) true)
           (mkCommonPrefix "backups/a/" None) "inst" dedicated 3
           eq_refl eq_refl eq_refl eq_refl).
Defined.

End S3BackupFacts.

(** ** Amazon S3: the configuration of a bucket, with retries *)

Module RetryFacts.
Import S3Buckets.

Section OnClient.

Context {World : Type}.
Variable send : World -> command -> option jserror * World.

Lemma attempt_retried (fuel : nat) (cmd : command) :
  forall (retries : nat) (w : World) (sent : list command) (waited : list wait),
    (5 - retries < fuel)%nat ->
    exists k,
      (k <= 5 - retries)%nat
      /\ sends (attempt send fuel cmd retries w sent waited)
         = sent ++ repeat cmd (S k)
      /\ waits (attempt send fuel cmd retries w sent waited)
         = waited ++ map (fun i => {| base := 2 ^ i; jitter := (1 <? i)%nat |})
                         (seq retries k)
      /\ result (attempt send fuel cmd retries w sent waited) <> Pending
      /\ forall e, result (attempt send fuel cmd retries w sent waited) = Rejected e ->
                   k = (5 - retries)%nat.
Proof.
  induction fuel as [|n IH]; intros retries w sent waited Hfuel; [lia|].
  cbn [attempt]. destruct (send w cmd) as [[error|] w'].
  - destruct (Nat.ltb_spec retries 5) as [Hr|Hr].
    + destruct (IH (S retries) w' (sent ++ [cmd])
                  (waited ++ [{| base := 2 ^ retries; jitter := (1 <? retries)%nat |}])
                  ltac:(lia)) as [k [Hk [Hs [Hw [Hp He]]]]].
      exists (S k). rewrite Hs, Hw. repeat split.
      * lia.
      * now rewrite <- app_assoc.
      * now rewrite <- app_assoc.
      * exact Hp.
      * intros e H. specialize (He e H). lia.
    + exists 0%nat. cbn [sends waits result repeat seq map].
      rewrite app_nil_r. repeat split; [lia|discriminate|intros; lia].
  - exists 0%nat. cbn [sends waits result repeat seq map].
    rewrite app_nil_r. repeat split; [lia|discriminate|discriminate].
Qed.

(** The run of the shared body is the one the answers fix. *)
Lemma attempt_answered (cmd : command) :
  forall (k fuel retries : nat) (w : World) (sent : list command)
         (waited : list wait),
    (k < fuel)%nat ->
    (k <= 5 - retries)%nat ->
    (forall i, (i < k)%nat -> reply send cmd i w <> None) ->
    (reply send cmd k w = None ->
     attempt send fuel cmd retries w sent waited
     = {| sends := sent ++ repeat cmd (S k);
          waits := waited
                   ++ map (fun i => {| base := 2 ^ i; jitter := (1 <? i)%nat |})
                          (seq retries k);
          result := Resolved tt;
          world := after send cmd (S k) w |})
    /\ (forall e,
          reply send cmd k w = Some e -> k = (5 - retries)%nat ->
          attempt send fuel cmd retries w sent waited
          = {| sends := sent ++ repeat cmd (S k);
               waits := waited
                        ++ map (fun i => {| base := 2 ^ i;
                                            jitter := (1 <? i)%nat |})
                               (seq retries k);
               result := Rejected e;
               world := after send cmd (S k) w |}).
Proof.
  induction k as [|k IH]; intros fuel retries w sent waited Hfuel Hk Hfail;
    (destruct fuel as [|n]; [lia|]); cbn [attempt].
  - unfold reply. cbn [after seq map repeat].
    destruct (send w cmd) as [[e0|] w']; cbn [fst snd]; rewrite ?app_nil_r.
    + split; [discriminate|]. intros e [= ->] Hlast.
      destruct (Nat.ltb_spec retries 5) as [Hr|Hr]; [lia|reflexivity].
    + split; [reflexivity|discriminate].
  - assert (Hshift : forall i, reply send cmd (S i) w
                               = reply send cmd i (snd (send w cmd)))
      by reflexivity.
    assert (Hafter : forall i, after send cmd (S i) w
                               = after send cmd i (snd (send w cmd)))
      by reflexivity.
    pose proof (Hfail 0%nat ltac:(lia)) as Hfirst. unfold reply in Hfirst.
    cbn [after] in Hfirst.
    rewrite Hshift, (Hafter (S k)).
    assert (Hrest : forall i, (i < k)%nat
                              -> reply send cmd i (snd (send w cmd)) <> None).
    { intros i Hi. rewrite <- Hshift. apply Hfail. lia. }
    destruct (send w cmd) as [[e0|] w']; cbn [fst snd] in *; [|congruence].
    destruct (Nat.ltb_spec retries 5) as [Hr|Hr]; [|lia].
    destruct (IH n (S retries) w' (sent ++ [cmd])
                (waited ++ [{| base := 2 ^ retries; jitter := (1 <? retries)%nat |}])
                ltac:(lia) ltac:(lia) Hrest) as [Hok Hko].
    cbn [seq map repeat].
    split.
    + intros Hnone. rewrite (Hok Hnone), <- !app_assoc. reflexivity.
    + intros e Hsome Hlast.
      rewrite (Hko e Hsome ltac:(lia)), <- !app_assoc. reflexivity.
Qed.

(** A provider that fails every command never lets a helper resolve. *)
Lemma attempt_never_resolves (fuel : nat) (cmd : command) :
  (forall w c, fst (send w c) <> None) ->
  forall (retries : nat) (w : World) (sent : list command) (waited : list wait),
    result (attempt send fuel cmd retries w sent waited) <> Resolved tt.
Proof.
  intros Hfail. induction fuel as [|n IH]; intros retries w sent waited;
    [discriminate|].
  cbn [attempt]. specialize (Hfail w cmd).
  destruct (send w cmd) as [[error|] w']; [|now cbn in Hfail].
  destruct (retries <? 5)%nat; [apply IH|discriminate].
Qed.

End OnClient.

(** Each of the three helpers ends, after at most six attempts of the same
    command when it starts without retries behind it; it has waited
    [2 ^ i] milliseconds after the failed attempt number [i] (from 0), with
    a random part from the third wait on; and it rejects only when the
    sixth attempt has failed.  The answers of the provider fix the run: it
    resolves at the first success, having sent the command once more than
    it has failed, and when no retry is left it rejects with the error of
    the last answer. *)
Theorem bucket_configuration_is_retried_five_times {World : Type}
    (send : World -> command -> option jserror * World) (fuel : nat) (w : World)
    (bucket : string) (tags : list (string * string)) (retries : option nat) :
  (6 <= fuel)%nat ->
  (retried (PutBucketTaggingCommand bucket tags) (or_zero retries)
     (putBucketTags send fuel w bucket tags retries)
   /\ answered send (PutBucketTaggingCommand bucket tags) (or_zero retries) w
        (putBucketTags send fuel w bucket tags retries))
  /\ (retried (PutBucketEncryptionCommand bucket "AES256") (or_zero retries)
        (putBucketEncryption send fuel w bucket retries)
      /\ answered send (PutBucketEncryptionCommand bucket "AES256")
           (or_zero retries) w (putBucketEncryption send fuel w bucket retries))
  /\ (retried (PutBucketVersioningCommand bucket "Enabled") (or_zero retries)
        (putBucketVersioning send fuel w bucket retries)
      /\ answered send (PutBucketVersioningCommand bucket "Enabled")
           (or_zero retries) w (putBucketVersioning send fuel w bucket retries)).
Proof.
  intros Hfuel.
  assert (H : forall cmd r,
             retried cmd r (attempt send fuel cmd r w [] [])
             /\ answered send cmd r w (attempt send fuel cmd r w [] [])).
  { intros cmd r. split.
    - destruct (attempt_retried send fuel cmd r w [] [] ltac:(lia)) as [k Hk].
      exists k. exact Hk.
    - intros k Hk Hfail.
      exact (attempt_answered send cmd k fuel r w [] [] ltac:(lia) Hk Hfail). }
  unfold putBucketTags, putBucketEncryption, putBucketVersioning.
  split; [apply H|]. split; apply H.
Qed.

Lemma bucket_configuration_is_retried_five_times_witness :
  (6 <= 6)%nat
  /\ putBucketTags failing_first 6 3 "inst" [("owner", "ops")] None
     = {| sends := repeat (PutBucketTaggingCommand "inst" [("owner", "ops")]) 4;
          waits := [mkWait 1 false; mkWait 2 false; mkWait 4 true];
          result := Resolved tt;
          world := 0%nat |}.
Proof.
  split; [apply le_n|].
  refine (proj1 (proj2 (proj1 (bucket_configuration_is_retried_five_times
                                 failing_first 6 3 "inst" [("owner", "ops")] None
                                 (le_n 6)))
                   3%nat _ _) eq_refl).
  - cbn [or_zero]. repeat constructor.
  - intros i Hi. destruct i as [|[|[|i]]]; [discriminate..|].
    exfalso. do 3 apply le_S_n in Hi. inversion Hi.
Defined.

(** On a provider that fails every command a helper called without
    retries sends its command six times, waits five times, and rejects. *)
Theorem bucket_configuration_gives_up_after_six_attempts {World : Type}
    (send : World -> command -> option jserror * World) (fuel : nat) (w : World)
    (bucket : string) :
  (6 <= fuel)%nat ->
  (forall w c, fst (send w c) <> None) ->
  sends (putBucketVersioning send fuel w bucket None)
  = repeat (PutBucketVersioningCommand bucket "Enabled") 6
  /\ waits (putBucketVersioning send fuel w bucket None)
     = [mkWait 1 false; mkWait 2 false; mkWait 4 true; mkWait 8 true;
        mkWait 16 true]
  /\ exists e, result (putBucketVersioning send fuel w bucket None) = Rejected e.
Proof.
  intros Hfuel Hfail. unfold putBucketVersioning. cbn [or_zero].
  destruct (attempt_retried send fuel (PutBucketVersioningCommand bucket "Enabled")
              0 w [] [] ltac:(lia)) as [k [Hk [Hs [Hw [Hp He]]]]].
  pose proof (attempt_never_resolves send fuel
                (PutBucketVersioningCommand bucket "Enabled") Hfail 0 w [] [])
    as Hnr.
  destruct (result (attempt send fuel (PutBucketVersioningCommand bucket "Enabled")
                      0 w [] [])) as [|[]|e] eqn:Er; try congruence.
  specialize (He e eq_refl). subst k.
  rewrite Hs, Hw. repeat split. now exists e.
Qed.

Lemma bucket_configuration_gives_up_after_six_attempts_witness :
  ((6 <= 7)%nat /\ forall (w : nat) (c : command),
                     fst ((fun w _ => (Some (ErrProvider "Denied"), w)) w c) <> None)
  /\ exists e,
       result (putBucketVersioning (fun (w : nat) _ => (Some (ErrProvider "Denied"), w))
                 7 0 "inst" None) = Rejected e.
Proof.
  assert (Hfail : forall (w : nat) (c : command),
             fst ((fun w _ => (Some (ErrProvider "Denied"), w)) w c) <> None)
    by (intros w c; discriminate).
  split; [split; [repeat constructor|exact Hfail]|].
  exact (proj2 (proj2 (bucket_configuration_gives_up_after_six_attempts
                         (fun (w : nat) _ => (Some (ErrProvider "Denied"), w))
                         7 0 "inst" (le_S 6 6 (le_n 6)) Hfail))).
Defined.

End RetryFacts.

(** ** The transfer of a backup between installations *)

Module FileTransferFacts.
Import Files FileTransfer.



End FileTransferFacts.

(** ** The purge of an installation, from the listings to the tasks *)

Module PurgeFacts.
Import Purge PurgeRun.

Lemma remove_at_perm {A} (l : list A) :
  forall (i : nat) (x : A),
    nth_error l i = Some x -> Permutation (x :: remove_at i l) l.
Proof.
  induction l as [|a r IH]; intros [|i] x H; cbn in H; try discriminate.
  - injection H as ->. reflexivity.
  - cbn [remove_at]. rewrite perm_swap. apply perm_skip. now apply IH.
Qed.

(** The exclusion splits the array: what it leaves and what it has
    removed make up the listing, and in a dry run what it has removed is
    what it has put on [backupsToKeep]. *)
Lemma exclude_from_splits (dryrun : jsval) (steps : nat) :
  forall (i : nat) (arr keep : list backup),
    exists removed,
      Permutation (fst (exclude_from dryrun steps i arr keep) ++ removed) arr
      /\ snd (exclude_from dryrun steps i arr keep)
         = if is_false dryrun then keep else keep ++ removed.
Proof.
  induction steps as [|n IH]; intros i arr keep.
  - exists []. cbn [exclude_from fst snd]. rewrite !app_nil_r.
    split; [reflexivity|now destruct (is_false dryrun)].
  - cbn [exclude_from].
    destruct (nth_error arr i) as [cur|] eqn:E; [|apply IH].
    destruct (undated cur); [|apply IH].
    destruct (IH (S i) (remove_at i arr)
                (if is_false dryrun then keep else keep ++ [cur]))
      as [removed [Hp Hk]].
    exists (cur :: removed). split.
    + rewrite <- Permutation_middle, Hp. now apply remove_at_perm.
    + rewrite Hk. destruct (is_false dryrun); [reflexivity|].
      now rewrite <- app_assoc.
Qed.

(** A plan in its parts. *)
Lemma plan_parts (dryrun : jsval) (backupObjects : list backup) (p : plan) :
  purge_plan dryrun backupObjects = Some p ->
  exists valid removed,
    Permutation (valid ++ removed) backupObjects
    /\ (quantity < List.length valid)%nat
    /\ backupsToDelete p ++ retained p = sort valid
    /\ List.length (retained p) = quantity
    /\ backupsToKeep p = if is_false dryrun then [] else removed ++ retained p.
Proof.
  unfold purge_plan, exclude.
  destruct (exclude_from_splits dryrun (List.length backupObjects) 0
              backupObjects []) as [removed [Hp Hk]].
  destruct (exclude_from dryrun (List.length backupObjects) 0 backupObjects [])
    as [valid keep]. cbn [fst snd] in *.
  destruct (List.length valid <=? quantity)%nat eqn:Hq; [discriminate|].
  apply Nat.leb_gt in Hq.
  assert (Hlen : List.length (sort valid) = List.length valid)
    by (apply Permutation_length, Retention.sort_perm).
  destruct (Retention.slices_split (sort valid)) as [Hdel Hret]; [lia|].
  change (- Z.of_nat quantity)%Z with (-30)%Z in Hdel, Hret.
  intros [= <-]. cbn [backupsToDelete retained backupsToKeep].
  exists valid, removed. rewrite Hdel, Hret, firstn_skipn, length_skipn, Hk.
  repeat split; try assumption; try lia.
  destruct (is_false dryrun); reflexivity.
Qed.

Lemma plan_deletions_are_listed (dryrun : jsval) (backupObjects : list backup)
    (p : plan) :
  purge_plan dryrun backupObjects = Some p ->
  forall x, In x (backupsToDelete p) -> In x backupObjects.
Proof.
  intros Hplan x Hx.
  destruct (plan_parts dryrun backupObjects p Hplan)
    as [valid [removed [Hp [_ [Hs _]]]]].
  apply (Permutation_in x Hp), in_or_app. left.
  apply (Permutation_in x (Retention.sort_perm valid)). rewrite <- Hs.
  apply in_or_app. now left.
Qed.

(** In a dry run that plans, every listed backup is reported once: on
    the list to delete or on the list to keep, whatever the arrangement of
    dated and undated entries. *)
Theorem dry_run_reports_every_backup_once (dryrun : jsval)
    (backupObjects : list backup) (p : plan) :
  live dryrun = false ->
  purge_plan dryrun backupObjects = Some p ->
  Permutation (backupsToDelete p ++ backupsToKeep p) backupObjects.
Proof.
  unfold live. intros Hdry Hplan.
  destruct (plan_parts dryrun backupObjects p Hplan)
    as [valid [removed [Hp [_ [Hs [_ Hk]]]]]].
  rewrite Hk, Hdry.
  rewrite (Permutation_app_comm removed), app_assoc, Hs, Retention.sort_perm.
  exact Hp.
Qed.

Lemma dry_run_reports_every_backup_once_witness :
  (live (JBool true) = false
   /\ exists p, purge_plan (JBool true)
                  (no_date "u1" :: no_date "u2" :: dated_run 0 31) = Some p)
  /\ exists p,
       purge_plan (JBool true) (no_date "u1" :: no_date "u2" :: dated_run 0 31)
       = Some p
       /\ Permutation (backupsToDelete p ++ backupsToKeep p)
            (no_date "u1" :: no_date "u2" :: dated_run 0 31).
Proof.
  destruct (purge_plan (JBool true) (no_date "u1" :: no_date "u2" :: dated_run 0 31))
    as [p|] eqn:E; [|vm_compute in E; discriminate E].
  split; [split; [reflexivity|now exists p]|].
  exists p. split; [reflexivity|].
  exact (dry_run_reports_every_backup_once (JBool true) _ p eq_refl E).
Defined.

(** Whatever the listing and the mode, a plan leaves [quantity] entries
    out of the deletions, deletes listed entries only, at most
    [length - quantity] of them, and none that the comparator ranks after
    an entry it leaves. *)
Theorem plan_leaves_the_last_quantity (dryrun : jsval)
    (backupObjects : list backup) (p : plan) :
  purge_plan dryrun backupObjects = Some p ->
  List.length (retained p) = quantity
  /\ (List.length (backupsToDelete p) + quantity <= List.length backupObjects)%nat
  /\ (forall x, In x (backupsToDelete p) -> In x backupObjects)
  /\ (forall x y, In x (backupsToDelete p) -> In y (retained p) -> not_after x y).
Proof.
  intros Hplan.
  destruct (plan_parts dryrun backupObjects p Hplan)
    as [valid [removed [Hp [Hq [Hs [Hr _]]]]]].
  assert (Hlen : (List.length (backupsToDelete p) + List.length (retained p)
                  = List.length valid)%nat).
  { rewrite <- length_app, Hs. apply Permutation_length, Retention.sort_perm. }
  assert (Hall : (List.length valid <= List.length backupObjects)%nat).
  { rewrite <- (Permutation_length Hp), length_app. lia. }
  repeat split.
  - exact Hr.
  - lia.
  - exact (plan_deletions_are_listed dryrun backupObjects p Hplan).
  - apply Retention.sorted_app_order. rewrite Hs. apply Retention.sort_sorted.
Qed.

Lemma plan_leaves_the_last_quantity_witness :
  exists p,
    purge_plan (JBool false) (no_date "u1" :: no_date "u2" :: dated_run 0 31)
    = Some p
    /\ List.length (retained p) = quantity.
Proof.
  destruct (purge_plan (JBool false) (no_date "u1" :: no_date "u2" :: dated_run 0 31))
    as [p|] eqn:E; [|vm_compute in E; discriminate E].
  exists p. split; [reflexivity|].
  exact (proj1 (plan_leaves_the_last_quantity (JBool false) _ p E)).
Defined.

(** With [quantity] backups or fewer in the listing, none at all
    included, the callback plans nothing and pushes no task, in either
    mode. *)
Theorem few_backups_are_never_purged (dryrun : jsval) (installation : string)
    (backupObjects : list backup) :
  (List.length backupObjects <= quantity)%nat ->
  purge_plan dryrun backupObjects = None
  /\ purge dryrun installation backupObjects
     = {| console := [installation +++ ": Not enough backups to purge"];
          pushed := [] |}.
Proof.
  intros Hlen.
  assert (Hnone : purge_plan dryrun backupObjects = None).
  { destruct (purge_plan dryrun backupObjects) as [p|] eqn:E; [|reflexivity].
    destruct (plan_parts dryrun backupObjects p E)
      as [valid [removed [Hp [Hq _]]]].
    apply Permutation_length in Hp. rewrite length_app in Hp. lia. }
  split; [exact Hnone|]. unfold purge. now rewrite Hnone.
Qed.

Lemma few_backups_are_never_purged_witness :
  (List.length (dated_run 0 30) <= quantity)%nat
  /\ purge_plan (JBool false) (dated_run 0 30) = None.
Proof.
  assert (H : (List.length (dated_run 0 30) <= quantity)%nat)
    by (vm_compute; apply le_n).
  split; [exact H|].
  exact (proj1 (few_backups_are_never_purged (JBool false) "inst"
                  (dated_run 0 30) H)).
Defined.

Section Collaborators.

Variable listBackups : string -> string -> jserror + list string.
Variable calculateDate : string -> string -> string -> jserror + Date.

(** Every object of the listing comes from a name a filesource has
    listed, and carries that filesource. *)
Lemma collect_in (currentInstallation : string) (filesources : list string)
    (b : backup) :
  In b (backupObjects (collect listBackups calculateDate currentInstallation
                         filesources)) ->
  exists backups,
    In (filesource b) filesources
    /\ listBackups currentInstallation (filesource b) = inr backups
    /\ In (name b) backups.
Proof.
  induction filesources as [|fs rest IH]; cbn [collect backupObjects];
    [contradiction|].
  destruct (listBackups currentInstallation fs) as [error|backups] eqn:E;
    cbn [backupObjects].
  - intros H. destruct (IH H) as [l [H1 [H2 H3]]]. exists l.
    split; [now right|now split].
  - intros H. apply in_app_or in H. destruct H as [H|H].
    + apply in_map_iff in H. destruct H as [n [<- Hn]].
      cbn [filesource name]. exists backups. split; [now left|now split].
    + destruct (IH H) as [l [H1 [H2 H3]]]. exists l.
      split; [now right|now split].
Qed.

(** The number of objects is the number of names listed by the
    filesources whose listing succeeded. *)
Lemma collect_length (currentInstallation : string) (filesources : list string) :
  List.length (backupObjects (collect listBackups calculateDate
                                currentInstallation filesources))
  = list_sum (map (fun fs => match listBackups currentInstallation fs with
                             | inr backups => List.length backups
                             | inl _ => 0%nat
                             end) filesources).
Proof.
  induction filesources as [|fs rest IH]; [reflexivity|].
  cbn [collect map list_sum].
  destruct (listBackups currentInstallation fs); cbn [backupObjects].
  - exact IH.
  - now rewrite length_app, length_map, IH.
Qed.

(** A filesource whose backups cannot be listed adds nothing to the
    objects the callback works on. *)
Lemma collect_listable (currentInstallation : string) (filesources : list string) :
  backupObjects (collect listBackups calculateDate currentInstallation filesources)
  = backupObjects (collect listBackups calculateDate currentInstallation
                     (Sent.listable listBackups currentInstallation filesources)).
Proof.
  induction filesources as [|fs rest IH]; [reflexivity|].
  cbn [collect Sent.listable filter].
  destruct (listBackups currentInstallation fs) as [error|backups] eqn:E;
    cbn [backupObjects].
  - exact IH.
  - cbn [collect]. rewrite E. cbn [backupObjects]. f_equal. exact IH.
Qed.

End Collaborators.

(** A filesource whose listing fails is left out and stops nothing: the
    plan and the tasks of the installation are those of the run on the
    filesources that could be listed, and one line is printed for each
    filesource of either kind. *)
Theorem failed_listing_leaves_the_others
    (listBackups : string -> string -> jserror + list string)
    (calculateDate : string -> string -> string -> jserror + Date)
    (dryrun : jsval) (filesources : list string) (currentInstallation : string) :
  snd (purge_installation listBackups calculateDate dryrun filesources
         currentInstallation)
  = snd (purge_installation listBackups calculateDate dryrun
           (Sent.listable listBackups currentInstallation filesources)
           currentInstallation)
  /\ List.length (printed (fst (purge_installation listBackups calculateDate dryrun
                                 filesources currentInstallation)))
     = List.length filesources
  /\ List.length (backupObjects
                    (fst (purge_installation listBackups calculateDate dryrun
                            filesources currentInstallation)))
     = list_sum (map (fun fs => match listBackups currentInstallation fs with
                                | inr backups => List.length backups
                                | inl _ => 0%nat
                                end) filesources).
Proof.
  unfold purge_installation. cbn [fst snd]. split; [|split].
  - now rewrite <- collect_listable.
  - induction filesources as [|fs rest IH]; [reflexivity|].
    cbn [collect]. destruct (listBackups currentInstallation fs);
      cbn [printed List.length]; now rewrite IH.
  - apply collect_length.
Qed.

(** Every call of [deleteAll] the purge of an installation leads to is
    addressed to that installation, to a filesource of the cluster, and to
    the folder of a backup that this filesource has listed for it. *)
Theorem purge_deletes_listed_backups_only
    (listBackups : string -> string -> jserror + list string)
    (calculateDate : string -> string -> string -> jserror + Date)
    (dryrun : jsval) (filesources : list string) (currentInstallation : string)
    (call : string * string * string) :
  In call (deleteAll_calls
             (snd (purge_installation listBackups calculateDate dryrun
                     filesources currentInstallation))) ->
  exists currentBackup filesource backups,
    call = (currentInstallation, "backups/" +++ currentBackup, filesource)
    /\ In filesource filesources
    /\ listBackups currentInstallation filesource = inr backups
    /\ In currentBackup backups
    /\ live dryrun = true.
Proof.
  unfold purge_installation, deleteAll_calls, purge. cbn [snd].
  set (objects := backupObjects (collect listBackups calculateDate
                                   currentInstallation filesources)).
  destruct (purge_plan dryrun objects) as [p|] eqn:E; cbn [pushed];
    [|contradiction].
  unfold deleteBackups, live.
  destruct (is_false dryrun); [|contradiction].
  rewrite map_map. intros H. apply in_map_iff in H.
  destruct H as [b [<- Hb]]. unfold delete_task.
  cbn [Purge.currentInstallation Purge.path Purge.task_filesource].
  apply (plan_deletions_are_listed dryrun objects p E) in Hb.
  destruct (collect_in listBackups calculateDate currentInstallation filesources
              b Hb) as [backups [H1 [H2 H3]]].
  exists (name b), (filesource b), backups. now repeat split.
Qed.

Lemma purge_deletes_listed_backups_only_witness :
  In ("inst", "backups/b1", "fs")
     (deleteAll_calls
        (snd (purge_installation
                (fun _ _ => inr (map (fun k => "b" +++ show_nat k) (seq 1 31)))
                (fun _ n _ => inr (mkDate (Num (Z.of_nat (String.length n)))))
                (JBool false) ["fs"] "inst")))
  /\ live (JBool false) = true.
Proof.
  assert (H : In ("inst", "backups/b1", "fs")
                (deleteAll_calls
                   (snd (purge_installation
                           (fun _ _ => inr (map (fun k => "b" +++ show_nat k) (seq 1 31)))
                           (fun _ n _ => inr (mkDate (Num (Z.of_nat (String.length n)))))
                           (JBool false) ["fs"] "inst"))))
    by (vm_compute; left; reflexivity).
  split; [exact H|].
  destruct (purge_deletes_listed_backups_only _ _ _ _ _ _ H)
    as [currentBackup [filesource [backups [_ [_ [_ [_ Hlive]]]]]]].
  exact Hlive.
Defined.

End PurgeFacts.

(** ** What [deleteAll] sends *)

Module DeletionFacts.
Import Files Sent.

Section OnS3.

Import S3.
Context {World : Type}.
Variable s3 : Client World.

Local Abbreviation deletions := (filter is_object_deletion).

Lemma s3_list_pages_deletes_nothing (fuel : nat) :
  forall (w : World) (p : ListParams) (acc : Listing) (log : list command),
    deletions (snd (fst (list_pages s3 fuel w p acc log))) = deletions log.
Proof.
  induction fuel as [|n IH]; intros w p acc log; [reflexivity|].
  cbn [list_pages].
  destruct (sendList s3 w p) as [[e|page] w']; cbn [fst snd].
  - rewrite filter_app. cbn. now rewrite app_nil_r.
  - destruct (IsTruncated page).
    + destruct (pageVersions page) as [vs|]; cbn [fst snd].
      * destruct (last_entry vs) as [v|]; cbn [fst snd].
        -- rewrite IH, filter_app. cbn. now rewrite app_nil_r.
        -- rewrite filter_app. cbn. now rewrite app_nil_r.
      * rewrite filter_app. cbn. now rewrite app_nil_r.
    + cbn [fst snd]. rewrite filter_app. cbn. now rewrite app_nil_r.
Qed.

Lemma s3_listing_deletes_nothing (fuel : nat) (w : World) (b f : string)
    (c : Credentials) :
  deletions (snd (fst (listFileVersions s3 fuel w b f c))) = [].
Proof. unfold listFileVersions. now rewrite s3_list_pages_deletes_nothing. Qed.

(** The one command of [deleteObjectVersion], when it has a bucket to
    address; none, and a rejection, when it has not. *)
Lemma s3_deleteObjectVersion_sends (w : World) (b p v : string) (c : Credentials) :
  match delete_target b c with
  | Some t =>
      snd (fst (deleteObjectVersion s3 w b p v c))
      = [DeleteObjectCommand {| delBucket := t; delKey := p; delVersionId := v |}]
  | None =>
      snd (fst (deleteObjectVersion s3 w b p v c)) = []
      /\ exists e, fst (fst (deleteObjectVersion s3 w b p v c)) = Rejected e
  end.
Proof.
  unfold delete_target, deleteObjectVersion.
  destruct (bucket c) as [[| | | |sb]|];
    try (split; [reflexivity|eexists; reflexivity]).
  - destruct (0 <? String.length sb)%nat.
    + now destruct (sendDelete s3 w _) as [[e|] w'].
    + split; [reflexivity|eexists; reflexivity].
  - now destruct (sendDelete s3 w _) as [[e|] w'].
Qed.

Lemma s3_work_sends (b : string) (c : Credentials) (task : Task)
    (k : Counters) (log : list command) (w : World) :
  bucketName task = b -> credentials task = c ->
  match delete_target b c with
  | Some t => snd (fst (work s3 (k, log, w) task)) = log ++ [delete_command t task]
  | None =>
      snd (fst (work s3 (k, log, w) task)) = log
      /\ itemsDeletedCount (fst (fst (work s3 (k, log, w) task)))
         = itemsDeletedCount k
  end.
Proof.
  intros Hb Hc. unfold work.
  pose proof (s3_deleteObjectVersion_sends w (bucketName task) (path task)
                (versionId task) (credentials task)) as Hs.
  destruct (deleteObjectVersion s3 w (bucketName task) (path task)
              (versionId task) (credentials task)) as [[r l] w'].
  cbn [fst snd] in Hs. rewrite Hb, Hc in Hs.
  destruct (delete_target b c) as [t|].
  - subst l. unfold delete_command. now destruct r.
  - destruct Hs as [-> [e ->]]. cbn [fst snd itemsDeletedCount].
    now rewrite app_nil_r.
Qed.

Lemma s3_queue_sends (b : string) (c : Credentials) (tasks : list Task) :
  Forall (fun task => bucketName task = b /\ credentials task = c) tasks ->
  forall (k : Counters) (log : list command) (w : World),
    match delete_target b c with
    | Some t =>
        snd (fst (fold_left (work s3) tasks (k, log, w)))
        = log ++ map (delete_command t) tasks
    | None =>
        snd (fst (fold_left (work s3) tasks (k, log, w))) = log
        /\ itemsDeletedCount (fst (fst (fold_left (work s3) tasks (k, log, w))))
           = itemsDeletedCount k
    end.
Proof.
  induction 1 as [|task rest [Hb Hc] _ IH]; intros k log w.
  - cbn [fold_left map fst snd]. rewrite app_nil_r.
    destruct (delete_target b c); [reflexivity|now split].
  - cbn [fold_left].
    pose proof (s3_work_sends b c task k log w Hb Hc) as Hs.
    destruct (work s3 (k, log, w) task) as [[k1 log1] w1].
    cbn [fst snd] in Hs. specialize (IH k1 log1 w1).
    destruct (delete_target b c) as [t|].
    + rewrite IH, Hs. cbn [map]. now rewrite <- app_assoc.
    + destruct Hs as [-> <-]. exact IH.
Qed.

Lemma s3_relist_deletes_nothing (fuel : nat) (w : World) (b f : string)
    (c : Credentials) (k : Counters) :
  deletions (snd (fst (relist s3 fuel w b f c k))) = [].
Proof.
  unfold relist.
  pose proof (s3_listing_deletes_nothing fuel w b "" c) as Hl.
  destruct (listFileVersions s3 fuel w b "" c) as [[r log] w1].
  cbn [fst snd] in Hl.
  destruct r as [|remaining|e]; cbn [fst snd]; try exact Hl.
  destruct ((List.length (Versions remaining)
             + List.length (DeleteMarkers remaining) =? 0)%nat
            && match bucket c with Some _ => false | None => true end);
    cbn [fst snd]; try exact Hl.
  destruct (sendDeleteBucket s3 w1 b) as [[e|] w2]; cbn [fst snd];
    rewrite filter_app, Hl; reflexivity.
Qed.

Lemma s3_tasks_of_address (b : string) (c : Credentials) (files : Listing) :
  Forall (fun task => bucketName task = b /\ credentials task = c)
         (tasks_of b c files).
Proof.
  unfold tasks_of. apply Forall_app. split; apply Forall_map, Forall_forall;
    intros x _; now split.
Qed.

End OnS3.

Section OnGCS.

Import GCS.
Context {World : Type}.
Variable gcs : Client World.

(** A listing asks for the existence of the bucket and for its files. *)
Lemma gcs_listing_deletes_nothing (w : World) (b f : string) (c : Credentials) :
  forall cmd, In cmd (snd (fst (listFileVersions gcs w b f c))) ->
              is_file_deletion cmd = false /\ is_bucket_deletion cmd = false.
Proof.
  unfold listFileVersions.
  destruct (bucketExists gcs w b) as [[e|[|]] w1]; cbn [fst snd].
  - intros cmd [<-|[]]. now split.
  - destruct (getFiles gcs w1 b f) as [files w2]. cbn [fst snd].
    intros cmd [<-|[<-|[]]]; now split.
  - intros cmd [<-|[]]. now split.
Qed.

(** The worker deletes the file of its task, or nothing. *)
Lemma gcs_work_deletes_its_file (k : Counters) (log : list command) (w : World)
    (task : Task) (b p : string) (g : Z) :
  In (FileDelete b p g) (snd (fst (work gcs (k, log, w) task))) ->
  In (FileDelete b p g) log
  \/ (b = bucketName task /\ p = path task /\ g = versionId task).
Proof.
  unfold work, deleteObjectVersion.
  destruct (bucketExists gcs w (bucketName task)) as [[e|[|]] w1].
  - cbn [fst snd]. intros H. apply in_app_or in H.
    destruct H as [H|[H|[]]]; [now left|discriminate H].
  - destruct (fileDelete gcs w1 _ _ _) as [[e|] w2]; cbn [fst snd];
      intros H; apply in_app_or in H;
      (destruct H as [H|[H|[H|[]]]];
       [now left|discriminate H|injection H as -> -> ->; now right]).
  - cbn [fst snd]. intros H. apply in_app_or in H.
    destruct H as [H|[H|[]]]; [now left|discriminate H].
Qed.

Lemma gcs_queue_deletes_its_files (tasks : list Task) (b p : string) (g : Z) :
  forall (k : Counters) (log : list command) (w : World),
    In (FileDelete b p g) (snd (fst (fold_left (work gcs) tasks (k, log, w)))) ->
    In (FileDelete b p g) log
    \/ exists task, In task tasks
                    /\ b = bucketName task /\ p = path task /\ g = versionId task.
Proof.
  induction tasks as [|task rest IH]; intros k log w; cbn [fold_left fst snd].
  - intros H. now left.
  - pose proof (gcs_work_deletes_its_file k log w task b p g) as Hw.
    destruct (work gcs (k, log, w) task) as [[k1 log1] w1]. cbn [fst snd] in Hw.
    intros H. apply IH in H. destruct H as [H|[t [Ht H]]].
    + destruct (Hw H) as [H'|H']; [now left|].
      right. exists task. split; [now left|exact H'].
    + right. exists t. split; [now right|exact H].
Qed.

Lemma gcs_relist_deletes_no_file (w : World) (b f : string) (c : Credentials)
    (k : Counters) :
  forall cmd, In cmd (snd (fst (relist gcs w b f c k))) ->
              is_file_deletion cmd = false.
Proof.
  unfold relist.
  pose proof (gcs_listing_deletes_nothing w b "" c) as Hl.
  destruct (listFileVersions gcs w b "" c) as [[r log] w1].
  cbn [fst snd] in Hl.
  destruct r as [|remaining|e]; cbn [fst snd];
    try (intros cmd H; now apply Hl).
  destruct (List.length remaining =? 0)%nat; cbn [fst snd];
    [|intros cmd H; now apply Hl].
  destruct (bucketDelete gcs w1 b) as [[e|] w2]; cbn [fst snd];
    intros cmd H; apply in_app_or in H;
    (destruct H as [H|[<-|[]]]; [now apply Hl|reflexivity]).
Qed.

End OnGCS.

(** When the listing of the items fails, [deleteAll] rejects with the
    error of the listing and sends no deletion, of an item or of the
    bucket, in either connector. *)
Theorem failed_listing_deletes_nothing :
  (forall (World : Type) (s3 : S3.Client World)
          (order : list S3.Task -> list S3.Task) (fuel : nat) (w : World)
          (b f : string) (c : Credentials) (e : jserror)
          (log0 : list S3.command) (w0 : World),
      S3.listFileVersions s3 fuel w b f c = (Rejected e, log0, w0) ->
      S3.deleteAll s3 order fuel w b f c
      = {| S3.sent := log0; S3.counters := None; S3.thrown := None;
           S3.calls := [Reject e]; S3.world := w0 |}
      /\ filter is_object_deletion log0 = []
      /\ S3.count_commands S3.is_bucket_deletion log0 = 0%nat)
  /\ (forall (World : Type) (gcs : GCS.Client World)
             (order : list GCS.Task -> list GCS.Task) (w : World)
             (b f : string) (c : Credentials) (e : jserror)
             (log0 : list GCS.command) (w0 : World),
         GCS.listFileVersions gcs w b f c = (Rejected e, log0, w0) ->
         GCS.deleteAll gcs order w b f c
         = {| GCS.sent := log0; GCS.counters := None; GCS.thrown := None;
              GCS.calls := [Reject e]; GCS.world := w0 |}
         /\ forall cmd, In cmd log0 ->
                        is_file_deletion cmd = false
                        /\ GCS.is_bucket_deletion cmd = false).
Proof.
  split.
  - intros World s3 order fuel w b f c e log0 w0 H.
    pose proof (s3_listing_deletes_nothing s3 fuel w b f c) as H1.
    pose proof (Deletion.s3_listFileVersions_sends_lists s3 fuel w b f c) as H2.
    unfold S3.deleteAll. rewrite H in *. cbn [fst snd] in H1, H2.
    repeat split; assumption.
  - intros World gcs order w b f c e log0 w0 H.
    pose proof (gcs_listing_deletes_nothing gcs w b f c) as H1.
    unfold GCS.deleteAll. rewrite H in *. cbn [fst snd] in H1.
    split; [reflexivity|exact H1].
Qed.

Lemma failed_listing_deletes_nothing_witness :
  S3.listFileVersions S3.paged 5 [] "inst" "backups/b1" dedicated
  = (Rejected (ErrProvider "NoSuchPage"),
     [S3.ListObjectVersionsCommand
        {| S3.Bucket := "inst"; S3.Prefix := "backups/b1"; S3.KeyMarker := None |}],
     [])
  /\ S3.result (S3.deleteAll S3.paged (fun l => l) 5 [] "inst" "backups/b1" dedicated)
     = Rejected (ErrProvider "NoSuchPage").
Proof.
  assert (H : S3.listFileVersions S3.paged 5 [] "inst" "backups/b1" dedicated
              = (Rejected (ErrProvider "NoSuchPage"),
                 [S3.ListObjectVersionsCommand
                    {| S3.Bucket := "inst"; S3.Prefix := "backups/b1";
                       S3.KeyMarker := None |}], [])) by reflexivity.
  split; [exact H|].
  rewrite (proj1 (proj1 failed_listing_deletes_nothing _ S3.paged (fun l => l) 5
                    [] "inst" "backups/b1" dedicated _ _ _ H)).
  reflexivity.
Defined.

(** With credentials that give a bucket to address, the S3 [deleteAll]
    sends one deletion for each version and each delete marker of its
    listing, with the key and the version id of that item, in the order
    the queue works them off, and no other deletion of an object. *)
Theorem s3_deleteAll_deletes_each_listed_item_once {World : Type}
    (s3 : S3.Client World) (order : list S3.Task -> list S3.Task) (fuel : nat)
    (w : World) (b f : string) (c : Credentials) (files : S3.Listing)
    (log0 : list S3.command) (w0 : World) (target : string) :
  (forall l, Permutation (order l) l) ->
  S3.listFileVersions s3 fuel w b f c = (Resolved files, log0, w0) ->
  delete_target b c = Some target ->
  filter is_object_deletion (S3.sent (S3.deleteAll s3 order fuel w b f c))
  = map (delete_command target) (order (S3.tasks_of b c files))
  /\ Permutation
       (filter is_object_deletion (S3.sent (S3.deleteAll s3 order fuel w b f c)))
       (map (delete_command target) (S3.tasks_of b c files)).
Proof.
  intros Hperm Hlist Ht.
  assert (Heq : filter is_object_deletion
                  (S3.sent (S3.deleteAll s3 order fuel w b f c))
                = map (delete_command target) (order (S3.tasks_of b c files))).
  { destruct (S3.run_queue s3 (order (S3.tasks_of b c files)) log0 w0)
      as [[k log1] w1] eqn:Hqueue.
    rewrite (Deletion.s3_deleteAll_parts s3 order fuel w b f c files log0 log1
               w0 w1 k Hlist Hqueue).
    cbv zeta. cbn [S3.sent]. rewrite filter_app.
    assert (Haddr : Forall (fun task => S3.bucketName task = b
                                        /\ S3.credentials task = c)
                      (order (S3.tasks_of b c files))).
    { apply (Permutation_Forall (Permutation_sym (Hperm _))).
      apply s3_tasks_of_address. }
    pose proof (s3_queue_sends s3 b c _ Haddr
                  {| S3.itemsDeletedCount := 0; S3.failedItems := [] |} log0 w0)
      as Hq.
    rewrite Ht in Hq. unfold S3.run_queue in Hqueue. rewrite Hqueue in Hq.
    cbn [fst snd] in Hq. rewrite Hq, filter_app.
    pose proof (s3_listing_deletes_nothing s3 fuel w b f c) as Hl0.
    rewrite Hlist in Hl0. cbn [fst snd] in Hl0. rewrite Hl0. cbn [app].
    assert (Hlater :
      filter is_object_deletion
        (snd (fst (if String.eqb f "" then S3.relist s3 fuel w1 b f c k
                   else ([], [], w1)))) = []).
    { destruct (String.eqb f ""); [apply s3_relist_deletes_nothing|reflexivity]. }
    rewrite Hlater, app_nil_r.
    apply forallb_filter_id. apply forallb_forall.
    intros x Hx. apply in_map_iff in Hx. now destruct Hx as [t [<- _]]. }
  split; [exact Heq|]. rewrite Heq. apply Permutation_map, Hperm.
Qed.

Lemma s3_deleteAll_deletes_each_listed_item_once_witness :
  ((forall l : list S3.Task, Permutation (rev l) l)
   /\ S3.listFileVersions S3.store 5 S3.sample "inst" "backups/b1" shared
      = (Resolved {| S3.Versions := S3.sample; S3.DeleteMarkers := [] |},
         [S3.ListObjectVersionsCommand
            {| S3.Bucket := "shared-bucket"; S3.Prefix := "inst/backups/b1";
               S3.KeyMarker := None |}],
         S3.sample)
   /\ delete_target "inst" shared = Some "shared-bucket")
  /\ filter is_object_deletion
       (S3.sent (S3.deleteAll S3.store (@rev S3.Task) 5 S3.sample "inst"
                   "backups/b1" shared))
     = [S3.DeleteObjectCommand
          {| S3.delBucket := "shared-bucket"; S3.delKey := "backups/b1/data";
             S3.delVersionId := "v1" |};
        S3.DeleteObjectCommand
          {| S3.delBucket := "shared-bucket"; S3.delKey := "backups/b1/data";
             S3.delVersionId := "v2" |}].
Proof.
  assert (Hperm : forall l : list S3.Task, Permutation (rev l) l)
    by (intros l; symmetry; apply Permutation_rev).
  assert (Hlist :
    S3.listFileVersions S3.store 5 S3.sample "inst" "backups/b1" shared
    = (Resolved {| S3.Versions := S3.sample; S3.DeleteMarkers := [] |},
       [S3.ListObjectVersionsCommand
          {| S3.Bucket := "shared-bucket"; S3.Prefix := "inst/backups/b1";
             S3.KeyMarker := None |}],
       S3.sample)) by reflexivity.
  split; [split; [exact Hperm|split; [exact Hlist|reflexivity]]|].
  exact (proj1 (s3_deleteAll_deletes_each_listed_item_once S3.store (@rev S3.Task)
                  5 S3.sample "inst" "backups/b1" shared _ _ _ "shared-bucket"
                  Hperm Hlist eq_refl)).
Defined.

(** With credentials that name a shared bucket by something else than a
    string that is not empty, the S3 [deleteAll] sends no deletion of an
    object: every item of the listing is recorded as failed. *)
Theorem s3_deleteAll_without_a_bucket_to_address {World : Type}
    (s3 : S3.Client World) (order : list S3.Task -> list S3.Task) (fuel : nat)
    (w : World) (b f : string) (c : Credentials) (files : S3.Listing)
    (log0 : list S3.command) (w0 : World) :
  (forall l, Permutation (order l) l) ->
  S3.listFileVersions s3 fuel w b f c = (Resolved files, log0, w0) ->
  delete_target b c = None ->
  filter is_object_deletion (S3.sent (S3.deleteAll s3 order fuel w b f c)) = []
  /\ exists k,
       S3.counters (S3.deleteAll s3 order fuel w b f c) = Some k
       /\ S3.itemsDeletedCount k = 0%nat
       /\ List.length (S3.failedItems k)
          = (List.length (S3.Versions files)
             + List.length (S3.DeleteMarkers files))%nat.
Proof.
  intros Hperm Hlist Ht.
  destruct (S3.run_queue s3 (order (S3.tasks_of b c files)) log0 w0)
    as [[k log1] w1] eqn:Hqueue.
  destruct (Deletion.s3_counters s3 order Hperm files b c log0 log1 w0 w1 k
              Hqueue) as [Hsum _].
  rewrite (Deletion.s3_deleteAll_parts s3 order fuel w b f c files log0 log1
             w0 w1 k Hlist Hqueue).
  cbv zeta. cbn [S3.sent S3.counters].
  assert (Haddr : Forall (fun task => S3.bucketName task = b
                                      /\ S3.credentials task = c)
                    (order (S3.tasks_of b c files))).
  { apply (Permutation_Forall (Permutation_sym (Hperm _))).
    apply s3_tasks_of_address. }
  pose proof (s3_queue_sends s3 b c _ Haddr
                {| S3.itemsDeletedCount := 0; S3.failedItems := [] |} log0 w0)
    as Hq.
  rewrite Ht in Hq. unfold S3.run_queue in Hqueue. rewrite Hqueue in Hq.
  cbn [fst snd S3.itemsDeletedCount] in Hq. destruct Hq as [Hlog Hcount].
  split.
  - rewrite filter_app, Hlog.
    pose proof (s3_listing_deletes_nothing s3 fuel w b f c) as Hl0.
    rewrite Hlist in Hl0. cbn [fst snd] in Hl0. rewrite Hl0. cbn [app].
    destruct (String.eqb f ""); [apply s3_relist_deletes_nothing|reflexivity].
  - exists k. split; [reflexivity|]. split; [exact Hcount|]. lia.
Qed.

Lemma s3_deleteAll_without_a_bucket_to_address_witness :
  delete_target "inst" {| access := "key"; bucket := Some (JString "");
                          version := Some 2%Z |} = None
  /\ filter is_object_deletion
       (S3.sent (S3.deleteAll S3.store (fun l => l) 5 S3.sample "inst" "backups/b1"
                   {| access := "key"; bucket := Some (JString "");
                      version := Some 2%Z |})) = [].
Proof.
  split; [reflexivity|].
  assert (Hperm : forall l : list S3.Task, Permutation l l)
    by (intros l; apply Permutation_refl).
  exact (proj1 (s3_deleteAll_without_a_bucket_to_address S3.store (fun l => l) 5
                  S3.sample "inst" "backups/b1"
                  {| access := "key"; bucket := Some (JString "");
                     version := Some 2%Z |}
                  {| S3.Versions := S3.sample; S3.DeleteMarkers := [] |} _ _
                  Hperm eq_refl eq_refl)).
Defined.

(** The Google Cloud Storage [deleteAll] deletes files of its listing
    only: every file deletion it sends is for the bucket it was called on
    and for the name and the generation of a listed file. *)
Theorem gcs_deleteAll_deletes_listed_files_only {World : Type}
    (gcs : GCS.Client World) (order : list GCS.Task -> list GCS.Task)
    (w : World) (b f : string) (c : Credentials) (files : list GCS.File)
    (log0 : list GCS.command) (w0 : World) (b' p : string) (g : Z) :
  (forall l, Permutation (order l) l) ->
  GCS.listFileVersions gcs w b f c = (Resolved files, log0, w0) ->
  In (GCS.FileDelete b' p g) (GCS.sent (GCS.deleteAll gcs order w b f c)) ->
  b' = b /\ In (GCS.mkFile p g) files.
Proof.
  intros Hperm Hlist Hin.
  destruct (GCS.run_queue gcs (order (GCS.tasks_of b c files)) log0 w0)
    as [[k log1] w1] eqn:Hqueue.
  rewrite (Deletion.gcs_deleteAll_parts gcs order w b f c files log0 log1
             w0 w1 k Hlist Hqueue) in Hin.
  cbv zeta in Hin. cbn [GCS.sent] in Hin. apply in_app_or in Hin.
  destruct Hin as [Hin|Hin].
  - pose proof (gcs_queue_deletes_its_files gcs (order (GCS.tasks_of b c files))
                  b' p g {| GCS.itemsDeletedCount := 0; GCS.failedItems := [] |}
                  log0 w0) as Hq.
    unfold GCS.run_queue in Hqueue. rewrite Hqueue in Hq. cbn [fst snd] in Hq.
    destruct (Hq Hin) as [H|[task [Ht [-> [-> ->]]]]].
    + pose proof (gcs_listing_deletes_nothing gcs w b f c) as Hl.
      rewrite Hlist in Hl. cbn [fst snd] in Hl.
      destruct (Hl _ H) as [H' _]. discriminate H'.
    + apply (Permutation_in task (Hperm _)) in Ht.
      unfold GCS.tasks_of in Ht. apply in_map_iff in Ht.
      destruct Ht as [file [<- Hfile]]. cbn [GCS.bucketName GCS.path GCS.versionId].
      split; [reflexivity|]. now destruct file.
  - destruct (String.eqb f ""); [|contradiction].
    pose proof (gcs_relist_deletes_no_file gcs w1 b f c k _ Hin) as H.
    discriminate H.
Qed.

Lemma gcs_deleteAll_deletes_listed_files_only_witness :
  In (GCS.FileDelete "inst" "backups/b1/data" 2)
     (GCS.sent (GCS.deleteAll GCS.store (fun l => l) GCS.sample "inst" "backups/b1"
                  dedicated))
  /\ In (GCS.mkFile "backups/b1/data" 2) GCS.sample.
Proof.
  assert (Hin : In (GCS.FileDelete "inst" "backups/b1/data" 2)
                  (GCS.sent (GCS.deleteAll GCS.store (fun l => l) GCS.sample
                               "inst" "backups/b1" dedicated)))
    by (vm_compute; tauto).
  split; [exact Hin|].
  exact (proj2 (gcs_deleteAll_deletes_listed_files_only GCS.store (fun l => l)
                  GCS.sample "inst" "backups/b1" dedicated GCS.sample _ _
                  "inst" "backups/b1/data" 2
                  (fun l => Permutation_refl l) eq_refl Hin)).
Defined.

End DeletionFacts.

(** ** What a transfer between buckets needs *)

Module TransferFacts.
Import Files.

(** The Google Cloud Storage [transferBackupFiles] settles its promise
    once.  It resolves exactly when the source bucket and then the
    destination bucket are found to exist; in every other case it rejects
    and no file is copied.  The destination bucket is looked for only
    after the source bucket was found. *)
Theorem gcs_transfer_needs_both_buckets {World : Type} (gcs : GCS.Client World)
    (w : World) (src : string) (c : Credentials) (dst : string)
    (filesObject : GCS.Manifest) :
  let run := GCS.transferBackupFiles gcs w src c dst filesObject in
  let source := GCS.bucketExists gcs w src in
  let destination := GCS.bucketExists gcs (snd source) dst in
  exists call,
    GCS.transferCalls run = [call]
    /\ (call = Resolve tt
        <-> fst source = inr true /\ fst destination = inr true)
    /\ (call <> Resolve tt -> GCS.copyCommands run = [])
    /\ (call = Resolve tt ->
        GCS.copyCommands run = GCS.copy_commands filesObject)
    /\ (fst source <> inr true -> GCS.transferWorld run = snd source).
Proof.
  cbv zeta. unfold GCS.transferBackupFiles.
  destruct (GCS.bucketExists gcs w src) as [[e|[|]] w1]; cbn [fst snd].
  - eexists. split; [reflexivity|]. repeat split; try discriminate.
    intros [H _]. discriminate H.
  - destruct (GCS.bucketExists gcs w1 dst) as [[e|[|]] w2]; cbn [fst snd];
      (eexists; split; [reflexivity|]);
      cbn [GCS.copyCommands GCS.transferWorld].
    + repeat split; try discriminate.
      * intros [_ H]. discriminate H.
      * intros H. now contradiction H.
    + repeat split. intros H. now contradiction H. intros H. now contradiction H.
    + repeat split; try discriminate.
      * intros [_ H]. discriminate H.
      * intros H. now contradiction H.
  - eexists. split; [reflexivity|]. repeat split; try discriminate.
    intros [H _]. discriminate H.
Qed.

End TransferFacts.

(** ** The choice of a connector *)

Module DispatchFacts.
Import Files Sent.

(** Every method of [files] calls a connector for the two pairs of
    provider and product it knows, and for them only: the names are
    compared as they are written, and a known product under the other
    provider selects nothing. *)
Theorem dispatch_forwards_the_two_pairs_only (op : operation)
    (provider product : string) (c : connector) :
  dispatch op provider product = Forward c
  <-> (provider = "google" /\ product = "storage" /\ c = gcsUtils)
      \/ (provider = "amazon" /\ product = "s3" /\ c = s3Utils).
Proof.
  assert (H : forall g l,
             switch g l provider product = Forward c
             <-> (provider = "google" /\ product = "storage" /\ c = gcsUtils)
                 \/ (provider = "amazon" /\ product = "s3" /\ c = s3Utils)).
  { intros g l. unfold switch.
    destruct (String.eqb_spec provider "google") as [Hg|Hg].
    - destruct (String.eqb_spec product "storage") as [Hs|Hs].
      + split.
        * intros [= <-]. left. now repeat split.
        * intros [[_ [_ ->]]|[Ha _]]; [reflexivity|].
          rewrite Hg in Ha. discriminate Ha.
      + split; [discriminate|].
        intros [[_ [Hp _]]|[Ha _]]; [contradiction|].
        rewrite Hg in Ha. discriminate Ha.
    - destruct (String.eqb_spec provider "amazon") as [Ha|Ha].
      + destruct (String.eqb_spec product "s3") as [Hs|Hs].
        * split.
          -- intros [= <-]. right. now repeat split.
          -- intros [[Hg' _]|[_ [_ ->]]]; [contradiction|reflexivity].
        * split; [discriminate|].
          intros [[Hg' _]|[_ [Hp _]]]; contradiction.
      + split; [discriminate|].
        intros [[Hg' _]|[Ha' _]]; contradiction. }
  destruct op; cbn [dispatch]; apply H.
Qed.

(** The refusal of a pair without connector names the method that was
    called, but for the two listings under the provider [google], which
    both name [listFiles]. *)
Theorem refusal_names_the_method (op : operation) (provider product : string) :
  ~ supported provider product ->
  dispatch op provider product
  = Refuse (ErrError (printed_name op provider
                        +++ " error: method does not currently support "
                        +++ provider +++ "'s " +++ product)).
Proof.
  intros Hno.
  destruct op; cbn [dispatch printed_name method_name];
    unfold listFileVersions, listBackups, calculateDate, deleteObjectVersion,
      deleteAll, transferBackupFiles;
    rewrite (Dispatch.switch_refuses _ _ provider product Hno);
    unfold unsupported; destruct (String.eqb provider "google"); reflexivity.
Qed.

Lemma refusal_names_the_method_witness :
  ~ supported "google" "s3"
  /\ dispatch OpListBackups "google" "s3"
     = Refuse (ErrError "listFiles error: method does not currently support google's s3").
Proof.
  assert (Hno : ~ supported "google" "s3").
  { intros [[_ H]|[H _]]; discriminate H. }
  split; [exact Hno|].
  exact (refusal_names_the_method OpListBackups "google" "s3" Hno).
Defined.

End DispatchFacts.
